(** * Yangson: the data-model facade, its token patterns and the JSON Schema script

  A shallow embedding of [yangson/constants.py], [yangson/datamodel.py] and
  [yangson/json_schema.py].

  Conventions of the embedding.
  - A Python [str] is a [string] holding its UTF-8 text. The character
    classes of the token patterns are given on ASCII characters: what is
    stated of a pattern with [\d] or [\s], which in Python take characters
    beyond ASCII too, is stated of ASCII text.
  - A Python object of a class whose module is not part of the embedded
    sources (schema nodes, schema data, statements, parsers) is a reference
    of the abstract type [ref] into an abstract [heap]; its methods are
    the fields of the class [Absent].
  - Code that can raise returns a [result]; code that reads or changes
    objects runs in the state-and-exception monad [M].
  - The dictionaries and lists the schema walker makes are objects of a
    store, reached through references: two names for one object are one
    reference, and a change through one is seen through the other.
  - The parser of instance identifiers, which [datamodel.py] calls and the
    embedded sources do not hold, is modelled from the specification. *)

From Stdlib Require Import Ascii String List ZArith Lia Bool.
From stdpp Require Import base option list strings pretty gmap.

Set Default Proof Using "Type".
Set Warnings "-register-all".
Local Open Scope string_scope.
Local Open Scope list_scope.

(** ** Token patterns of [constants.py] *)

Module Re.

(** Patterns as [re] reads them: every repetition in [constants.py] is
    over a single character class, which [Star] and [Plus] take. *)
Inductive regex : Type :=
| Eps
| Chr (c : ascii)
| Cls (p : ascii -> bool)
| Seq (r1 r2 : regex)
| Alt (r1 r2 : regex)
| Opt (r : regex)
| Star (p : ascii -> bool)
| Plus (p : ascii -> bool)
| Group (name : string) (r : regex).

(** Named groups of a match, the most recent binding first. *)
Definition groups := list (string * string).

Fixpoint group (name : string) (g : groups) : option string :=
  match g with
  | [] => None
  | (n, v) :: g' => if String.eqb n name then Some v else group name g'
  end.

Definition text := list ascii.

(** The characters of [s] consumed when [s'] is what is left of it. *)
Definition consumed (s s' : text) : string :=
  string_of_list_ascii (firstn (length s - length s') s).

Section Matcher.
Context {R : Type}.

(** Greedy repetition of a class: take the character when the class has
    it and try the rest; give it back when the continuation fails. *)
Fixpoint star (p : ascii -> bool) (s : text) (k : text -> option R)
  : option R :=
  match s with
  | c :: s' =>
      if p c then
        match star p s' k with
        | Some r => Some r
        | None => k s
        end
      else k s
  | [] => k s
  end.

(** Backtracking match with left-to-right priority, in continuation
    style: [k] is what has to match after [r]. *)
Fixpoint bt (r : regex) (s : text) (g : groups)
  (k : text -> groups -> option R) {struct r} : option R :=
  match r with
  | Eps => k s g
  | Chr c =>
      match s with
      | c' :: s' => if Ascii.eqb c c' then k s' g else None
      | [] => None
      end
  | Cls p =>
      match s with
      | c' :: s' => if p c' then k s' g else None
      | [] => None
      end
  | Seq r1 r2 => bt r1 s g (fun s' g' => bt r2 s' g' k)
  | Alt r1 r2 =>
      match bt r1 s g k with
      | Some x => Some x
      | None => bt r2 s g k
      end
  | Opt r1 =>
      match bt r1 s g k with
      | Some x => Some x
      | None => k s g
      end
  | Star p => star p s (fun s' => k s' g)
  | Plus p =>
      match s with
      | c' :: s' => if p c' then star p s' (fun s'' => k s'' g) else None
      | [] => None
      end
  | Group name r1 =>
      bt r1 s g (fun s' g' => k s' ((name, consumed s s') :: g'))
  end.
End Matcher.

(** A match object: the text matched and the named groups that took part. *)
Record match_obj := { matched : string; named : groups }.

(** [pattern.match(string)]: the match is anchored at the start of the
    string and may end anywhere. *)
Definition re_match (r : regex) (s : string) : option match_obj :=
  let t := list_ascii_of_string s in
  bt r t [] (fun t' g => Some {| matched := consumed t t'; named := g |}).

(** Sequence of several patterns. *)
Fixpoint seqs (rs : list regex) : regex :=
  match rs with
  | [] => Eps
  | [r] => r
  | r :: rs' => Seq r (seqs rs')
  end.

End Re.

Module Constants.
Import Re.

Definition code (c : ascii) : N := N_of_ascii c.

Definition between (lo hi c : ascii) : bool :=
  (code lo <=? code c)%N && (code c <=? code hi)%N.

Definition is_chr (x c : ascii) : bool := Ascii.eqb x c.

(** [[a-zA-Z_]] *)
Definition ident_start (c : ascii) : bool :=
  between "a" "z" c || between "A" "Z" c || is_chr "_" c.

(** [[a-zA-Z0-9_.-]] *)
Definition ident_char (c : ascii) : bool :=
  between "a" "z" c || between "A" "Z" c || between "0" "9" c
  || is_chr "_" c || is_chr "." c || is_chr "-" c.

(** [[0-9]], which is also what [\d] accepts of ASCII text. In a pattern
    for [str], as those of this module are, [\d] accepts the decimal digits
    of every script: what is stated of [pred_re], the one pattern with
    [\d], is stated of ASCII text. *)
Definition digit (c : ascii) : bool := between "0" "9" c.

(** [\s] on ASCII text: the characters [str.isspace] accepts below 128.
    Above 127 Python has more spaces (the no-break space is one), which
    the model does not have: what is stated of [pred_re], the one pattern
    with [\s], is stated of ASCII text. *)
Definition space (c : ascii) : bool :=
  (9 <=? code c)%N && (code c <=? 13)%N
  || (28 <=? code c)%N && (code c <=? 32)%N.

(** [[ \n\t\r]] *)
Definition ws_char (c : ascii) : bool :=
  is_chr " " c || is_chr "010" c || is_chr "009" c || is_chr "013" c.

(** [_ident]: a letter or underscore, then any run of letters, digits,
    underscores, dots and hyphens. *)
Definition _ident : regex := Seq (Cls ident_start) (Star ident_char).
Definition ident_re : regex := _ident.

(** [_pname]: an optional prefix [_ident] in group [prf] followed by a
    colon, then the local name [_ident] in group [loc]. *)
Definition _pname : regex :=
  Seq (Opt (Seq (Group "prf" _ident) (Chr ":"))) (Group "loc" _ident).
Definition pname_re : regex := _pname.

(** [_rhs]: a double-quoted literal in group [drhs] or a single-quoted one
    in group [srhs]. *)
Definition dquote : ascii := "034".
Definition squote : ascii := "039".
Definition _rhs : regex :=
  Alt (seqs [Chr dquote; Group "drhs" (Star (fun c => negb (is_chr dquote c)));
             Chr dquote])
      (seqs [Chr squote; Group "srhs" (Star (fun c => negb (is_chr squote c)));
             Chr squote]).

(** The two alternatives inside the brackets of [pred_re]. *)
Definition pred_key : regex :=
  seqs [Alt _pname (Chr "."); Star space; Chr "="; Star space; _rhs].
Definition pred_pos : regex := Group "pos" (Star digit).

(** [pred_re]: an opening bracket, [\s*], then either the alternative
    [(_pname|\.)\s*=\s*_rhs] or the group [pos] holding [\d*] (any number of
    digits, none included), then [\s*] and the closing bracket. *)
Definition pred_re : regex :=
  seqs [Chr "["; Star space; Alt pred_key pred_pos; Star space; Chr "]"].

(** [ws_re]: any run of space, newline, tab and carriage return. *)
Definition ws_re : regex := Star ws_char.

(** [_integer]: one digit or more. *)
Definition _integer : regex := Plus digit.
Definition integer_re : regex := _integer.

(** [decimal_re]: [_integer], optionally a dot and [_integer]; or a dot
    and [_integer]. *)
Definition decimal_re : regex :=
  Alt (Seq _integer (Opt (Seq (Chr ".") _integer)))
      (Seq (Chr ".") _integer).

End Constants.

(** Enumerations of [constants.py], each with the values of its members. *)

Module DefaultDeny.
Inductive t : Type := none | write | all.
Definition value (x : t) : Z :=
  match x with none => 1 | write => 2 | all => 3 end.
End DefaultDeny.

Module Axis.
Inductive t : Type :=
| ancestor | ancestor_or_self | attribute | child | descendant
| descendant_or_self | following_sibling | parent | preceding_sibling
| self.
Definition value (x : t) : Z :=
  match x with
  | ancestor => 1 | ancestor_or_self => 2 | attribute => 3 | child => 4
  | descendant => 5 | descendant_or_self => 6 | following_sibling => 7
  | parent => 8 | preceding_sibling => 9 | self => 10
  end.
End Axis.

Module MultiplicativeOp.
Inductive t : Type := multiply | divide | modulo.
Definition value (x : t) : Z :=
  match x with multiply => 1 | divide => 2 | modulo => 3 end.
End MultiplicativeOp.

(** ** Python values, exceptions and the interpreter state *)

Module Py.

(** Exception classes the embedded sources name, raise or catch. *)
Inductive pyclass : Type :=
| BadYangLibraryData
| FeaturePrerequisiteError
| MultipleImplementedRevisions
| ModuleNotFound
| ModuleNotRegistered
| RawMemberError
| RawTypeError
| SchemaError
| SemanticError
| YangTypeError
| InvalidSchemaPath
| FileNotFoundError
| PermissionError
| JSONDecodeErrorClass
| AttributeError
| TypeError
| KeyError
| RecursionError
| SystemExit
| OtherClass (name : string).

#[global] Instance pyclass_eq_dec : EqDecision pyclass.
Proof. solve_decision. Defined.

(** An exception object. [json.JSONDecodeError] keeps the message, the
    document and the offset it was built from; of any other exception the
    embedding keeps the class and what [str(e)] gives. *)
Inductive exn : Type :=
| JSONDecodeError (msg doc : string) (pos : nat)
| Exc (cls : pyclass) (text : string).

Definition class_of (e : exn) : pyclass :=
  match e with
  | JSONDecodeError _ _ _ => JSONDecodeErrorClass
  | Exc cls _ => cls
  end.

Definition newline : ascii := "010".

(** [doc.count(newline, 0, pos)] *)
Definition count_newlines (doc : string) (pos : nat) : nat :=
  length (filter (fun c => c = newline)
            (firstn pos (list_ascii_of_string doc))).

(** Characters after the last newline of a text. *)
Fixpoint after_last_newline (l : list ascii) (acc : nat) : nat :=
  match l with
  | [] => acc
  | c :: l' =>
      if Ascii.eqb c newline then after_last_newline l' 0
      else after_last_newline l' (S acc)
  end.

(** [JSONDecodeError.__init__]: [lineno = doc.count(newline, 0, pos) + 1]
    and [colno = pos - doc.rfind(newline, 0, pos)]. *)
Definition lineno (doc : string) (pos : nat) : nat :=
  count_newlines doc pos + 1.
Definition colno (doc : string) (pos : nat) : nat :=
  if bool_decide (count_newlines doc pos = 0) then pos + 1
  else after_last_newline (firstn pos (list_ascii_of_string doc)) 0 + 1.

(** [str(e)] *)
Definition str (e : exn) : string :=
  match e with
  | JSONDecodeError msg doc pos =>
      msg +:+ ": line " +:+ pretty (lineno doc pos)
          +:+ " column " +:+ pretty (colno doc pos)
          +:+ " (char " +:+ pretty pos +:+ ")"
  | Exc _ text => text
  end.

(** Values [json.loads] builds and [json.dumps] prints. A [dict] keeps its
    keys in insertion order; a float is kept as its literal. *)
Inductive pyjson : Type :=
| JNull
| JBool (b : bool)
| JInt (n : Z)
| JFloat (literal : string)
| JStr (s : string)
| JList (l : list pyjson)
| JDict (d : list (string * pyjson)).

Definition pydict := list (string * pyjson).

(** [d.get(k)] *)
Fixpoint dict_get (k : string) (d : pydict) : option pyjson :=
  match d with
  | [] => None
  | (k', v) :: d' => if String.eqb k' k then Some v else dict_get k d'
  end.

(** [d[k] = v]: a present key keeps its place, a new one goes last. *)
Fixpoint dict_set (k : string) (v : pyjson) (d : pydict) : pydict :=
  match d with
  | [] => [(k, v)]
  | (k', v') :: d' =>
      if String.eqb k' k then (k, v) :: d' else (k', v') :: dict_set k v d'
  end.

(** What a computation gives: a value or a raised exception. *)
Inductive result (A : Type) : Type :=
| Return (a : A)
| Raise (e : exn).
Arguments Return {A} a.
Arguments Raise {A} e.

Definition type_name (v : pyjson) : string :=
  match v with
  | JNull => "NoneType"
  | JBool _ => "bool"
  | JInt _ => "int"
  | JFloat _ => "float"
  | JStr _ => "str"
  | JList _ => "list"
  | JDict _ => "dict"
  end.

Definition is_substring (x s : string) : bool :=
  match String.index 0 x s with Some _ => true | None => false end.

(** [x in v] for a string [x]: key membership in a [dict], an equal element
    in a [list], a substring of a [str]; any other value is not a container
    and the test raises [TypeError]. *)
Definition py_in (x : string) (v : pyjson) : result bool :=
  match v with
  | JDict d => Return (bool_decide (is_Some (dict_get x d)))
  | JList l =>
      Return (existsb (fun y => match y with
                                | JStr s => String.eqb x s
                                | _ => false
                                end) l)
  | JStr s => Return (is_substring x s)
  | _ => Raise (Exc TypeError
                  ("argument of type '" +:+ type_name v
                   +:+ "' is not iterable"))
  end.

End Py.

(** ** The decoder of the [json] module

    [json.loads] on a [str], after CPython's [json.decoder] and
    [json.scanner]. A string value is kept as UTF-8 text, so an escape
    [\uXXXX] is stored as the encoding of its code point, and offsets
    count the characters of an ASCII text. A float is kept as the literal
    it is written as. The interpreter's recursion limit and its limit on
    the size of integer literals are not modelled.

    The decoder stands in for [json.loads] in the runs of this file, which
    are on short ASCII texts without floats, where it gives what
    [json.loads] gives. The theorems do not rest on it: they take the
    decoder as the field [json_loads] of the class [Absent], and what it
    gives for a text as a hypothesis. *)

Module Json.
Import Constants Py.

Record cursor := { rest : list ascii; pos : nat }.

Inductive dres (A : Type) : Type :=
| Ok (a : A)
| Err (msg : string) (at_pos : nat)
| TooDeep.
Arguments Ok {A} a.
Arguments Err {A} msg at_pos.
Arguments TooDeep {A}.

Definition advance (n : nat) (c : cursor) : cursor :=
  {| rest := skipn n (rest c); pos := pos c + n |}.

Definition is_ws (c : ascii) : bool :=
  is_chr " " c || is_chr "009" c || is_chr "010" c || is_chr "013" c.

Fixpoint skip_ws_list (l : list ascii) (p : nat) : cursor :=
  match l with
  | c :: l' => if is_ws c then skip_ws_list l' (S p)
               else {| rest := l; pos := p |}
  | [] => {| rest := []; pos := p |}
  end.
Definition skip_ws (c : cursor) : cursor := skip_ws_list (rest c) (pos c).

Definition hexval (c : ascii) : option N :=
  if between "0" "9" c then Some (code c - 48)%N
  else if between "a" "f" c then Some (code c - 87)%N
  else if between "A" "F" c then Some (code c - 55)%N
  else None.

(** Four hexadecimal digits at the head of a text. *)
Definition hex4 (l : list ascii) : option N :=
  match l with
  | a :: b :: c :: d :: _ =>
      match hexval a, hexval b, hexval c, hexval d with
      | Some x, Some y, Some z, Some w =>
          Some (((x * 16 + y) * 16 + z) * 16 + w)%N
      | _, _, _, _ => None
      end
  | _ => None
  end.

Definition chr (n : N) : ascii := ascii_of_N n.

(** UTF-8 encoding of a code point. *)
Definition utf8 (cp : N) : list ascii :=
  if (cp <? 128)%N then [chr cp]
  else if (cp <? 2048)%N then
    [chr (192 + cp / 64); chr (128 + cp mod 64)]
  else if (cp <? 65536)%N then
    [chr (224 + cp / 4096); chr (128 + (cp / 64) mod 64);
     chr (128 + cp mod 64)]
  else
    [chr (240 + cp / 262144); chr (128 + (cp / 4096) mod 64);
     chr (128 + (cp / 64) mod 64); chr (128 + cp mod 64)].

Definition is_high_surrogate (n : N) : bool :=
  (55296 <=? n)%N && (n <=? 56319)%N.
Definition is_low_surrogate (n : N) : bool :=
  (56320 <=? n)%N && (n <=? 57343)%N.

Definition unescape (c : ascii) : option ascii :=
  if is_chr dquote c then Some dquote
  else if is_chr "\" c then Some "\"%char
  else if is_chr "/" c then Some "/"%char
  else if is_chr "b" c then Some "008"%char
  else if is_chr "f" c then Some "012"%char
  else if is_chr "n" c then Some "010"%char
  else if is_chr "r" c then Some "013"%char
  else if is_chr "t" c then Some "009"%char
  else None.

(** [scanstring]: the text after an opening quote at offset [begin]; [p] is
    the offset of the head of [l] and [acc] the characters read so far, last
    first. *)
Fixpoint scanstring (fuel : nat) (l : list ascii) (p : nat) (begin : nat)
  (acc : list ascii) : dres (string * cursor) :=
  match fuel with
  | 0 => Err "Unterminated string starting at" begin
  | S fuel' =>
      match l with
      | [] => Err "Unterminated string starting at" begin
      | c :: l' =>
          if is_chr dquote c then
            Ok (string_of_list_ascii (rev acc), {| rest := l'; pos := S p |})
          else if is_chr "\" c then
            match l' with
            | [] => Err "Unterminated string starting at" begin
            | e :: l'' =>
                if is_chr "u" e then
                  match hex4 l'' with
                  | None => Err "Invalid \uXXXX escape" (S p)
                  | Some cp =>
                      let l3 := skipn 4 l'' in
                      match l3 with
                      | b2 :: u2 :: l4 =>
                          if is_high_surrogate cp && is_chr "\" b2
                             && is_chr "u" u2 && Nat.leb 4 (length l4) then
                            match hex4 l4 with
                            | None => Err "Invalid \uXXXX escape" (p + 7)
                            | Some cp2 =>
                                if is_low_surrogate cp2 then
                                  let j := (65536 + (cp - 55296) * 1024
                                            + (cp2 - 56320))%N in
                                  scanstring fuel' (skipn 4 l4) (p + 12)
                                    begin (rev (utf8 j) ++ acc)
                                else
                                  scanstring fuel' l3 (p + 6) begin
                                    (rev (utf8 cp) ++ acc)
                            end
                          else
                            scanstring fuel' l3 (p + 6) begin
                              (rev (utf8 cp) ++ acc)
                      | _ =>
                          scanstring fuel' l3 (p + 6) begin
                            (rev (utf8 cp) ++ acc)
                      end
                  end
                else
                  match unescape e with
                  | Some x => scanstring fuel' l'' (p + 2) begin (x :: acc)
                  | None => Err "Invalid \escape" p
                  end
            end
          else if (code c <? 32)%N then Err "Invalid control character at" p
          else scanstring fuel' l' (S p) begin (c :: acc)
      end
  end.

Fixpoint take_digits (l : list ascii) : list ascii * list ascii :=
  match l with
  | c :: l' =>
      if digit c then let '(d, r) := take_digits l' in (c :: d, r)
      else ([], l)
  | [] => ([], [])
  end.

Definition digits_value (d : list ascii) : Z :=
  fold_left (fun n c => (n * 10 + Z.of_N (code c - 48))%Z) d 0%Z.

(** A number literal at the head of a text: the integer part with its
    sign, then a fraction and an exponent when they are complete. *)
Definition match_number (l : list ascii) : option (pyjson * nat) :=
  let '(neg, l1) := match l with
                    | c :: l' => if is_chr "-" c then (true, l') else (false, l)
                    | [] => (false, l)
                    end in
  let ip := match l1 with
            | c :: l' =>
                if is_chr "0" c then Some ([c], l')
                else if digit c then Some (take_digits l1)
                else None
            | [] => None
            end in
  match ip with
  | None => None
  | Some (int_digits, l2) =>
      let '(frac, l3) :=
        match l2 with
        | c :: l' =>
            if is_chr "." c then
              match take_digits l' with
              | ([], _) => ([], l2)
              | (d, r) => (c :: d, r)
              end
            else ([], l2)
        | [] => ([], l2)
        end in
      let '(ex, l4) :=
        match l3 with
        | c :: l' =>
            if is_chr "e" c || is_chr "E" c then
              let '(sign, l'') :=
                match l' with
                | s :: r => if is_chr "+" s || is_chr "-" s then ([s], r)
                            else ([], l')
                | [] => ([], l')
                end in
              match take_digits l'' with
              | ([], _) => ([], l3)
              | (d, r) => (c :: sign ++ d, r)
              end
            else ([], l3)
        | [] => ([], l3)
        end in
      let n := length l - length l4 in
      match frac, ex with
      | [], [] =>
          let v := digits_value int_digits in
          Some (JInt (if neg then - v else v)%Z, n)
      | _, _ => Some (JFloat (string_of_list_ascii (firstn n l)), n)
      end
  end.

Definition starts_with (w : string) (l : list ascii) : bool :=
  let lw := list_ascii_of_string w in
  bool_decide (firstn (length lw) l = lw).

Definition literal (w : string) (v : pyjson) (c : cursor)
  : option (dres (pyjson * cursor)) :=
  if starts_with w (rest c) then Some (Ok (v, advance (String.length w) c))
  else None.

(** [scan_once] with the object and array loops it calls. [fuel] bounds the
    chain of calls; [loads] gives two units for each character, which is
    more than a text can use. *)
Fixpoint scan_once (fuel : nat) (c : cursor) : dres (pyjson * cursor) :=
  match fuel with
  | 0 => TooDeep
  | S fuel' =>
      match rest c with
      | [] => Err "Expecting value" (pos c)
      | x :: l' =>
          if is_chr dquote x then
            match scanstring (length l' + 1) l' (S (pos c)) (pos c) [] with
            | Ok (s, c') => Ok (JStr s, c')
            | Err m p => Err m p
            | TooDeep => TooDeep
            end
          else if is_chr "{" x then
            let c1 := skip_ws (advance 1 c) in
            match rest c1 with
            | y :: _ =>
                if is_chr "}" y then Ok (JDict [], advance 1 c1)
                else object_loop fuel' c1 []
            | [] => object_loop fuel' c1 []
            end
          else if is_chr "[" x then
            let c1 := skip_ws (advance 1 c) in
            match rest c1 with
            | y :: _ =>
                if is_chr "]" y then Ok (JList [], advance 1 c1)
                else array_loop fuel' c1 []
            | [] => array_loop fuel' c1 []
            end
          else
            match literal "null" JNull c with
            | Some r => r
            | None =>
            match literal "true" (JBool true) c with
            | Some r => r
            | None =>
            match literal "false" (JBool false) c with
            | Some r => r
            | None =>
            match match_number (rest c) with
            | Some (v, n) => Ok (v, advance n c)
            | None =>
            match literal "NaN" (JFloat "NaN") c with
            | Some r => r
            | None =>
            match literal "Infinity" (JFloat "Infinity") c with
            | Some r => r
            | None =>
            match literal "-Infinity" (JFloat "-Infinity") c with
            | Some r => r
            | None => Err "Expecting value" (pos c)
            end end end end end end end
      end
  end

with object_loop (fuel : nat) (c : cursor) (acc : pydict)
  : dres (pyjson * cursor) :=
  match fuel with
  | 0 => TooDeep
  | S fuel' =>
      match rest c with
      | q :: l' =>
          if is_chr dquote q then
            match scanstring (length l' + 1) l' (S (pos c)) (pos c) [] with
            | Err m p => Err m p
            | TooDeep => TooDeep
            | Ok (key, c1) =>
                let c2 := skip_ws c1 in
                match rest c2 with
                | colon :: _ =>
                    if is_chr ":" colon then
                      let c3 := skip_ws (advance 1 c2) in
                      match scan_once fuel' c3 with
                      | Err m p => Err m p
                      | TooDeep => TooDeep
                      | Ok (v, c4) =>
                          let acc' := dict_set key v acc in
                          let c5 := skip_ws c4 in
                          match rest c5 with
                          | z :: _ =>
                              if is_chr "}" z then
                                Ok (JDict acc', advance 1 c5)
                              else if is_chr "," z then
                                object_loop fuel' (skip_ws (advance 1 c5)) acc'
                              else Err "Expecting ',' delimiter" (pos c5)
                          | [] => Err "Expecting ',' delimiter" (pos c5)
                          end
                      end
                    else Err "Expecting ':' delimiter" (pos c2)
                | [] => Err "Expecting ':' delimiter" (pos c2)
                end
            end
          else
            Err "Expecting property name enclosed in double quotes" (pos c)
      | [] => Err "Expecting property name enclosed in double quotes" (pos c)
      end
  end

with array_loop (fuel : nat) (c : cursor) (acc : list pyjson)
  : dres (pyjson * cursor) :=
  match fuel with
  | 0 => TooDeep
  | S fuel' =>
      match scan_once fuel' c with
      | Err m p => Err m p
      | TooDeep => TooDeep
      | Ok (v, c1) =>
          let c2 := skip_ws c1 in
          match rest c2 with
          | z :: _ =>
              if is_chr "]" z then Ok (JList (acc ++ [v]), advance 1 c2)
              else if is_chr "," z then
                array_loop fuel' (skip_ws (advance 1 c2)) (acc ++ [v])
              else Err "Expecting ',' delimiter" (pos c2)
          | [] => Err "Expecting ',' delimiter" (pos c2)
          end
      end
  end.

Definition bom : list ascii := ["239"; "187"; "191"]%char.

(** [json.loads(s)]: [JSONDecoder.decode] after the check for a byte order
    mark. *)
Definition loads (s : string) : result pyjson :=
  let l := list_ascii_of_string s in
  if bool_decide (firstn 3 l = bom) then
    Raise (JSONDecodeError "Unexpected UTF-8 BOM (decode using utf-8-sig)" s 0)
  else
    match scan_once (2 * length l + 4) (skip_ws {| rest := l; pos := 0 |}) with
    | Err m p => Raise (JSONDecodeError m s p)
    | TooDeep =>
        Raise (Exc RecursionError "maximum recursion depth exceeded")
    | Ok (v, c) =>
        let c' := skip_ws c in
        match rest c' with
        | [] => Return v
        | _ :: _ => Raise (JSONDecodeError "Extra data" s (pos c'))
        end
    end.

(** [json.dumps] with its default settings, after [json.encoder]. *)

Definition hexdigit (n : N) : ascii :=
  if (n <? 10)%N then chr (48 + n) else chr (87 + n).

(** The escape of a code unit: a backslash, [u] and four hexadecimal
    digits in lower case. *)
Definition escape_unit (n : N) : list ascii :=
  ["\"; "u"; hexdigit (n / 4096); hexdigit ((n / 256) mod 16);
   hexdigit ((n / 16) mod 16); hexdigit (n mod 16)]%char.

Definition escape_code_point (cp : N) : list ascii :=
  if (cp <? 65536)%N then escape_unit cp
  else
    let v := (cp - 65536)%N in
    escape_unit (55296 + v / 1024) ++ escape_unit (56320 + v mod 1024).

Definition is_cont (c : ascii) : bool :=
  (128 <=? code c)%N && (code c <? 192)%N.

(** [encode_basestring_ascii] without the surrounding quotes: printable
    ASCII stays, the quote and the backslash get a backslash, the usual
    control characters their letter, anything else its [\u] escape. *)
Fixpoint escape_text (fuel : nat) (l : list ascii) : list ascii :=
  match fuel with
  | 0 => []
  | S fuel' =>
      match l with
      | [] => []
      | c :: l' =>
          let n := code c in
          if is_chr dquote c then "\"%char :: dquote :: escape_text fuel' l'
          else if is_chr "\" c then
            "\"%char :: "\"%char :: escape_text fuel' l'
          else if is_chr "010" c then
            "\"%char :: "n"%char :: escape_text fuel' l'
          else if is_chr "013" c then
            "\"%char :: "r"%char :: escape_text fuel' l'
          else if is_chr "009" c then
            "\"%char :: "t"%char :: escape_text fuel' l'
          else if is_chr "008" c then
            "\"%char :: "b"%char :: escape_text fuel' l'
          else if is_chr "012" c then
            "\"%char :: "f"%char :: escape_text fuel' l'
          else if (32 <=? n)%N && (n <? 127)%N then
            c :: escape_text fuel' l'
          else if (n <? 192)%N then
            escape_unit n ++ escape_text fuel' l'
          else
            match l' with
            | c1 :: l1 =>
                if (n <? 224)%N && is_cont c1 then
                  escape_code_point ((n - 192) * 64 + (code c1 - 128))
                    ++ escape_text fuel' l1
                else
                  match l1 with
                  | c2 :: l2 =>
                      if (n <? 240)%N && is_cont c1 && is_cont c2 then
                        escape_code_point
                          ((n - 224) * 4096 + (code c1 - 128) * 64
                           + (code c2 - 128))
                          ++ escape_text fuel' l2
                      else
                        match l2 with
                        | c3 :: l3 =>
                            if (240 <=? n)%N && is_cont c1 && is_cont c2
                               && is_cont c3 then
                              escape_code_point
                                ((n - 240) * 262144 + (code c1 - 128) * 4096
                                 + (code c2 - 128) * 64 + (code c3 - 128))
                                ++ escape_text fuel' l3
                            else escape_unit n ++ escape_text fuel' l'
                        | [] => escape_unit n ++ escape_text fuel' l'
                        end
                  | [] => escape_unit n ++ escape_text fuel' l'
                  end
            | [] => escape_unit n ++ escape_text fuel' l'
            end
      end
  end.

Definition dumps_str (s : string) : string :=
  let l := list_ascii_of_string s in
  String dquote (string_of_list_ascii (escape_text (length l) l))
    +:+ String dquote "".

Fixpoint join (sep : string) (l : list string) : string :=
  match l with
  | [] => ""
  | [x] => x
  | x :: l' => x +:+ sep +:+ join sep l'
  end.

(** [json.dumps(v)]: items are separated by a comma and a space, a key
    from its value by a colon and a space. A float prints as the literal
    it is kept as. *)
Fixpoint dumps (v : pyjson) : string :=
  match v with
  | JNull => "null"
  | JBool true => "true"
  | JBool false => "false"
  | JInt n => pretty n
  | JFloat lit => lit
  | JStr s => dumps_str s
  | JList l => "[" +:+ join ", " (map dumps l) +:+ "]"
  | JDict d =>
      "{" +:+ join ", " (map (fun kv => dumps_str (fst kv) +:+ ": "
                                        +:+ dumps (snd kv)) d) +:+ "}"
  end.

End Json.

(** ** Instance identifiers

    Modelled from the spec: the parser of instance identifiers. The class
    [InstanceIdParser] is of [yangson/instance.py], which is not among the
    embedded sources; [datamodel.py] only calls it. The model follows the
    specification: the route model of its section 3, the token rules of
    its section 4.1, whose character classes are those of [constants.py],
    and the grammar of instance identifiers of its section 4.2. *)

Module InstanceIdentifier.
Import Re Constants Py.

(** Modelled from the spec: [QualifiedName], a local name with the module
    it belongs to. *)
Record QualifiedName : Type := {
  local_name : string;
  module_of : string
}.

(** Modelled from the spec: what a keyed predicate gives a literal to, a
    key or, when the predicate starts with a dot, the entry itself. *)
Inductive PredicateKey : Type :=
| KeyName (q : QualifiedName)
| SelfValue.

(** Modelled from the spec: [Selector], absent, a position, or the keyed
    predicates of a step. The mapping is kept as the list of its entries
    in the order written. *)
Inductive Selector : Type :=
| NoSelector
| Positional (n : N)
| KeyedPredicate (entries : list (PredicateKey * string)).

(** Modelled from the spec: [RouteStep] and [Route]. *)
Record RouteStep : Type := {
  name : QualifiedName;
  selector : Selector
}.

Definition Route := list RouteStep.

(** Modelled from the spec: [PathSyntaxError], the offending offset and
    what was expected there. The specification does not give the wording
    of expectations; the model names the token expected. *)
Record PathSyntaxError : Type := {
  offset : nat;
  expectation : string
}.

(** What a parse gives: a route or the error. *)
Inductive outcome : Type :=
| Parsed (r : Route)
| Failed (e : PathSyntaxError).

(** *** Token rules

    A token rule takes what is left of the text and gives the text it
    matches with what is left after it, or nothing. *)

Fixpoint run (p : ascii -> bool) (l : text) : text :=
  match l with
  | c :: l' => if p c then c :: run p l' else []
  | [] => []
  end.

Fixpoint after (p : ascii -> bool) (l : text) : text :=
  match l with
  | c :: l' => if p c then after p l' else l
  | [] => []
  end.

(** Modelled from the spec: [identifier], a letter or an underscore, then
    any run of letters, digits, underscores, dots and hyphens. *)
Definition identifier (l : text) : option (text * text) :=
  match l with
  | c :: l' =>
      if ident_start c then Some (c :: run ident_char l', after ident_char l')
      else None
  | [] => None
  end.

(** Modelled from the spec: [qualified-name], an identifier and a colon
    as prefix, which may be missing, then the identifier that is the local
    name. *)
Definition qualified_name (l : text) : option (option text * text * text) :=
  match identifier l with
  | Some (a, r) =>
      match r with
      | c :: r' =>
          if is_chr ":" c then
            match identifier r' with
            | Some (b, r'') => Some (Some a, b, r'')
            | None => Some (None, a, r)
            end
          else Some (None, a, r)
      | [] => Some (None, a, r)
      end
  | None => None
  end.

(** Modelled from the spec: [ws], any run of space, newline, tab and
    carriage return. *)
Definition ws (l : text) : text := after ws_char l.

(** Modelled from the spec: [quoted-literal], between double quotes a
    text without a double quote, or between single quotes a text without
    a single quote. *)
Definition quoted_literal (l : text) : option (text * text) :=
  match l with
  | q :: l' =>
      if is_chr dquote q || is_chr squote q then
        match after (fun c => negb (is_chr q c)) l' with
        | _ :: r => Some (run (fun c => negb (is_chr q c)) l', r)
        | [] => None
        end
      else None
  | [] => None
  end.

(** The number a run of decimal digits writes. *)
Definition digit_value (c : ascii) : N := (code c - code "0")%N.
Definition number (ds : text) : N :=
  fold_left (fun n c => (10 * n + digit_value c)%N) ds 0%N.

(** What a predicate says, before the name of a key is given its
    module. *)
Inductive predicate_item : Type :=
| Index (n : N)
| Key (prefix : option text) (local : text) (literal : text)
| Self (literal : text).

Definition closing (item : predicate_item) (l : text)
  : option (predicate_item * text) :=
  match ws l with
  | c :: r => if is_chr "]" c then Some (item, r) else None
  | [] => None
  end.

Definition equals_literal (l : text) : option (text * text) :=
  match ws l with
  | c :: r => if is_chr "=" c then quoted_literal (ws r) else None
  | [] => None
  end.

(** Modelled from the spec: [predicate], between brackets either a
    qualified name or a dot, an equals sign and a quoted literal, or the
    digits of a position, one at least; white space may stand after the
    opening bracket, around the equals sign and before the closing
    bracket. *)
Definition predicate (l : text) : option (predicate_item * text) :=
  match l with
  | b :: l0 =>
      if is_chr "[" b then
        let l1 := ws l0 in
        match l1 with
        | c :: l2 =>
            if is_chr "." c then
              match equals_literal l2 with
              | Some (v, r) => closing (Self v) r
              | None => None
              end
            else if digit c then
              closing (Index (number (run digit l1))) (after digit l1)
            else
              match qualified_name l1 with
              | Some (p, n, r) =>
                  match equals_literal r with
                  | Some (v, r') => closing (Key p n v) r'
                  | None => None
                  end
              | None => None
              end
        | [] => None
        end
      else None
  | [] => None
  end.

(** *** The grammar of instance identifiers *)

Definition fail (o : nat) (what : string) : outcome :=
  Failed {| offset := o; expectation := what |}.

(** Modelled from the spec: the module of a name is its prefix, or without
    one the prefix that was written last; the first name has none to take
    over. *)
Definition module_for (prefix : option text) (current : option string)
  : option string :=
  match prefix with
  | Some p => Some (string_of_list_ascii p)
  | None => current
  end.

(** Modelled from the spec: the selector of a step after one more
    predicate. Keyed predicates add up to one selector and a position
    stands alone; the specification has no selector for a position next to
    another predicate, which the model does not take. A key without a
    prefix is of the module of its step. *)
Definition add_predicate (m : string) (item : predicate_item) (s : Selector)
  : option Selector :=
  let entry k v := (k, string_of_list_ascii v) in
  let key p n :=
    KeyName {| local_name := string_of_list_ascii n;
               module_of := default m (string_of_list_ascii <$> p) |} in
  match s, item with
  | NoSelector, Index n => Some (Positional n)
  | NoSelector, Key p n v => Some (KeyedPredicate [entry (key p n) v])
  | NoSelector, Self v => Some (KeyedPredicate [entry SelfValue v])
  | KeyedPredicate es, Key p n v =>
      Some (KeyedPredicate (es ++ [entry (key p n) v]))
  | KeyedPredicate es, Self v =>
      Some (KeyedPredicate (es ++ [entry SelfValue v]))
  | _, _ => None
  end.

(** Modelled from the spec: the predicates of a step, none or more, from
    the text [l] at the offset [o]: the selector they make, what is left
    of the text and its offset. *)
Fixpoint predicates (fuel : nat) (m : string) (s : Selector) (l : text)
  (o : nat) : PathSyntaxError + (Selector * text * nat) :=
  match l with
  | c :: _ =>
      if is_chr "[" c then
        match fuel with
        | 0 => inl {| offset := o; expectation := "end of predicate" |}
        | S fuel' =>
            match predicate l with
            | Some (item, r) =>
                match add_predicate m item s with
                | Some s' =>
                    predicates fuel' m s' r (o + (length l - length r))
                | None =>
                    inl {| offset := o;
                           expectation := "predicate of the same kind" |}
                end
            | None => inl {| offset := o; expectation := "predicate" |}
            end
        end
      else inr (s, l, o)
  | [] => inr (s, l, o)
  end.

(** Modelled from the spec: the steps of an instance identifier, each a
    slash, a qualified name and its predicates, until the text ends. The
    model takes a text without a step for no instance identifier. *)
Fixpoint steps (fuel : nat) (current : option string) (acc : Route)
  (l : text) (o : nat) : outcome :=
  match fuel with
  | 0 => fail o "end of text"
  | S fuel' =>
      match l with
      | c :: l1 =>
          if is_chr "/" c then
            match qualified_name l1 with
            | Some (p, n, l2) =>
                match module_for p current with
                | Some m =>
                    match predicates fuel' m NoSelector l2
                            (o + (length l - length l2)) with
                    | inr (s, l3, o3) =>
                        let step :=
                          {| name := {| local_name := string_of_list_ascii n;
                                        module_of := m |};
                             selector := s |} in
                        match l3 with
                        | [] => Parsed (acc ++ [step])
                        | _ => steps fuel' (Some m) (acc ++ [step]) l3 o3
                        end
                    | inl e => Failed e
                    end
                | None => fail (S o) "module prefix"
                end
            | None => fail (S o) "qualified name"
            end
          else fail o "slash"
      | [] => fail o "slash"
      end
  end.

(** Modelled from the spec: the parser of instance identifiers, which
    reads the text and nothing else. *)
Definition parse (text : string) : outcome :=
  let l := list_ascii_of_string text in
  steps (S (length l)) None [] l 0.



End InstanceIdentifier.

(** ** The interface of the classes outside the embedded sources *)

Module Yangson.
Import Constants Py.

Definition YangIdentifier := string.
Definition RevisionDate := string.
(** [ModuleId]: a module name with its revision. *)
Definition ModuleId := (YangIdentifier * RevisionDate)%type.
(** [QualName]: a name with the namespace it lives in. *)
Definition QualName := (YangIdentifier * YangIdentifier)%type.
Definition SchemaRoute := list QualName.

(** Modelled from the spec: the enumeration [ContentType] of
    [enumerations.py], of which the sources name the members [config] and
    [all]; the spec gives a datastore the content type config or all. *)
Inductive ContentType : Type := config | all.

#[global] Instance ContentType_eq_dec : EqDecision ContentType.
Proof. solve_decision. Defined.

Section Model.
Context {ref heap : Type}.

(** [SchemaContext(schema_data, default_ns, text_mid)], a plain holder of
    its three arguments. *)
Record SchemaContext : Type := {
  sc_schema_data : ref;
  sc_default_ns : YangIdentifier;
  sc_text_mid : ModuleId
}.

(** A call of a method, or of a constructor, of a class outside the
    embedded sources, with its receiver and arguments. The interpreter state
    records the calls in the order they are made. *)
Inductive event : Type :=
| EvSchemaTreeNode
| EvSchemaData (yang_lib : pyjson) (mod_path : list string)
| EvNamespace (schema_data : ref) (mid : ModuleId)
| EvHandleSubstatements (schema stmt : ref) (sctx : SchemaContext)
| EvFindAll (stmt : ref) (keyword : string)
| EvAugmentStmt (schema aug : ref) (sctx : SchemaContext)
| EvPostProcess (schema : ref)
| EvMakeSchemaPatterns (schema : ref)
| EvPath2Route (schema_data : ref) (path : string)
| EvGetSchemaDescendant (node : ref) (route : SchemaRoute)
| EvGetDataChild (node : ref) (name ns : YangIdentifier)
| EvFromRaw (schema : ref) (robj : pyjson)
| EvRootNode (cooked schema : ref)
| EvAsciiTree (schema : ref) (indent : string) (no_types : bool)
| EvInstanceIdParser (text : string)
| EvResourceIdParser (text : string) (schema : ref)
| EvNodeDigest (schema : ref)
| EvParseArgs.

Record world : Type := {
  w_heap : heap;
  w_trace : list event;
  w_stdout : list string;
  w_stderr : list string
}.

(** A method of an absent class: it reads and may change the objects. *)
Definition cmd (A : Type) : Type := heap -> result A * heap.

(** The state-and-exception monad of the embedded code. *)
Definition M (A : Type) : Type := world -> result A * world.

Definition ret {A} (a : A) : M A := fun w => (Return a, w).
Definition raise {A} (e : exn) : M A := fun w => (Raise e, w).
Definition bind {A B} (c : M A) (k : A -> M B) : M B :=
  fun w => match c w with
           | (Return a, w') => k a w'
           | (Raise e, w') => (Raise e, w')
           end.

(** [try: c except ...: h]: [h] gives the handler of the exceptions it
    catches. *)
Definition try_except {A} (c : M A) (h : exn -> option (M A)) : M A :=
  fun w => match c w with
           | (Return a, w') => (Return a, w')
           | (Raise e, w') =>
               match h e with
               | Some k => k w'
               | None => (Raise e, w')
               end
           end.

Definition with_heap (w : world) (h : heap) : world :=
  {| w_heap := h; w_trace := w_trace w;
     w_stdout := w_stdout w; w_stderr := w_stderr w |}.

Definition log (ev : event) (w : world) : world :=
  {| w_heap := w_heap w; w_trace := w_trace w ++ [ev];
     w_stdout := w_stdout w; w_stderr := w_stderr w |}.

(** A recorded call of a method of an absent class. *)
Definition call {A} (ev : event) (c : cmd A) : M A :=
  fun w => let '(r, h) := c (w_heap (log ev w)) in (r, with_heap (log ev w) h).

(** An attribute read or a subscript: it changes nothing and may raise. *)
Definition ask {A} (q : heap -> result A) : M A :=
  fun w => (q (w_heap w), w).

Definition lift {A} (r : result A) : M A := fun w => (r, w).

(** [print(line, file=sys.stderr)] *)
Definition print_err (line : string) : M unit :=
  fun w => (Return tt,
            {| w_heap := w_heap w; w_trace := w_trace w;
               w_stdout := w_stdout w; w_stderr := w_stderr w ++ [line] |}).

End Model.

Arguments SchemaContext : clear implicits.
Arguments event : clear implicits.
Arguments world : clear implicits.
Arguments cmd : clear implicits.
Arguments M : clear implicits.

Declare Scope py_scope.
Delimit Scope py_scope with py.
Notation "x <- c ;; k" := (bind c (fun x => k))
  (at level 100, c at next level, right associativity) : py_scope.
Notation "c ;;; k" := (bind c (fun _ => k))
  (at level 100, right associativity) : py_scope.

(** The classes and functions the embedded modules import and the embedding
    does not have: [SchemaTreeNode], [SchemaData], the statements, the
    parsers and [RootNode] of Yangson, and what the script takes from the
    standard library and the operating system. *)
Class Absent (ref heap route : Type) : Type := {
  (** [SchemaTreeNode()] *)
  SchemaTreeNode_new : cmd heap ref;
  (** [SchemaData(yang_lib, mod_path)] *)
  SchemaData_new : pyjson -> list string -> cmd heap ref;
  (** [schema_data.module_sequence] *)
  module_sequence : ref -> heap -> list ModuleId;
  (** [schema_data.modules[mid].statement] *)
  module_statement : ref -> ModuleId -> heap -> result ref;
  (** [schema_data.namespace(mid)] *)
  namespace : ref -> ModuleId -> cmd heap YangIdentifier;
  (** [schema_data.path2route(path)] *)
  path2route : ref -> string -> cmd heap SchemaRoute;
  (** [schema.handle_substatements(stmt, sctx)] *)
  handle_substatements : ref -> ref -> SchemaContext ref -> cmd heap unit;
  (** [stmt.find_all(keyword)] *)
  find_all : ref -> string -> cmd heap (list ref);
  (** [schema.augment_stmt(aug, sctx)] *)
  augment_stmt : ref -> ref -> SchemaContext ref -> cmd heap unit;
  (** [schema.post_process()] *)
  post_process : ref -> cmd heap unit;
  (** [schema.make_schema_patterns()] *)
  make_schema_patterns : ref -> cmd heap unit;
  (** [node.get_schema_descendant(route)] *)
  get_schema_descendant : ref -> SchemaRoute -> cmd heap (option ref);
  (** [node.get_data_child(name, ns)] *)
  get_data_child :
    ref -> YangIdentifier -> YangIdentifier -> cmd heap (option ref);
  (** [schema.from_raw(robj)] *)
  from_raw : ref -> pyjson -> cmd heap ref;
  (** [cooked.timestamp] *)
  timestamp : ref -> heap -> result ref;
  (** [RootNode(cooked, schema, timestamp)] *)
  RootNode_new : ref -> ref -> ref -> cmd heap ref;
  (** [schema.ascii_tree(indent, no_types)] *)
  ascii_tree : ref -> string -> bool -> cmd heap string;
  (** [schema.node_digest()] *)
  node_digest : ref -> cmd heap pydict;
  (** [ResourceIdParser(text, schema).parse()] *)
  ResourceIdParser_parse : string -> ref -> cmd heap route;
  (** [json.loads] and [json.dumps] *)
  json_loads : string -> result pyjson;
  json_dumps : pyjson -> string;
  (** [open(name, encoding=...).read()] *)
  read_file : string -> heap -> result string;
  (** [os.environ.get(name)] *)
  environ_get : string -> heap -> option string;
  (** [parser.parse_args()] of the script: the arguments [ylib] and [path] *)
  parse_args : cmd heap (string * option string)
}.

End Yangson.

(** ** [datamodel.py] *)

Module Datamodel.
Import Constants Py Yangson.
Local Open Scope py_scope.

Section Code.
Context {ref heap route : Type} {env : Absent ref heap route}.

Abbreviation M := (Yangson.M ref heap).
Abbreviation event := (Yangson.event ref).

(** Statements run for each element of a list, in its order; an exception
    ends the loop. *)
Fixpoint for_each {A : Type} (l : list A) (body : A -> M unit) : M unit :=
  match l with
  | [] => ret tt
  | x :: l' => body x ;;; for_each l' body
  end.

(** *** class [Datastore] *)

Record Datastore : Type := {
  content_type : ContentType;
  schema_data : ref;
  schema : ref
}.

(** [Datastore.__init__(schema, schema_data, content_type=ContentType.config)] *)
Definition Datastore_init (schema : ref) (schema_data : ref)
  (content_type : option ContentType) : Datastore :=
  {| content_type := default config content_type;
     schema_data := schema_data;
     schema := schema |}.

(** [Datastore.from_raw] *)
Definition Datastore_from_raw (self : Datastore) (robj : pyjson) : M ref :=
  cooked <- call (EvFromRaw (schema self) robj) (from_raw (schema self) robj) ;;
  ts <- ask (timestamp cooked) ;;
  call (EvRootNode cooked (schema self))
       (RootNode_new cooked (schema self) ts).

(** [Datastore.get_schema_node] *)
Definition get_schema_node (self : Datastore) (path : string)
  : M (option ref) :=
  route <- call (EvPath2Route (schema_data self) path)
                (path2route (schema_data self) path) ;;
  call (EvGetSchemaDescendant (schema self) route)
       (get_schema_descendant (schema self) route).

(** The loop of [get_data_node]: a step for each pair of the route, left
    at once with [None] when a step finds no child. *)
Fixpoint data_steps (addr : SchemaRoute) (node : ref) : M (option ref) :=
  match addr with
  | [] => ret (Some node)
  | p :: addr' =>
      r <- call (EvGetDataChild node (fst p) (snd p))
                (get_data_child node (fst p) (snd p)) ;;
      match r with
      | None => ret None
      | Some node' => data_steps addr' node'
      end
  end.

(** [Datastore.get_data_node] *)
Definition get_data_node (self : Datastore) (path : string)
  : M (option ref) :=
  addr <- call (EvPath2Route (schema_data self) path)
               (path2route (schema_data self) path) ;;
  data_steps addr (schema self).

(** [Datastore.ascii_tree] *)
Definition Datastore_ascii_tree (self : Datastore) (no_types : bool)
  : M string :=
  call (EvAsciiTree (schema self) "" no_types)
       (ascii_tree (schema self) "" no_types).



(** [Datastore.parse_resource_id] *)
Definition parse_resource_id (self : Datastore) (text : string) : M route :=
  call (EvResourceIdParser text (schema self))
       (ResourceIdParser_parse text (schema self)).

(** [Datastore.schema_digest] *)
Definition schema_digest (self : Datastore) : M string :=
  res <- call (EvNodeDigest (schema self)) (node_digest (schema self)) ;;
  let res := dict_set "config" (JBool true) res in
  ret (json_dumps (JDict res)).

(** *** class [DataModel] *)

Record DataModel : Type := {
  datastores : gmap string Datastore;
  description : option string;
  yang_library : pyjson
}.

(** [DataModel._build_schema], a static method *)
Definition _build_schema (schema : ref) (schema_data : ref) : M unit :=
  seq1 <- ask (fun h => Return (module_sequence schema_data h)) ;;
  for_each seq1 (fun mid =>
    ns <- call (EvNamespace schema_data mid) (namespace schema_data mid) ;;
    let sctx := {| sc_schema_data := schema_data;
                   sc_default_ns := ns;
                   sc_text_mid := mid |} in
    stmt <- ask (module_statement schema_data mid) ;;
    call (EvHandleSubstatements schema stmt sctx)
         (handle_substatements schema stmt sctx)) ;;;
  seq2 <- ask (fun h => Return (module_sequence schema_data h)) ;;
  for_each seq2 (fun mid =>
    ns <- call (EvNamespace schema_data mid) (namespace schema_data mid) ;;
    let sctx := {| sc_schema_data := schema_data;
                   sc_default_ns := ns;
                   sc_text_mid := mid |} in
    mod_ <- ask (module_statement schema_data mid) ;;
    augs <- call (EvFindAll mod_ "augment") (find_all mod_ "augment") ;;
    for_each augs (fun aug =>
      call (EvAugmentStmt schema aug sctx)
           (augment_stmt schema aug sctx))) ;;;
  call (EvPostProcess schema) (post_process schema) ;;;
  call (EvMakeSchemaPatterns schema) (make_schema_patterns schema).

(** The member whose presence marks YANG library data of RFC 7895. *)
Definition marker : string := "ietf-yang-library:modules-state".

(** [DataModel.__init__(yltxt, mod_path, description)] *)
Definition DataModel_init (yltxt : string) (mod_path : list string)
  (description : option string) : M DataModel :=
  let datastores : gmap string Datastore := ∅ in
  yang_library <-
    try_except (lift (json_loads yltxt))
      (fun e => if bool_decide (class_of e = JSONDecodeErrorClass)
                then Some (raise (Exc BadYangLibraryData (str e)))
                else None) ;;
  known <- lift (py_in marker yang_library) ;;
  if known : bool then
    root <- call EvSchemaTreeNode SchemaTreeNode_new ;;
    sdata <- call (EvSchemaData yang_library mod_path)
                  (SchemaData_new yang_library mod_path) ;;
    _build_schema root sdata ;;;
    let datastores :=
      <["config" := Datastore_init root sdata None]> datastores in
    let datastores :=
      <["operational" := Datastore_init root sdata (Some all)]> datastores in
    ret {| datastores := datastores;
           description := description;
           yang_library := yang_library |}
  else
    raise (Exc BadYangLibraryData "top-level member not recognized").

(** [DataModel.from_file(name, mod_path, description)] *)
Definition from_file (name : string) (mod_path : list string)
  (description : option string) : M DataModel :=
  yltxt <- ask (read_file name) ;;
  DataModel_init yltxt mod_path description.

(** [DataModel.content_id] *)
Definition content_id (self : DataModel) : string := "TODO".

End Code.

Arguments Datastore : clear implicits.
Arguments DataModel : clear implicits.

End Datamodel.

(** ** The entry point of [json_schema.py] *)

Module JsonSchema.
Import Constants Py Yangson Datamodel.
Local Open Scope py_scope.

(** [s.split(sep)] for a separator of one character. *)
Fixpoint split_chars (sep : ascii) (l : list ascii) (cur : list ascii)
  : list string :=
  match l with
  | [] => [string_of_list_ascii (rev cur)]
  | c :: l' =>
      if Ascii.eqb c sep then
        string_of_list_ascii (rev cur) :: split_chars sep l' []
      else split_chars sep l' (c :: cur)
  end.
Definition split (sep : ascii) (s : string) : list string :=
  split_chars sep (list_ascii_of_string s) [].

Section Code.
Context {ref heap route : Type} {env : Absent ref heap route}.

Abbreviation M := (Yangson.M ref heap).

(** What an attribute of a [DataModel] holds. *)
Inductive pyval : Type :=
| VDatastores (d : gmap string (Datastore ref))
| VDescription (d : option string)
| VLibrary (v : pyjson)
| VClassAttr (name : string).

(** Names defined in the body of class [DataModel] and names every object
    has. *)
Definition DataModel_class_attrs : list string :=
  ["from_file"; "content_id"; "_build_schema"; "__init__"; "__doc__";
   "__module__"; "__dict__"; "__weakref__"; "__annotations__"].
Definition object_attrs : list string :=
  ["__class__"; "__delattr__"; "__dir__"; "__eq__"; "__format__"; "__ge__";
   "__getattribute__"; "__getstate__"; "__gt__"; "__hash__";
   "__init_subclass__"; "__le__"; "__lt__"; "__ne__"; "__new__";
   "__reduce__"; "__reduce_ex__"; "__repr__"; "__setattr__"; "__sizeof__";
   "__str__"; "__subclasshook__"].

(** [dm.name] for an instance built by [DataModel.__init__]: the three
    attributes the constructor sets, then the names of the class and of
    [object]; any other name raises [AttributeError]. *)
Definition DataModel_getattr (dm : DataModel ref) (name : string)
  : result pyval :=
  if String.eqb name "datastores" then Return (VDatastores (datastores dm))
  else if String.eqb name "description" then
    Return (VDescription (description dm))
  else if String.eqb name "yang_library" then
    Return (VLibrary (yang_library dm))
  else if existsb (String.eqb name) (DataModel_class_attrs ++ object_attrs)
  then Return (VClassAttr name)
  else Raise (Exc AttributeError
                ("'DataModel' object has no attribute '" +:+ name +:+ "'")).

(** [walk(node)], which prints the JSON Schema of a schema node. Its body
    goes through the node classes; the theorems below hold whatever it
    does. *)
Variable walk : pyval -> M unit.

(** The [except] clause after reading the library file. *)
Definition file_errors : list pyclass :=
  [FileNotFoundError; PermissionError; JSONDecodeErrorClass].

(** The [except] clauses after building the data model, in their order,
    with the text each one prints before the message. *)
Definition model_errors : list (pyclass * string) :=
  [(BadYangLibraryData, "Invalid YANG library:");
   (FeaturePrerequisiteError, "Unsupported pre-requisite feature:");
   (MultipleImplementedRevisions, "Multiple implemented revisions:");
   (ModuleNotFound, "Module not found:");
   (ModuleNotRegistered, "Module not registered:")].

Fixpoint clause_of (cls : pyclass) (l : list (pyclass * string))
  : option string :=
  match l with
  | [] => None
  | (c, label) :: l' =>
      if bool_decide (c = cls) then Some label else clause_of cls l'
  end.

(** [path if path else os.environ.get(name, default)] for the variable
    [YANG_MODPATH] and the default of one dot: an absent or empty [path]
    gives way to the environment. *)
Definition search_path (path : option string) (h : heap) : string :=
  match path with
  | Some (String c p) => String c p
  | _ => default "." (environ_get "YANG_MODPATH" h)
  end.

(** The classes named by the [except] clauses after building the model. *)
Definition build_error_kinds : list pyclass := map fst model_errors.

(** [main(ylib, path)]: the value returned is the exit code. *)
Definition main (ylib path : option string) : M Z :=
  args <- match ylib with
          | None => call EvParseArgs parse_args
          | Some y => ret (y, path)
          end ;;
  let ylib := fst args in
  let path := snd args in
  r <- try_except
         (yl <- ask (read_file ylib) ;; ret (inr yl))
         (fun e =>
            if bool_decide (class_of e ∈ file_errors) then
              Some (print_err ("YANG library: " +:+ str e) ;;; ret (inl 1%Z))
            else None) ;;
  match r with
  | inl code => ret code
  | inr yl =>
      sp <- ask (fun h => Return (search_path path h)) ;;
      r <- try_except
             (dm <- DataModel_init yl (split ":" sp) None ;; ret (inr dm))
             (fun e =>
                match clause_of (class_of e) model_errors with
                | Some label =>
                    Some (print_err (label +:+ " " +:+ str e) ;;;
                          ret (inl 2%Z))
                | None => None
                end) ;;
      match r with
      | inl code => ret code
      | inr dm =>
          node <- lift (DataModel_getattr dm "schema") ;;
          walk node ;;;
          ret 0%Z
      end
  end.

End Code.

End JsonSchema.

(** ** A small environment to run the code in

    Stand-ins for the absent classes, enough to run the embedded code on
    concrete inputs: no YANG module can be found (a library that lists a
    module is answered with [ModuleNotFound]), so that the only schema that
    can be built is the tree without nodes of a library that lists none. *)

Module Demo.
Import Constants Py Yangson Datamodel JsonSchema.

Record heap : Type := {
  next_ref : nat;
  files : list (string * string);
  environ : list (string * string);
  (** parent, name of the child, child *)
  children : list (nat * string * nat)
}.

(** A reference no object has yet. *)
Definition fresh : cmd heap nat :=
  fun h => (Return (next_ref h),
            {| next_ref := S (next_ref h); files := files h;
               environ := environ h; children := children h |}).

Definition pure {A : Type} (r : result A) : cmd heap A := fun h => (r, h).

Fixpoint lookup (k : string) (l : list (string * string)) : option string :=
  match l with
  | [] => None
  | (k', v) :: l' => if String.eqb k' k then Some v else lookup k l'
  end.

Fixpoint child_of (node : nat) (name : string)
  (l : list (nat * string * nat)) : option nat :=
  match l with
  | [] => None
  | (p, n, c) :: l' =>
      if Nat.eqb p node && String.eqb n name then Some c
      else child_of node name l'
  end.

(** The entries of the list [module] of YANG library data. *)
Definition listed_modules (yang_lib : pyjson) : result (list pyjson) :=
  match yang_lib with
  | JDict d =>
      match dict_get marker d with
      | Some (JDict st) =>
          match dict_get "module" st with
          | Some (JList l) => Return l
          | _ => Raise (Exc BadYangLibraryData "module list missing")
          end
      | _ => Raise (Exc BadYangLibraryData "modules-state is not an object")
      end
  | _ => Raise (Exc TypeError "YANG library data is not an object")
  end.

Definition module_name (m : pyjson) : string :=
  match m with
  | JDict d => match dict_get "name" d with Some (JStr s) => s | _ => "" end
  | _ => ""
  end.

Definition new_schema_data (yang_lib : pyjson) (mod_path : list string)
  : cmd heap nat :=
  match listed_modules yang_lib with
  | Raise e => pure (Raise e)
  | Return [] => fresh
  | Return (m :: _) => pure (Raise (Exc ModuleNotFound (module_name m)))
  end.

Definition absent : Absent nat heap string := {|
  SchemaTreeNode_new := fresh;
  SchemaData_new := new_schema_data;
  module_sequence := fun _ _ => [];
  module_statement := fun _ mid _ => Raise (Exc KeyError (fst mid));
  namespace := fun _ mid => pure (Raise (Exc ModuleNotRegistered (fst mid)));
  path2route := fun _ path =>
    pure (match split "/" path with
          | "" :: [] => Raise (Exc InvalidSchemaPath path)
          | "" :: names => Return (map (fun n => (n, "")) names)
          | _ => Raise (Exc InvalidSchemaPath path)
          end);
  handle_substatements := fun _ _ _ => pure (Return tt);
  find_all := fun _ _ => pure (Return []);
  augment_stmt := fun _ _ _ => pure (Return tt);
  post_process := fun _ => pure (Return tt);
  make_schema_patterns := fun _ => pure (Return tt);
  get_schema_descendant := fun node route =>
    pure (Return (match route with [] => Some node | _ => None end));
  get_data_child := fun node name _ h =>
    (Return (child_of node name (children h)), h);
  from_raw := fun _ _ => fresh;
  timestamp := fun r _ => Return r;
  RootNode_new := fun _ _ _ => fresh;
  ascii_tree := fun _ _ _ => pure (Return "");
  node_digest := fun _ =>
    pure (Return [("kind", JStr "schematree"); ("children", JDict [])]);
  ResourceIdParser_parse := fun text _ => pure (Return text);
  json_loads := Json.loads;
  json_dumps := Json.dumps;
  read_file := fun name h =>
    match lookup name (files h) with
    | Some s => Return s
    | None =>
        Raise (Exc FileNotFoundError
                 ("[Errno 2] No such file or directory: '" +:+ name +:+ "'"))
    end;
  environ_get := fun name h => lookup name (environ h);
  parse_args := pure (Return ("yang-library.json", None))
|}.

(** A text written with single quotes for the double quotes of JSON. *)
Fixpoint json_text (s : string) : string :=
  match s with
  | EmptyString => EmptyString
  | String c s' =>
      String (if Ascii.eqb c squote then dquote else c) (json_text s')
  end.

(** YANG library data that lists no module. *)
Definition empty_library : string :=
  json_text "{'ietf-yang-library:modules-state': {'module-set-id': '', 'module': []}}".

(** YANG library data that lists a module. *)
Definition one_module_library : string :=
  json_text "{'ietf-yang-library:modules-state': {'module-set-id': '', 'module': [{'name': 'example', 'revision': '', 'conformance-type': 'implement'}]}}".

(** The interpreter state at the start: no object, nothing printed, and
    the given files. *)
Definition start (fs : list (string * string)) : world nat heap :=
  {| w_heap := {| next_ref := 0; files := fs; environ := [];
                  children := [] |};
     w_trace := []; w_stdout := []; w_stderr := [] |}.

(** A state in which the node 0 has the child 2 under the name
    [interfaces], and no other node has a child. *)
Definition one_child : world nat heap :=
  {| w_heap := {| next_ref := 3; files := []; environ := [];
                  children := [(0, "interfaces", 2)] |};
     w_trace := []; w_stdout := []; w_stderr := [] |}.

(** A [walk] that prints nothing. *)
Definition silent_walk : pyval (ref := nat) -> M nat heap unit :=
  fun _ => ret tt.

(** The value the decoder gives for [empty_library]. *)
Definition empty_library_value : pyjson :=
  JDict [(marker, JDict [("module-set-id", JStr ""); ("module", JList [])])].

(** The data model built from [empty_library] in the state [start]: the
    tree is the object 0 and the schema data the object 1. *)
Definition built_model : DataModel nat :=
  {| datastores :=
       <["operational" := Datastore_init 0 1 (Some all)]>
         (<["config" := Datastore_init 0 1 None]> ∅);
     description := None;
     yang_library := empty_library_value |}.

End Demo.

(** ** A small environment with modules

    Stand-ins for a schema with two modules, [a] and [b]: the statement of
    [a] is the object 10 and has the augment statement 11, the statement of
    [b] is the object 20 and has the augment statements 21 and 22.
    Instantiating a module and applying an augment statement each put one
    child below the tree. An augment statement that the list [bad] names
    cannot be applied. The rest is as in [Demo]. *)

Module BuildDemo.
Import Constants Py Yangson Datamodel JsonSchema.

Definition module_a : ModuleId := ("a", "2019-01-01").
Definition module_b : ModuleId := ("b", "2019-02-02").

Definition statement_of (mid : ModuleId) : result nat :=
  if String.eqb (fst mid) "a" then Return 10
  else if String.eqb (fst mid) "b" then Return 20
  else Raise (Exc KeyError (fst mid)).

Definition augments_of (stmt : nat) : list nat :=
  if Nat.eqb stmt 10 then [11] else if Nat.eqb stmt 20 then [21; 22] else [].

Definition add_child (parent : nat) (name : string) (child : nat)
  : cmd Demo.heap unit :=
  fun h => (Return tt,
            {| Demo.next_ref := Demo.next_ref h; Demo.files := Demo.files h;
               Demo.environ := Demo.environ h;
               Demo.children := Demo.children h ++ [(parent, name, child)] |}).

Definition absent (bad : list nat) : Absent nat Demo.heap string := {|
  SchemaTreeNode_new := SchemaTreeNode_new (Absent := Demo.absent);
  SchemaData_new := SchemaData_new (Absent := Demo.absent);
  module_sequence := fun _ _ => [module_a; module_b];
  module_statement := fun _ mid _ => statement_of mid;
  namespace := fun _ mid => Demo.pure (Return (fst mid));
  path2route := path2route (Absent := Demo.absent);
  handle_substatements := fun schema stmt sctx =>
    add_child schema (sc_default_ns sctx) stmt;
  find_all := fun stmt kw =>
    Demo.pure (Return (if String.eqb kw "augment" then augments_of stmt
                       else []));
  augment_stmt := fun schema aug sctx =>
    if existsb (Nat.eqb aug) bad
    then Demo.pure (Raise (Exc SchemaError "augment"))
    else add_child schema "augmented" aug;
  post_process := post_process (Absent := Demo.absent);
  make_schema_patterns := make_schema_patterns (Absent := Demo.absent);
  get_schema_descendant := get_schema_descendant (Absent := Demo.absent);
  get_data_child := get_data_child (Absent := Demo.absent);
  from_raw := from_raw (Absent := Demo.absent);
  timestamp := timestamp (Absent := Demo.absent);
  RootNode_new := RootNode_new (Absent := Demo.absent);
  ascii_tree := ascii_tree (Absent := Demo.absent);
  node_digest := node_digest (Absent := Demo.absent);
  ResourceIdParser_parse := ResourceIdParser_parse (Absent := Demo.absent);
  json_loads := json_loads (Absent := Demo.absent);
  json_dumps := json_dumps (Absent := Demo.absent);
  read_file := read_file (Absent := Demo.absent);
  environ_get := environ_get (Absent := Demo.absent);
  parse_args := parse_args (Absent := Demo.absent)
|}.

(** The contexts the builder makes for the two modules, for a schema data
    object [sd]. *)
Definition context_a (sd : nat) : SchemaContext nat :=
  {| sc_schema_data := sd; sc_default_ns := "a"; sc_text_mid := module_a |}.
Definition context_b (sd : nat) : SchemaContext nat :=
  {| sc_schema_data := sd; sc_default_ns := "b"; sc_text_mid := module_b |}.

End BuildDemo.

(** ** What a run leaves behind *)

Module Observe.
Import Constants Py Yangson Datamodel.

(** What can stand where the positional alternative of [pred_re] starts
    or ends: a digit, a space or the closing bracket. *)
Definition after_bracket (c : ascii) : bool :=
  digit c || space c || is_chr "]" c.

(** A text made of hexadecimal digits only. *)
Definition hex_digits (s : string) : bool :=
  forallb (fun c => bool_decide (is_Some (Json.hexval c)))
    (list_ascii_of_string s).

Section Defs.
Context {ref heap route : Type} {env : Absent ref heap route}.

(** The state [w] with the heap [h] and the calls [evs] made after those
    of [w]. *)
Definition extend (w : world ref heap) (h : heap) (evs : list (event ref))
  : world ref heap :=
  {| w_heap := h; w_trace := w_trace w ++ evs;
     w_stdout := w_stdout w; w_stderr := w_stderr w |}.

(** The state with one more line on the error stream. *)
Definition with_error_line (w : world ref heap) (line : string)
  : world ref heap :=
  {| w_heap := w_heap w; w_trace := w_trace w;
     w_stdout := w_stdout w; w_stderr := w_stderr w ++ [line] |}.

(** Steps of a route that each find a child, from [node] in the heap [h]:
    the node reached, the heap left and the calls made. *)
Fixpoint follow (addr : SchemaRoute) (node : ref) (h : heap)
  : option (ref * heap * list (event ref)) :=
  match addr with
  | [] => Some (node, h, [])
  | p :: addr' =>
      match get_data_child node (fst p) (snd p) h with
      | (Return (Some n), h') =>
          match follow addr' n h' with
          | Some (m, h'', evs) =>
              Some (m, h'', EvGetDataChild node (fst p) (snd p) :: evs)
          | None => None
          end
      | _ => None
      end
  end.

(** The context the builder makes for a module. *)
Definition module_context (schema_data : ref) (ns : YangIdentifier)
  (mid : ModuleId) : SchemaContext ref :=
  {| sc_schema_data := schema_data; sc_default_ns := ns; sc_text_mid := mid |}.

(** The first loop of [_build_schema]. *)
Definition pass1 (schema schema_data : ref) : M ref heap unit :=
  (seq1 <- ask (fun h => Return (module_sequence schema_data h)) ;;
   for_each seq1 (fun mid =>
     ns <- call (EvNamespace schema_data mid) (namespace schema_data mid) ;;
     let sctx := module_context schema_data ns mid in
     stmt <- ask (module_statement schema_data mid) ;;
     call (EvHandleSubstatements schema stmt sctx)
          (handle_substatements schema stmt sctx)))%py.

(** The second loop of [_build_schema]. *)
Definition pass2 (schema schema_data : ref) : M ref heap unit :=
  (seq2 <- ask (fun h => Return (module_sequence schema_data h)) ;;
   for_each seq2 (fun mid =>
     ns <- call (EvNamespace schema_data mid) (namespace schema_data mid) ;;
     let sctx := module_context schema_data ns mid in
     mod_ <- ask (module_statement schema_data mid) ;;
     augs <- call (EvFindAll mod_ "augment") (find_all mod_ "augment") ;;
     for_each augs (fun aug =>
       call (EvAugmentStmt schema aug sctx)
            (augment_stmt schema aug sctx))))%py.

(** The body of the first loop of [_build_schema]. *)
Definition instantiate (schema schema_data : ref) (mid : ModuleId)
  : M ref heap unit :=
  (ns <- call (EvNamespace schema_data mid) (namespace schema_data mid) ;;
   let sctx := module_context schema_data ns mid in
   stmt <- ask (module_statement schema_data mid) ;;
   call (EvHandleSubstatements schema stmt sctx)
        (handle_substatements schema stmt sctx))%py.

(** The body of the loop over the augment statements of a module. *)
Definition apply_augment (schema : ref) (sctx : SchemaContext ref)
  (aug : ref) : M ref heap unit :=
  call (EvAugmentStmt schema aug sctx) (augment_stmt schema aug sctx).

(** The body of the second loop of [_build_schema]. *)
Definition augment (schema schema_data : ref) (mid : ModuleId)
  : M ref heap unit :=
  (ns <- call (EvNamespace schema_data mid) (namespace schema_data mid) ;;
   let sctx := module_context schema_data ns mid in
   mod_ <- ask (module_statement schema_data mid) ;;
   augs <- call (EvFindAll mod_ "augment") (find_all mod_ "augment") ;;
   for_each augs (apply_augment schema sctx))%py.

(** Calls of the first pass: a namespace lookup for a module and the
    instantiation of its statements into the tree. *)
Definition pass1_event (schema schema_data : ref) (ev : event ref) : Prop :=
  match ev with
  | EvNamespace sd _ => sd = schema_data
  | EvHandleSubstatements s _ sctx =>
      s = schema /\ sc_schema_data sctx = schema_data
  | _ => False
  end.

(** Calls of the second pass: a namespace lookup for a module, the search
    for its augment statements and the application of one of them. *)
Definition pass2_event (schema schema_data : ref) (ev : event ref) : Prop :=
  match ev with
  | EvNamespace sd _ => sd = schema_data
  | EvFindAll _ kw => kw = "augment"
  | EvAugmentStmt s _ sctx => s = schema /\ sc_schema_data sctx = schema_data
  | _ => False
  end.

(** The modules whose statements a sequence of calls instantiates. *)
Definition handled (t : list (event ref)) : list ModuleId :=
  omap (fun ev => match ev with
                  | EvHandleSubstatements _ _ sctx => Some (sc_text_mid sctx)
                  | _ => None
                  end) t.

(** The modules a sequence of calls looks the namespace up for. *)
Definition visited (t : list (event ref)) : list ModuleId :=
  omap (fun ev => match ev with
                  | EvNamespace _ mid => Some mid
                  | _ => None
                  end) t.

(** A first pass that comes to its end, told by what the methods it calls
    answer: for each module of [mids] in turn the namespace is looked up,
    the statement of the module is read and its substatements are
    instantiated into the tree, every call returning. [t] lists the calls,
    [h] is the heap before and the last heap the one after. *)
Inductive instantiated (schema schema_data : ref)
  : list ModuleId -> heap -> list (event ref) -> heap -> Prop :=
| instantiated_nil (h : heap) : instantiated schema schema_data [] h [] h
| instantiated_cons (mid : ModuleId) (mids : list ModuleId) (h h1 h2 h3 : heap)
    (ns : YangIdentifier) (stmt : ref) (t : list (event ref)) :
    namespace schema_data mid h = (Return ns, h1) ->
    module_statement schema_data mid h1 = Return stmt ->
    handle_substatements schema stmt (module_context schema_data ns mid) h1
    = (Return tt, h2) ->
    instantiated schema schema_data mids h2 t h3 ->
    instantiated schema schema_data (mid :: mids) h
      (EvNamespace schema_data mid
       :: EvHandleSubstatements schema stmt
            (module_context schema_data ns mid)
       :: t) h3.

(** The augment statements [augs] applied one after the other, each call
    returning. *)
Inductive applied (schema : ref) (sctx : SchemaContext ref)
  : list ref -> heap -> list (event ref) -> heap -> Prop :=
| applied_nil (h : heap) : applied schema sctx [] h [] h
| applied_cons (aug : ref) (augs : list ref) (h h1 h2 : heap)
    (t : list (event ref)) :
    augment_stmt schema aug sctx h = (Return tt, h1) ->
    applied schema sctx augs h1 t h2 ->
    applied schema sctx (aug :: augs) h
      (EvAugmentStmt schema aug sctx :: t) h2.

(** A second pass that comes to its end: for each module of [mids] in
    turn the namespace is looked up, the statement of the module is read
    and searched for its augment statements, and every one of those found
    is applied to the tree, in the order found. *)
Inductive augmented (schema schema_data : ref)
  : list ModuleId -> heap -> list (event ref) -> heap -> Prop :=
| augmented_nil (h : heap) : augmented schema schema_data [] h [] h
| augmented_cons (mid : ModuleId) (mids : list ModuleId)
    (h h1 h2 h3 h4 : heap) (ns : YangIdentifier) (mod_ : ref)
    (augs : list ref) (t t' : list (event ref)) :
    namespace schema_data mid h = (Return ns, h1) ->
    module_statement schema_data mid h1 = Return mod_ ->
    find_all mod_ "augment" h1 = (Return augs, h2) ->
    applied schema (module_context schema_data ns mid) augs h2 t h3 ->
    augmented schema schema_data mids h3 t' h4 ->
    augmented schema schema_data (mid :: mids) h
      (EvNamespace schema_data mid :: EvFindAll mod_ "augment" :: t ++ t')
      h4.

End Defs.
End Observe.

(** ** Scanners that say what the token patterns match

    They are not code of [constants.py]: the theorems on the patterns
    compare what [re] does with a pattern, backtracking included, with a
    scanner that reads the text once from left to right. *)

Module Scan.
Import Re Constants.

(** The longest run of characters of a class at the head of a text, and
    what follows it. *)
Fixpoint run (p : ascii -> bool) (l : text) : text :=
  match l with
  | c :: l' => if p c then c :: run p l' else []
  | [] => []
  end.

Fixpoint after (p : ascii -> bool) (l : text) : text :=
  match l with
  | c :: l' => if p c then after p l' else l
  | [] => []
  end.

(** The text a scanner for decimal numbers takes from the head of a text:
    digits, then a dot and digits when both are there; or a dot and
    digits. *)
Definition decimal_prefix (l : text) : option text :=
  match run digit l with
  | [] =>
      match l with
      | c :: l' =>
          if is_chr "." c then
            match run digit l' with
            | [] => None
            | fs => Some (c :: fs)
            end
          else None
      | [] => None
      end
  | ds =>
      match after digit l with
      | c :: l' =>
          if is_chr "." c then
            match run digit l' with
            | [] => Some ds
            | fs => Some (ds ++ c :: fs)
            end
          else Some ds
      | [] => Some ds
      end
  end.

(** The name a scanner for prefixed names takes from the head of a text:
    the prefix, when a colon and the start of a name follow the first name,
    the local name, and the text left. *)
Definition pname_scan (l : text) : option (option text * text * text) :=
  match l with
  | c :: l' =>
      if ident_start c then
        let first := c :: run ident_char l' in
        match after ident_char l' with
        | colon :: d :: l2 =>
            if is_chr ":" colon && ident_start d
            then Some (Some first, d :: run ident_char l2,
                       after ident_char l2)
            else Some (None, first, after ident_char l')
        | _ => Some (None, first, after ident_char l')
        end
      else None
  | [] => None
  end.

(** The groups of a prefixed name: the group [prf] takes part only when
    there is a prefix. *)
Definition pname_groups (p : option text) (n : text) : groups :=
  match p with
  | Some p =>
      [("loc", string_of_list_ascii n); ("prf", string_of_list_ascii p)]
  | None => [("loc", string_of_list_ascii n)]
  end.

(** What a scanner for prefixed names found, as groups and text left. *)
Definition pname_found (r : option text * text * text) : groups * text :=
  (pname_groups (fst (fst r)) (snd (fst r)), snd r).

(** A name: a letter or an underscore, then letters, digits, underscores,
    dots and hyphens. *)
Definition is_name (n : text) : bool :=
  match n with
  | c :: n' => ident_start c && forallb ident_char n'
  | [] => false
  end.

(** The text of a name with its prefix, when it has one. *)
Definition pname_text (p : option text) (n : text) : text :=
  match p with
  | Some p => p ++ ":"%char :: n
  | None => n
  end.

(** The group a quote puts its literal in. *)
Definition rhs_group (double : bool) : string :=
  if double then "drhs" else "srhs".
Definition quote_of (double : bool) : ascii :=
  if double then dquote else squote.

(** The match object for what a scanner took from the text [l]: the text
    up to what is left, and the groups. *)
Definition scanned (l : text) (r : groups * text) : match_obj :=
  {| matched := consumed l (snd r); named := fst r |}.

(** A quoted literal at the head of a text: the characters between the
    quote and the next quote of the same kind, and the text after it. *)
Definition quoted_scan (q : ascii) (l : text) : option (text * text) :=
  match l with
  | c :: l' =>
      if is_chr q c then
        match after (fun x => negb (is_chr q x)) l' with
        | _ :: rest => Some (run (fun x => negb (is_chr q x)) l', rest)
        | [] => None
        end
      else None
  | [] => None
  end.

(** The right-hand side of a key predicate: a literal in double quotes
    (group [drhs]) or in single quotes (group [srhs]). *)
Definition rhs_scan (l : text) : option (string * text * text) :=
  match quoted_scan dquote l with
  | Some (v, rest) => Some ("drhs", v, rest)
  | None =>
      match quoted_scan squote l with
      | Some (v, rest) => Some ("srhs", v, rest)
      | None => None
      end
  end.

(** Spaces and the closing bracket: the text after the bracket. *)
Definition close_scan (l : text) : option text :=
  match after space l with
  | c :: rest => if is_chr "]" c then Some rest else None
  | [] => None
  end.

(** The left-hand side of a key predicate: a dot, or a name with or
    without a prefix. *)
Definition name_scan (l : text) : option (groups * text) :=
  match l with
  | c :: l' =>
      if is_chr "." c then Some ([], l')
      else
        match pname_scan l with
        | Some (p, n, rest) => Some (pname_groups p n, rest)
        | None => None
        end
  | [] => None
  end.

(** What stands between the opening bracket with the spaces after it and
    the end of a predicate: a key predicate when the text starts a name or
    with a dot, a position otherwise. *)
Definition body_scan (l1 : text) : option (groups * text) :=
  match name_scan l1 with
  | Some (gn, l2) =>
      match after space l2 with
      | e :: l3 =>
          if is_chr "=" e then
            match rhs_scan (after space l3) with
            | Some (gname, v, l5) =>
                match close_scan l5 with
                | Some rest =>
                    Some ((gname, string_of_list_ascii v) :: gn, rest)
                | None => None
                end
            | None => None
            end
          else None
      | [] => None
      end
  | None =>
      match close_scan (after digit l1) with
      | Some rest =>
          Some ([("pos", string_of_list_ascii (run digit l1))], rest)
      | None => None
      end
  end.

(** A scanner for predicates: the groups and the text after the closing
    bracket. *)
Definition pred_scan (l : text) : option (groups * text) :=
  match l with
  | c :: l0 => if is_chr "[" c then body_scan (after space l0) else None
  | [] => None
  end.

(** A text of ASCII characters. On such a text the classes [\d] and [\s]
    of a pattern are [digit] and [space]; on other text Python takes more
    characters for digits and spaces than these two do. *)
Definition ascii_char (c : ascii) : bool := (code c <? 128)%N.
Definition ascii_text (l : text) : bool := forallb ascii_char l.

(** A match with no named group. *)
Definition plain_match (t : text) : match_obj :=
  {| matched := string_of_list_ascii t; named := [] |}.

(** A continuation that goes on only from a space or an equals sign. *)
Definition wants_equals {R : Type} (k : text -> groups -> option R) : Prop :=
  forall c s g,
    space c = false -> Ascii.eqb "=" c = false -> k (c :: s) g = None.

End Scan.

(** ** What the script reads from a library file and a path *)

Module ScriptObserve.
Import Py.

(** A value of JSON that is no container: the membership test of the
    constructor raises for it. *)
Definition not_a_container (v : pyjson) : bool :=
  match v with
  | JNull | JBool _ | JInt _ | JFloat _ => true
  | _ => false
  end.

(** A text without a colon. *)
Fixpoint no_colon (s : string) : bool :=
  match s with
  | EmptyString => true
  | String c s' => negb (Ascii.eqb c ":") && no_colon s'
  end.

End ScriptObserve.

(** ** The schema walkers of [json_schema.py] *)

Module Schemanode.

(** The classes of [datatype.py] that [jsonschema_type_from_class] tests
    for; a type of any other class is [OtherType]. *)
Inductive datatype : Type :=
| BooleanType
| Int8Type
| Int16Type
| Int32Type
| Int64Type
| Uint8Type
| Uint16Type
| Uint32Type
| Uint64Type
| Decimal64Type
| OtherType (name : string).

(** What the walkers read from a schema node: its class name, the answers
    of [isinstance] for the five classes of [schemanode.py] they test, the
    attributes [name], [qual_name[1]], [description], [mandatory] and
    [type], and what [iname()] and [str] give. *)
Record attrs : Type := {
  class_name : string;
  is_terminal : bool;
  is_leaf : bool;
  is_group : bool;
  is_choice : bool;
  is_case : bool;
  name : option string;
  ns : option string;
  iname : string;
  description : option string;
  mandatory : bool;
  type : datatype;
  str_of : string
}.

(** A schema node with the nodes below it; [children] is [None] for an
    object that has no attribute of that name. *)
Inductive node : Type :=
| Node (a : attrs) (children : option (list node)).

Definition attrs_of (n : node) : attrs := match n with Node a _ => a end.
Definition children_of (n : node) : option (list node) :=
  match n with Node _ c => c end.

End Schemanode.

Module JsonSchemaWalk.
Import Py Schemanode.

(** *** Objects of the interpreter

    A value is [None], a [bool], a [str] or a reference to a [dict] or a
    [list]; a [dict] keeps its keys in insertion order. Two names for one
    reference are two names for one object. *)
Inductive value : Type :=
| VNone
| VBool (b : bool)
| VStr (s : string)
| VRef (r : nat).

Inductive object : Type :=
| ODict (d : list (string * value))
| OList (l : list value).

(** The objects made so far; a new object gets the next reference. *)
Abbreviation store := (list object).

Definition St (A : Type) : Type := store -> result A * store.

Definition st_ret {A} (a : A) : St A := fun st => (Return a, st).
Definition st_raise {A} (e : exn) : St A := fun st => (Raise e, st).
Definition st_bind {A B} (c : St A) (k : A -> St B) : St B :=
  fun st => match c st with
            | (Return a, st') => k a st'
            | (Raise e, st') => (Raise e, st')
            end.

Declare Scope walk_scope.
Delimit Scope walk_scope with walk.
Notation "x <- c ;; k" := (st_bind c (fun x => k))
  (at level 100, c at next level, right associativity) : walk_scope.
Notation "c ;;; k" := (st_bind c (fun _ => k))
  (at level 100, right associativity) : walk_scope.
Local Open Scope walk_scope.

(** [d.get(k)] and [d[k] = v] *)
Fixpoint assoc_get (k : string) (d : list (string * value)) : option value :=
  match d with
  | [] => None
  | (k', v) :: d' => if String.eqb k' k then Some v else assoc_get k d'
  end.

Fixpoint assoc_set (k : string) (v : value) (d : list (string * value))
  : list (string * value) :=
  match d with
  | [] => [(k, v)]
  | (k', v') :: d' =>
      if String.eqb k' k then (k, v) :: d' else (k', v') :: assoc_set k v d'
  end.

(** A display [{...}] or [[...]]: a new object. *)
Definition alloc (o : object) : St value :=
  fun st => (Return (VRef (length st)), st ++ [o]).

(** [type(v).__name__] *)
Definition type_of (v : value) (st : store) : string :=
  match v with
  | VNone => "NoneType"
  | VBool _ => "bool"
  | VStr _ => "str"
  | VRef r =>
      match st !! r with
      | Some (ODict _) => "dict"
      | Some (OList _) => "list"
      | None => "object"
      end
  end.

(** A reference without an object: no run from a store that has an object
    for each of its references comes here. *)
Definition no_object {A} : St A :=
  st_raise (Exc (OtherClass "ReferenceError") "no such object").

Definition quoted (s : string) : string := "'" +:+ s +:+ "'".

(** [v[k]] for a string [k]; the message for a [str] is the one of
    Python 3.11. *)
Definition getitem (v : value) (k : string) : St value :=
  fun st =>
    match v with
    | VRef r =>
        match st !! r with
        | Some (ODict d) =>
            match assoc_get k d with
            | Some x => (Return x, st)
            | None => (Raise (Exc KeyError (quoted k)), st)
            end
        | Some (OList _) =>
            (Raise (Exc TypeError
                      "list indices must be integers or slices, not str"),
             st)
        | None => no_object st
        end
    | VStr _ =>
        (Raise (Exc TypeError "string indices must be integers, not 'str'"),
         st)
    | _ =>
        (Raise (Exc TypeError
                  (quoted (type_of v st) +:+ " object is not subscriptable")),
         st)
    end.

(** [v[k] = x] for a string [k] *)
Definition setitem (v : value) (k : string) (x : value) : St unit :=
  fun st =>
    match v with
    | VRef r =>
        match st !! r with
        | Some (ODict d) => (Return tt, <[r := ODict (assoc_set k x d)]> st)
        | Some (OList _) =>
            (Raise (Exc TypeError
                      "list indices must be integers or slices, not str"),
             st)
        | None => no_object st
        end
    | _ =>
        (Raise (Exc TypeError
                  (quoted (type_of v st)
                   +:+ " object does not support item assignment")),
         st)
    end.

Definition no_attribute {A} (cls attr : string) : St A :=
  st_raise (Exc AttributeError
           (quoted cls +:+ " object has no attribute " +:+ quoted attr)).

(** [v.append(x)] *)
Definition append (v : value) (x : value) : St unit :=
  fun st =>
    match v with
    | VRef r =>
        match st !! r with
        | Some (OList l) => (Return tt, <[r := OList (l ++ [x])]> st)
        | Some (ODict _) => no_attribute "dict" "append" st
        | None => no_object st
        end
    | _ => no_attribute (type_of v st) "append" st
    end.

(** The lookup of [v.update]: only a [dict] has the method. *)
Definition update_method (v : value) : St unit :=
  fun st =>
    match v with
    | VRef r =>
        match st !! r with
        | Some (ODict _) => (Return tt, st)
        | Some (OList _) => no_attribute "list" "update" st
        | None => no_object st
        end
    | _ => no_attribute (type_of v st) "update" st
    end.

(** An operand the embedding does not go into: a source of [update] that
    is no [dict], a right-hand side of [+=] that is no [list]. The walk
    below makes both operands itself, the properties of the object for
    the children of a node and an empty list. *)
Definition unreached {A} : St A :=
  st_raise (Exc (OtherClass "NotImplementedError") "operand not embedded").

(** [v.update(src)] for a [dict] [v] and a [dict] [src]: the items of
    [src] are stored in [v] in their order. *)
Definition update (v : value) (src : value) : St unit :=
  fun st =>
    match v, src with
    | VRef r, VRef r' =>
        match st !! r, st !! r' with
        | Some (ODict d), Some (ODict d') =>
            (Return tt,
             <[r := ODict (fold_left (fun acc kv =>
                                        assoc_set (fst kv) (snd kv) acc)
                             d' d)]> st)
        | Some (ODict _), Some (OList _) => unreached st
        | Some (OList _), _ => no_attribute "list" "update" st
        | _, _ => no_object st
        end
    | VRef r, _ => unreached st
    | _, _ => no_attribute (type_of v st) "update" st
    end.

(** [v += rhs] for a [list] [rhs]: a [list] is extended in place and is
    the result; no other value takes a list. *)
Definition iadd (v rhs : value) : St value :=
  fun st =>
    match rhs with
    | VRef r' =>
        match st !! r' with
        | Some (OList more) =>
            match v with
            | VRef r =>
                match st !! r with
                | Some (OList l) => (Return v, <[r := OList (l ++ more)]> st)
                | Some (ODict _) =>
                    (Raise (Exc TypeError
                              "unsupported operand type(s) for +=: 'dict' and 'list'"),
                     st)
                | None => no_object st
                end
            | VStr _ =>
                (Raise (Exc TypeError
                          ("can only concatenate str (not "
                           +:+ String "034"
                                 ("list" +:+ String "034" ") to str"))),
                 st)
            | _ =>
                (Raise (Exc TypeError
                          ("unsupported operand type(s) for +=: "
                           +:+ quoted (type_of v st) +:+ " and 'list'")),
                 st)
            end
        | Some (ODict _) => unreached st
        | None => no_object st
        end
    | _ => unreached st
    end.

(** [copy.copy(v)]: a new object with the same items for a [dict] or a
    [list], the value itself otherwise. *)
Definition copy (v : value) : St value :=
  fun st =>
    match v with
    | VRef r =>
        match st !! r with
        | Some o => alloc o st
        | None => no_object st
        end
    | _ => (Return v, st)
    end.

(** [hasattr(v, 'required')]: [None], a [bool], a [str], a [dict] and a
    [list] have no attribute of this name. *)
Definition hasattr_required (v : value) : bool := false.

(** A loop over a list that carries a value from one round to the next;
    an exception ends it. *)
Section Loops.
Context {A B : Type} (body : B -> A -> St B).
Fixpoint fold_st (l : list A) (b : B) : St B :=
  match l with
  | [] => st_ret b
  | x :: l' => b' <- body b x ;; fold_st l' b'
  end.
End Loops.

(** [for x in l: body] *)
Definition st_for_each {A : Type} (l : list A) (body : A -> St unit) : St unit :=
  fold_st (fun _ x => body x) l tt.

(** [node.children] *)
Definition get_children (n : node) : St (list node) :=
  match children_of n with
  | Some cs => st_ret cs
  | None => no_attribute (class_name (attrs_of n)) "children"
  end.

Definition of_option (d : option string) : value :=
  match d with
  | Some s => VStr s
  | None => VNone
  end.

(** [jsonschema_type_from_class] *)
Definition jsonschema_type_from_class (nodetype : datatype) : string :=
  match nodetype with
  | BooleanType => "boolean"
  | Int8Type | Int16Type | Int32Type | Int64Type
  | Uint8Type | Uint16Type | Uint32Type | Uint64Type
  | Decimal64Type => "number"
  | OtherType _ => "string"
  end.

(** The test of the loop over the children of a node that is no choice:
    below a node without a name, a child outside the namespace
    [tip-photonic-equipment] is passed over. *)
Definition passed_over (a : attrs) (child : node) : bool :=
  bool_decide (name a = None)
  && negb (bool_decide (ns (attrs_of child) = Some "tip-photonic-equipment")).

(** [walk_json_schema(node, parent_level_data)]. A display on the right of
    an assignment is made before the target is looked up. The test for a
    choice node after the loop over the children is left out: for a choice
    node the function has returned before. *)
Fixpoint walk_json_schema (n : node) (parent_level_data : value) {struct n}
  : St value :=
  match n with
  | Node a children =>
      if is_terminal a then
        entry <- alloc (ODict [("description", of_option (description a))]) ;;
        props <- getitem parent_level_data "properties" ;;
        setitem props (iname a) entry ;;;
        (if mandatory a then
           req <- getitem parent_level_data "required" ;;
           append req (VStr (iname a))
         else st_ret tt) ;;;
        (if is_leaf a then
           props <- getitem parent_level_data "properties" ;;
           entry <- getitem props (iname a) ;;
           setitem entry "type" (VStr (jsonschema_type_from_class (type a)))
         else st_ret tt) ;;;
        st_ret parent_level_data
      else
        parent_level_data <-
          match parent_level_data with
          | VNone =>
              props <- alloc (ODict []) ;;
              req <- alloc (OList []) ;;
              alloc (ODict [("type", VStr "object");
                            ("properties", props);
                            ("required", req);
                            ("$schema",
                             VStr "http://json-schema.org/draft-04/schema#")])
          | _ => st_ret parent_level_data
          end ;;
        props <- alloc (ODict []) ;;
        req <- alloc (OList []) ;;
        children_data <-
          alloc (ODict [("properties", props);
                        ("type", VStr "object");
                        ("description", of_option (description a));
                        ("required", req)]) ;;
        if is_choice a then
          let fake_node_name := "_choice:" +:+ iname a in
          cases <- alloc (OList []) ;;
          match children with
          | Some cs =>
              st_for_each cs (fun child =>
                blank <- copy children_data ;;
                new_node <- walk_json_schema child blank ;;
                setitem new_node "title" (VStr (iname (attrs_of child))) ;;;
                setitem new_node "additionalProperties" (VBool false) ;;;
                xs <- get_children child ;;
                names <- alloc (OList (map (fun x => VStr (iname (attrs_of x)))
                                         xs)) ;;
                setitem new_node "required" names ;;;
                append cases new_node)
          | None => no_attribute (class_name a) "children"
          end ;;;
          choice <- alloc (ODict [("title", of_option (description a));
                                  ("oneOf", cases);
                                  ("additionalProperties", VBool false)]) ;;
          props <- getitem parent_level_data "properties" ;;
          setitem props fake_node_name choice ;;;
          (if mandatory a then
             req <- getitem parent_level_data "required" ;;
             append req (VStr fake_node_name)
           else st_ret tt) ;;;
          st_ret parent_level_data
        else
          children_data <-
            match children with
            | Some cs =>
                fold_st (fun children_data child =>
                           if passed_over a child then st_ret children_data
                           else walk_json_schema child children_data)
                  cs children_data
            | None => no_attribute (class_name a) "children"
            end ;;
          (if is_group a || is_choice a || is_case a then
             props <- getitem parent_level_data "properties" ;;
             update_method props ;;;
             src <- getitem children_data "properties" ;;
             update props src ;;;
             req <- getitem parent_level_data "required" ;;
             rhs <- (if hasattr_required children_data
                     then getitem children_data "required"
                     else alloc (OList [])) ;;
             req <- iadd req rhs ;;
             setitem parent_level_data "required" req
           else
             props <- getitem parent_level_data "properties" ;;
             setitem props (iname a) children_data) ;;;
          st_ret parent_level_data
  end.

(** A loop whose rounds print lines: the lines of the rounds one after
    the other, up to the round an exception ends. *)
Section Printing.
Context {A : Type} (body : A -> list string * option exn).
Fixpoint print_each (l : list A) : list string * option exn :=
  match l with
  | [] => ([], None)
  | x :: l' =>
      match body x with
      | (ls, Some e) => (ls, Some e)
      | (ls, None) => let '(ls', e) := print_each l' in (ls ++ ls', e)
      end
  end.
End Printing.

(** [debug_walk_string(node, indent)]: the lines printed and the exception
    that ended the walk, if any. *)
Fixpoint debug_walk_string (n : node) (indent : string) {struct n}
  : list string * option exn :=
  match n with
  | Node a None =>
      ([], Some (Exc AttributeError
                   (quoted (class_name a) +:+ " object has no attribute "
                    +:+ quoted "children")))
  | Node a (Some cs) =>
      print_each (fun child =>
        let c := attrs_of child in
        let line :=
          if is_group c then indent +:+ "[group]"
          else indent +:+ iname c +:+ " " +:+ str_of c in
        if is_terminal c then ([line], None)
        else
          let '(ls, e) := debug_walk_string child (indent +:+ "  ") in
          (line :: ls, e)) cs
  end.

End JsonSchemaWalk.

(** ** What a walk leaves in the store *)

Module WalkObserve.
Import Py Schemanode JsonSchemaWalk.
Local Open Scope walk_scope.

(** The node has the attribute [children]. *)
Definition has_children_attr (c : node) : bool :=
  match children_of c with Some _ => true | None => false end.

(** A tree the walk goes through: each node the walk comes to that is
    not terminal has children, and so has each child of a choice node. The
    walk comes to every child of a choice node and, below any other node,
    to the children its loop does not pass over. *)
Fixpoint walkable (n : node) : bool :=
  match n with
  | Node a children =>
      is_terminal a
      || match children with
         | None => false
         | Some cs =>
             if is_choice a
             then forallb (fun c => walkable c && has_children_attr c) cs
             else forallb (fun c => passed_over a c || walkable c) cs
         end
  end.

(** A level in place at [r]: a [dict] whose member [properties] is another
    [dict] and whose member [required] is a [list]; the result names the
    two. *)
Definition level_of (st : store) (r : nat) : option (nat * nat) :=
  match st !! r with
  | Some (ODict d) =>
      match assoc_get "properties" d, assoc_get "required" d with
      | Some (VRef P), Some (VRef Q) =>
          match st !! P, st !! Q with
          | Some (ODict _), Some (OList _) =>
              if Nat.eqb r P then None else Some (P, Q)
          | _, _ => None
          end
      | _, _ => None
      end
  | _ => None
  end.

(** The objects of [st] are in [st'] what they were, but for those at
    [ex]. *)
Definition keeps (st st' : store) (ex : list nat) : Prop :=
  length st <= length st'
  /\ forall i, i < length st -> ~ In i ex -> st' !! i = st !! i.

Definition is_dict (st : store) (r : nat) : Prop :=
  exists d, st !! r = Some (ODict d).
Definition is_list (st : store) (r : nat) : Prop :=
  exists l, st !! r = Some (OList l).

Definition level (st : store) (r P Q : nat) : Prop :=
  exists d, st !! r = Some (ODict d)
            /\ assoc_get "properties" d = Some (VRef P)
            /\ assoc_get "required" d = Some (VRef Q)
            /\ is_dict st P /\ is_list st Q /\ r <> P.

Definition merge (d d' : list (string * value)) : list (string * value) :=
  fold_left (fun acc kv => assoc_set (fst kv) (snd kv) acc) d' d.

(** What holds of a walk from a node below a level that is in place. *)
Definition walk_ok (n : node) : Prop :=
  forall r P Q st, level st r P Q ->
  exists st',
    walk_json_schema n (VRef r) st = (Return (VRef r), st')
    /\ keeps st st' [P; Q] /\ is_dict st' P /\ is_list st' Q.

(** The same of a child the loop over the children of [a] does not pass
    over. *)
Definition visited_ok (a : attrs) (c : node) : Prop :=
  passed_over a c = false -> walk_ok c.

(** The exception for a node of the class [cls] without children. *)
Definition no_children (cls : string) : exn :=
  Exc AttributeError
    (quoted cls +:+ " object has no attribute " +:+ quoted "children").

Definition lacks_children (e : exn) : Prop :=
  exists cls, e = no_children cls.

(** What holds of a walk from a node below a level in place, when the
    walk comes to a node without children. *)
Definition walk_fails (n : node) : Prop :=
  forall r P Q st, level st r P Q ->
  exists e st',
    walk_json_schema n (VRef r) st = (Raise e, st')
    /\ lacks_children e /\ keeps st st' [P; Q].

(** The round of the loop over the children of a node that is no choice. *)
Definition child_round (a : attrs) (children_data : value) (child : node)
  : St value :=
  if passed_over a child then st_ret children_data
  else walk_json_schema child children_data.

(** The three objects made for the children of a node. *)
Definition children_objects (a : attrs) (st : store) : store :=
  ((st ++ [ODict []]) ++ [OList []])
  ++ [ODict [("properties", VRef (length st));
             ("type", VStr "object");
             ("description", of_option (description a));
             ("required", VRef (length st + 1))]].

(** The round of the loop over the children of a choice node. *)
Definition case_round (children_data cases : value) (child : node)
  : St unit :=
  blank <- copy children_data ;;
  new_node <- walk_json_schema child blank ;;
  setitem new_node "title" (VStr (iname (attrs_of child))) ;;;
  setitem new_node "additionalProperties" (VBool false) ;;;
  xs <- get_children child ;;
  names <- alloc (OList (map (fun x => VStr (iname (attrs_of x))) xs)) ;;
  setitem new_node "required" names ;;;
  append cases new_node.

(** The items of the object made for the children of a node whose first
    object is [k]. *)
Definition children_items (a : attrs) (k : nat) : list (string * value) :=
  [("properties", VRef k);
   ("type", VStr "object");
   ("description", of_option (description a));
   ("required", VRef (k + 1))].

(** The items of an alternative of the choice node [a] for its child [c],
    with the list [n] of required names. *)
Definition case_items (a : attrs) (k : nat) (c : node) (n : nat)
  : list (string * value) :=
  [("properties", VRef k);
   ("type", VStr "object");
   ("description", of_option (description a));
   ("required", VRef n);
   ("title", VStr (iname (attrs_of c)));
   ("additionalProperties", VBool false)].

Definition names_of (c : node) : list value :=
  map (fun x => VStr (iname (attrs_of x))) (default [] (children_of c)).

(** The alternative [b] made for the child [c] of the choice node [a]. *)
Definition case_at (a : attrs) (k : nat) (st : store) (c : node) (b : nat)
  : Prop :=
  k + 3 < b
  /\ exists n, k + 3 < n
               /\ st !! b = Some (ODict (case_items a k c n))
               /\ st !! n = Some (OList (names_of c)).

Definition cases_inv (a : attrs) (k : nat) (st : store)
  (cs : list node) (bs : list nat) : Prop :=
  k + 3 < length st
  /\ st !! (k + 2) = Some (ODict (children_items a k))
  /\ is_dict st k /\ is_list st (k + 1)
  /\ st !! (k + 3) = Some (OList (map VRef bs))
  /\ Forall2 (case_at a k st) cs bs.

Definition has_children (c : node) : Prop := is_Some (children_of c).

Definition choice_name (a : attrs) : string := "_choice:" +:+ iname a.

Definition choice_items (a : attrs) (cases : nat) : list (string * value) :=
  [("title", of_option (description a));
   ("oneOf", VRef cases);
   ("additionalProperties", VBool false)].

(** The items of the entry made for a terminal node. *)
Definition entry_items (a : attrs) : list (string * value) :=
  ("description", of_option (description a))
  :: (if is_leaf a
      then [("type", VStr (jsonschema_type_from_class (type a)))]
      else []).

(** A computation that returns no other value than [v0]. *)
Definition returns_only {A : Type} (c : St A) (v0 : A) : Prop :=
  forall st v st', c st = (Return v, st') -> v = v0.

(** The three objects made for a walk without a level. *)
Definition top_items (k : nat) : list (string * value) :=
  [("type", VStr "object");
   ("properties", VRef k);
   ("required", VRef (k + 1));
   ("$schema", VStr "http://json-schema.org/draft-04/schema#")].

Definition top_objects (st : store) : store :=
  ((st ++ [ODict []]) ++ [OList []]) ++ [ODict (top_items (length st))].

(** What [json.dumps] reads from a value: the tree below it, as far as
    [fuel] levels down. *)
Fixpoint snapshot (fuel : nat) (st : store) (v : value) : option pyjson :=
  match fuel with
  | 0 => None
  | S fuel' =>
      match v with
      | VNone => Some JNull
      | VBool b => Some (JBool b)
      | VStr s => Some (JStr s)
      | VRef r =>
          match st !! r with
          | Some (ODict d) =>
              JDict <$> mapM (fun kv => pair (fst kv)
                                          <$> snapshot fuel' st (snd kv)) d
          | Some (OList l) => JList <$> mapM (snapshot fuel' st) l
          | None => None
          end
      end
  end.

End WalkObserve.

(** ** Small schema trees to walk *)

Module WalkDemo.
Import Py Schemanode JsonSchemaWalk WalkObserve.

Definition plain (cls nm : string) : attrs :=
  {| class_name := cls; is_terminal := false; is_leaf := false;
     is_group := false; is_choice := false; is_case := false;
     name := Some nm; ns := Some "example"; iname := nm;
     description := None; mandatory := false; type := OtherType "StringType";
     str_of := "<" +:+ cls +:+ ">" |}.

Definition leaf (nm : string) (must : bool) (t : datatype) : node :=
  Node {| class_name := "LeafNode"; is_terminal := true; is_leaf := true;
          is_group := false; is_choice := false; is_case := false;
          name := Some nm; ns := Some "example"; iname := nm;
          description := None; mandatory := must; type := t;
          str_of := "<LeafNode>" |} None.

Definition container (nm : string) (cs : list node) : node :=
  Node (plain "ContainerNode" nm) (Some cs).

Definition case_node (nm : string) (cs : list node) : node :=
  Node {| class_name := "CaseNode"; is_terminal := false; is_leaf := false;
          is_group := false; is_choice := false; is_case := true;
          name := Some nm; ns := Some "example"; iname := nm;
          description := None; mandatory := false;
          type := OtherType "NoneType"; str_of := "<CaseNode>" |} (Some cs).

Definition choice_node (nm : string) (must : bool) (cs : list node) : node :=
  Node {| class_name := "ChoiceNode"; is_terminal := false; is_leaf := false;
          is_group := false; is_choice := true; is_case := false;
          name := Some nm; ns := Some "example"; iname := nm;
          description := Some "one of"; mandatory := must;
          type := OtherType "NoneType"; str_of := "<ChoiceNode>" |} (Some cs).

(** The root of a schema: a group node without a name. *)
Definition tree_root (cs : list node) : node :=
  Node {| class_name := "SchemaTreeNode"; is_terminal := false;
          is_leaf := false; is_group := true; is_choice := false;
          is_case := false; name := None; ns := None; iname := "";
          description := None; mandatory := false;
          type := OtherType "NoneType"; str_of := "<SchemaTreeNode>" |}
       (Some cs).

(** A child of the root in the namespace the walk looks for. *)
Definition equipment (nm : string) (cs : list node) : node :=
  Node {| class_name := "ContainerNode"; is_terminal := false;
          is_leaf := false; is_group := false; is_choice := false;
          is_case := false; name := Some nm;
          ns := Some "tip-photonic-equipment";
          iname := "tip-photonic-equipment:" +:+ nm;
          description := None; mandatory := false;
          type := OtherType "NoneType"; str_of := "<ContainerNode>" |}
       (Some cs).

(** A store with a level in place at reference 2. *)
Definition one_level : store :=
  [ODict []; OList [];
   ODict [("properties", VRef 0); ("required", VRef 1)]].

(** A choice between the leaf [x] and the leaf [y]. *)
Definition x_or_y : node :=
  choice_node "pick" true
    [case_node "a" [leaf "x" true Int8Type];
     case_node "b" [leaf "y" false BooleanType]].

End WalkDemo.

(** * Properties *)

(** ** Dictionaries and text *)

Module Facts.
Import Constants Py.

Lemma dict_get_set_eq (k : string) (v : pyjson) (d : pydict) :
  dict_get k (dict_set k v d) = Some v.
Proof.
  induction d as [|[k' v'] d IH]; simpl.
  - by rewrite String.eqb_refl.
  - destruct (String.eqb k' k) eqn:E; simpl.
    + by rewrite String.eqb_refl.
    + by rewrite E.
Qed.

Lemma dict_get_set_ne (k k' : string) (v : pyjson) (d : pydict) :
  k' <> k -> dict_get k' (dict_set k v d) = dict_get k' d.
Proof.
  intros Hne. induction d as [|[k0 v0] d IH]; simpl.
  - destruct (String.eqb k k') eqn:E; [|done].
    apply String.eqb_eq in E. congruence.
  - destruct (String.eqb k0 k) eqn:E; simpl.
    + apply String.eqb_eq in E. subst k0.
      destruct (String.eqb k k') eqn:E'; [|done].
      apply String.eqb_eq in E'. congruence.
    + by rewrite IH.
Qed.

Fixpoint last_char (s : string) : option ascii :=
  match s with
  | EmptyString => None
  | String c EmptyString => Some c
  | String _ s' => last_char s'
  end.

Lemma append_nonempty (a b : string) : b <> "" -> a +:+ b <> "".
Proof. destruct a; simpl; [done|]. discriminate. Qed.

Lemma last_char_append (a b : string) :
  b <> "" -> last_char (a +:+ b) = last_char b.
Proof.
  intros Hb. induction a as [|c a IH]; simpl; [done|].
  destruct (a +:+ b) eqn:E; [|done].
  by destruct (append_nonempty a b Hb).
Qed.

(** The text of a decoding error ends with a closing parenthesis. *)
Lemma str_decode_error_last (msg doc : string) (pos : nat) :
  last_char (str (JSONDecodeError msg doc pos)) = Some ")"%char.
Proof.
  unfold str.
  repeat (rewrite last_char_append;
          [|repeat (apply append_nonempty); discriminate]).
  reflexivity.
Qed.

Section Monad.
Context {ref heap : Type}.
Import Yangson Observe.

(** A recorded call runs the method on the heap and adds its event. *)
Lemma call_extend {A : Type} (ev : event ref) (c : cmd heap A)
  (w : world ref heap) :
  call ev c w = (fst (c (w_heap w)), extend w (snd (c (w_heap w))) [ev]).
Proof. unfold call. simpl. by destruct (c (w_heap w)). Qed.

Lemma bind_run {A B : Type} (c : M ref heap A) (k : A -> M ref heap B)
  (w : world ref heap) :
  bind c k w = match c w with
               | (Return a, w') => k a w'
               | (Raise e, w') => (Raise e, w')
               end.
Proof. reflexivity. Qed.

Lemma extend_extend (w : world ref heap) (h h' : heap)
  (evs evs' : list (event ref)) :
  extend (extend w h evs) h' evs' = extend w h' (evs ++ evs').
Proof. unfold extend. simpl. by rewrite <- app_assoc. Qed.

Lemma extend_same (w : world ref heap) : extend w (w_heap w) [] = w.
Proof. destruct w. unfold extend. simpl. by rewrite app_nil_r. Qed.

End Monad.

End Facts.

(** ** The parser of instance identifiers *)

Module InstanceIdentifierSpec.
Import Re Constants Py InstanceIdentifier.

Lemma after_length (p : ascii -> bool) (l : text) :
  length (after p l) <= length l.
Proof.
  induction l as [|c l IH]; simpl; [lia|]. destruct (p c); simpl; lia.
Qed.

Lemma identifier_length (l a r : text) :
  identifier l = Some (a, r) -> length r < length l.
Proof.
  destruct l as [|c l]; [done|]. unfold identifier.
  destruct (ident_start c); [|done]. intros [= <- <-].
  pose proof (after_length ident_char l). cbn [length]. lia.
Qed.

Lemma qualified_name_length (l n r : text) (p : option text) :
  qualified_name l = Some (p, n, r) -> length r < length l.
Proof.
  unfold qualified_name.
  destruct (identifier l) as [[a r0]|] eqn:Ha; [|done].
  apply identifier_length in Ha.
  destruct r0 as [|c r']; [by intros [= <- <- <-]|].
  destruct (is_chr ":" c); [|by intros [= <- <- <-]].
  destruct (identifier r') as [[b r'']|] eqn:Hb; [|by intros [= <- <- <-]].
  apply identifier_length in Hb. intros [= <- <- <-]. cbn [length] in *. lia.
Qed.

Lemma quoted_literal_length (l v r : text) :
  quoted_literal l = Some (v, r) -> length r < length l.
Proof.
  destruct l as [|q l]; [done|]. unfold quoted_literal.
  destruct (is_chr dquote q || is_chr squote q); [|done].
  pose proof (after_length (fun c => negb (is_chr q c)) l) as H.
  destruct (after _ l) as [|c r']; [done|]. intros [= <- <-]. cbn [length] in *. lia.
Qed.

Lemma closing_length (item item' : predicate_item) (l r : text) :
  closing item l = Some (item', r) -> length r < length l.
Proof.
  unfold closing, ws. pose proof (after_length ws_char l) as H.
  destruct (after ws_char l) as [|c r']; [done|].
  destruct (is_chr "]" c); [|done]. intros [= <- <-]. cbn [length] in *. lia.
Qed.

Lemma equals_literal_length (l v r : text) :
  equals_literal l = Some (v, r) -> length r < length l.
Proof.
  unfold equals_literal, ws. pose proof (after_length ws_char l) as H.
  destruct (after ws_char l) as [|c r']; [done|].
  destruct (is_chr "=" c); [|done].
  pose proof (after_length ws_char r') as H'. intros Hq.
  apply quoted_literal_length in Hq. cbn [length] in *. lia.
Qed.

(** A predicate takes at least its brackets from the text. *)
Lemma predicate_length (l r : text) (item : predicate_item) :
  predicate l = Some (item, r) -> length r < length l.
Proof.
  destruct l as [|b l0]; [done|]. unfold predicate.
  destruct (is_chr "[" b); [|done].
  unfold ws. pose proof (after_length ws_char l0) as H0.
  destruct (after ws_char l0) as [|c l2] eqn:E; [done|].
  destruct (is_chr "." c).
  - destruct (equals_literal l2) as [[v r1]|] eqn:He; [|done].
    apply equals_literal_length in He. intros Hc.
    apply closing_length in Hc. cbn [length] in *. lia.
  - destruct (digit c).
    + intros Hc. apply closing_length in Hc.
      pose proof (after_length digit (c :: l2)). cbn [length] in *. lia.
    + destruct (qualified_name (c :: l2)) as [[[p n] r1]|] eqn:Hq; [|done].
      apply qualified_name_length in Hq.
      destruct (equals_literal r1) as [[v r2]|] eqn:He; [|done].
      apply equals_literal_length in He. intros Hc.
      apply closing_length in Hc. cbn [length] in *. lia.
Qed.

(** The predicates of a step leave a part of the text, and do not depend
    on how much more than the text the recursion may take. *)
Lemma predicates_fuel (fuel fuel' : nat) (m : string) :
  forall (l : text) (s : Selector) (o : nat),
    length l <= fuel -> length l <= fuel' ->
    predicates fuel m s l o = predicates fuel' m s l o
    /\ match predicates fuel m s l o with
       | inr (_, r, _) => length r <= length l
       | inl _ => True
       end.
Proof.
  revert fuel'. induction fuel as [|fuel IH]; intros fuel' l s o Hf Hf'.
  - destruct l; [|cbn [length] in Hf; lia]. destruct fuel'; simpl; split; done.
  - destruct l as [|c l']; [destruct fuel'; simpl; split; done|].
    destruct fuel' as [|fuel']; [cbn [length] in Hf'; lia|].
    cbn [predicates].
    destruct (is_chr "[" c); [|split; [done|cbn [length]; lia]].
    destruct (predicate (c :: l')) as [[item r]|] eqn:Hp; [|done].
    apply predicate_length in Hp.
    destruct (add_predicate m item s) as [s'|]; [|done].
    destruct (IH fuel' r s' (o + (length (c :: l') - length r)))
      as [Heq Hlen]; [cbn [length] in *; lia..|].
    split; [exact Heq|].
    destruct (predicates fuel m s' r _) as [e|[[s2 r2] o2]]; [done|].
    cbn [length] in *. lia.
Qed.

(** The steps do not depend on it either. *)
Lemma steps_fuel (fuel fuel' : nat) :
  forall (l : text) (current : option string) (acc : Route) (o : nat),
    length l < fuel -> length l < fuel' ->
    steps fuel current acc l o = steps fuel' current acc l o.
Proof.
  revert fuel'. induction fuel as [|fuel IH]; intros fuel' l cur acc o Hf Hf';
    [lia|].
  destruct fuel' as [|fuel']; [lia|]. cbn [steps].
  destruct l as [|c l1]; [done|].
  destruct (is_chr "/" c); [|done].
  destruct (qualified_name l1) as [[[p n] l2]|] eqn:Hq; [|done].
  apply qualified_name_length in Hq.
  destruct (module_for p cur) as [m|]; [|done].
  destruct (predicates_fuel fuel fuel' m l2 NoSelector
              (o + (length (c :: l1) - length l2)))
    as [<- Hlen]; [cbn [length] in *; lia..|].
  destruct (predicates fuel m NoSelector l2 _) as [e|[[s l3] o3]]; [done|].
  destruct l3 as [|c3 l3]; [done|].
  apply IH; cbn [length] in *; lia.
Qed.

(** The parser gives what the steps give with any more fuel: the fuel it
    takes is enough for every text. *)
Lemma parse_fuel (text : string) (fuel : nat) :
  length (list_ascii_of_string text) < fuel ->
  steps fuel None [] (list_ascii_of_string text) 0 = parse text.
Proof. intros Hf. unfold parse. apply steps_fuel; lia. Qed.

(** The first step of an instance identifier has a prefix: a text that
    starts with a slash and a name without one is no instance
    identifier. *)
Lemma first_prefix_mandatory (l n r : text) :
  qualified_name l = Some (None, n, r) ->
  parse (string_of_list_ascii ("/"%char :: l))
  = Failed {| offset := 1; expectation := "module prefix" |}.
Proof.
  intros Hq. unfold parse. rewrite list_ascii_of_string_of_list_ascii.
  cbn [steps]. by rewrite Hq.
Qed.

(** The two examples of the specification. *)
Example interface_by_name :
  parse "/if:interfaces/interface[name='eth0']"
  = Parsed
      [{| name := {| local_name := "interfaces"; module_of := "if" |};
          selector := NoSelector |};
       {| name := {| local_name := "interface"; module_of := "if" |};
          selector :=
            KeyedPredicate
              [(KeyName {| local_name := "name"; module_of := "if" |},
                "eth0")] |}].
Proof. reflexivity. Qed.

Example interface_without_prefix :
  parse "/interfaces/interface[name='eth0']"
  = Failed {| offset := 1; expectation := "module prefix" |}.
Proof. reflexivity. Qed.

End InstanceIdentifierSpec.

(** ** The datastore facade *)

Module DatastoreSpec.
Import Constants Py Yangson Datamodel Observe Facts.

Section Proofs.
Context {ref heap route : Type} {env : Absent ref heap route}.

(** C1. Whatever the content type of a datastore, [schema_digest] prints the
    digest of the schema tree with the member [config] set to the boolean
    true: when [node_digest] gives a dictionary, the result is the JSON text
    of a dictionary in which [config] is true and every other member is as
    the digest has it; the only way it raises is that [node_digest] does.
    A datastore of content type [all] gets the same text as one of content
    type [config] over the same schema. *)
Theorem schema_digest_config_true (ds : Datastore ref) (w : world ref heap) :
  match node_digest (schema ds) (w_heap w) with
  | (Raise e, _) => fst (schema_digest ds w) = Raise e
  | (Return res, _) =>
      exists d : pydict,
        fst (schema_digest ds w) = Return (json_dumps (JDict d))
        /\ dict_get "config" d = Some (JBool true)
        /\ (forall k, k <> "config" -> dict_get k d = dict_get k res)
  end
  /\ (forall ct : ContentType,
        schema_digest
          {| content_type := ct; schema_data := schema_data ds;
             schema := schema ds |} w
        = schema_digest ds w).
Proof.
  split.
  - unfold schema_digest, bind, call, ret. simpl.
    destruct (node_digest (schema ds) (w_heap w)) as [[res|e] h] eqn:E; simpl.
    + exists (dict_set "config" (JBool true) res). split; [done|]. split.
      * apply dict_get_set_eq.
      * intros k Hk. by apply dict_get_set_ne.
    + done.
  - intros ct. reflexivity.
Qed.


(** The loop of [get_data_node] over steps that find a child goes on with
    the rest of the route from the node reached. *)
Lemma data_steps_follow (pre rest : SchemaRoute) :
  forall (node : ref) (w : world ref heap) n h1 evs,
    follow pre node (w_heap w) = Some (n, h1, evs) ->
    data_steps (pre ++ rest) node w = data_steps rest n (extend w h1 evs).
Proof.
  induction pre as [|p pre IH]; intros node w n h1 evs Hf; simpl in *.
  - inversion Hf; subst. by rewrite extend_same.
  - unfold bind at 1. rewrite call_extend.
    destruct (get_data_child node p.1 p.2 (w_heap w)) as [[[n1|]|e] h'] eqn:E;
      simpl in *; try discriminate.
    destruct (follow pre n1 h') as [[[m h''] evs']|] eqn:F; [|discriminate].
    inversion Hf; subst m h'' evs. clear Hf.
    rewrite (IH n1 (extend w h' [EvGetDataChild node p.1 p.2]) n h1 evs' F).
    by rewrite extend_extend.
Qed.

Lemma follow_length (pre : SchemaRoute) :
  forall (node : ref) (h : heap) n h1 evs,
    follow pre node h = Some (n, h1, evs) -> length evs = length pre.
Proof.
  induction pre as [|p pre IH]; intros node h n h1 evs Hf; simpl in *.
  - by inversion Hf.
  - destruct (get_data_child node p.1 p.2 h) as [[[n1|]|e] h'];
      try discriminate.
    destruct (follow pre n1 h') as [[[m h''] evs']|] eqn:F; [|discriminate].
    inversion Hf; subst. simpl. f_equal. eauto.
Qed.

(** C4. For a path that [path2route] turns into a route, [get_data_node]
    goes from the schema root one step of the route at a time. When the
    steps of [pre] each find a child and the next step [p] finds none, the
    result is [None], no exception is raised, and the calls made are the one
    of [path2route], one [get_data_child] for each step of [pre] and the one
    for [p]: none is made for the steps of [rest], and the heap is the one
    the failed lookup left. *)
Theorem get_data_node_stops_at_missing_child
  (ds : Datastore ref) (path : string) (w : world ref heap)
  (addr pre rest : SchemaRoute) (p : QualName)
  (h0 h1 h2 : heap) (n : ref) (evs : list (event ref)) :
  path2route (schema_data ds) path (w_heap w) = (Return addr, h0) ->
  addr = pre ++ p :: rest ->
  follow pre (schema ds) h0 = Some (n, h1, evs) ->
  get_data_child n (fst p) (snd p) h1 = (Return None, h2) ->
  get_data_node ds path w
  = (Return None,
     extend w h2 (EvPath2Route (schema_data ds) path
                  :: evs ++ [EvGetDataChild n (fst p) (snd p)]))
  /\ length evs = length pre.
Proof.
  intros Hroute -> Hpre Hmiss. split; [|by eapply follow_length].
  unfold get_data_node, bind at 1. rewrite call_extend, Hroute. simpl.
  set (w0 := extend w h0 [EvPath2Route (schema_data ds) path]).
  assert (Hw0 : w_heap w0 = h0) by done.
  rewrite <- Hw0 in Hpre.
  assert (Hlast : forall w1 : world ref heap, w_heap w1 = h1 ->
            data_steps (p :: rest) n w1
            = (Return None, extend w1 h2 [EvGetDataChild n p.1 p.2])).
  { intros w1 Hw1. simpl. unfold bind. rewrite call_extend, Hw1, Hmiss.
    reflexivity. }
  rewrite (data_steps_follow pre (p :: rest) _ _ _ _ _ Hpre).
  rewrite Hlast by done. unfold w0. by rewrite !extend_extend.
Qed.

End Proofs.
End DatastoreSpec.

(** ** The schema tree builder *)

Module BuilderSpec.
Import Constants Py Yangson Datamodel Observe Facts.
Local Open Scope py_scope.

Section Proofs.
Context {ref heap route : Type} {env : Absent ref heap route}.

Abbreviation M := (Yangson.M ref heap).
Abbreviation event := (Yangson.event ref).
Abbreviation world := (Yangson.world ref heap).

Lemma build_schema_passes (schema sd : ref) :
  _build_schema schema sd
  = (pass1 schema sd ;;; pass2 schema sd ;;;
     call (EvPostProcess schema) (post_process schema) ;;;
     call (EvMakeSchemaPatterns schema) (make_schema_patterns schema)).
Proof. reflexivity. Qed.

(** What a loop adds to the trace, from what its body adds: the calls stay
    within [I], and a loop that ends normally has made, for each element in
    turn, the calls that [vis] reads as [key] of the element. *)
Lemma for_each_trace {A B : Type} (body : A -> M unit)
  (I : event -> Prop) (f : event -> option B) (key : A -> list B) :
  (forall x (w : world), exists t,
      w_trace (snd (body x w)) = w_trace w ++ t
      /\ Forall I t
      /\ (fst (body x w) = Return tt -> omap f t = key x)) ->
  forall l (w : world), exists t,
      w_trace (snd (for_each l body w)) = w_trace w ++ t
      /\ Forall I t
      /\ (fst (for_each l body w) = Return tt
          -> omap f t = concat (map key l)).
Proof.
  intros Hbody. induction l as [|x l IH]; intros w; simpl.
  - exists []. by rewrite app_nil_r.
  - unfold bind. destruct (Hbody x w) as (t1 & Ht1 & HI1 & Hk1).
    destruct (body x w) as [[[]|e] w1]; simpl in *.
    + destruct (IH w1) as (t2 & Ht2 & HI2 & Hk2).
      exists (t1 ++ t2). split; [|split].
      * by rewrite Ht2, Ht1, app_assoc.
      * by apply Forall_app.
      * intros Hr. by rewrite omap_app, Hk1, Hk2.
    + exists t1. by repeat split.
Qed.

Lemma concat_singletons {A : Type} (l : list A) :
  concat (map (fun x => [x]) l) = l.
Proof. induction l; simpl; congruence. Qed.

Lemma concat_nils {A B : Type} (l : list A) :
  concat (map (fun _ => @nil B) l) = [].
Proof. induction l; simpl; congruence. Qed.

(** The first pass makes calls of the first pass only and, when it ends
    normally, has instantiated the modules of the sequence in their order. *)
Lemma pass1_trace (schema sd : ref) (w : world) :
  exists t,
    w_trace (snd (pass1 schema sd w)) = w_trace w ++ t
    /\ Forall (pass1_event schema sd) t
    /\ (fst (pass1 schema sd w) = Return tt
        -> handled t = module_sequence sd (w_heap w)).
Proof.
  unfold pass1, handled. unfold bind at 1. unfold ask at 1. simpl.
  match goal with
  | |- context [for_each ?l ?body w] =>
      pose proof (fun Hb => for_each_trace body (pass1_event schema sd)
                  (fun ev => match ev with
                             | EvHandleSubstatements _ _ sctx =>
                                 Some (sc_text_mid sctx)
                             | _ => None
                             end)
                  (fun mid => [mid]) Hb l w) as HF;
      destruct HF as (t & Ht & HI & Hk);
      [|exists t; rewrite concat_singletons in Hk; done]
  end.
  clear w. intros mid w.
  unfold bind, ask. rewrite call_extend.
  destruct (namespace sd mid (w_heap w)) as [[ns|e] h1]; simpl.
  - destruct (module_statement sd mid h1) as [stmt|e]; simpl.
    + rewrite call_extend. simpl.
      eexists [_; _]. rewrite <- app_assoc. split; [reflexivity|].
      split; [|done]. repeat constructor.
    + eexists [_]. split; [reflexivity|]. split; [|done].
      repeat constructor.
  - eexists [_]. split; [reflexivity|]. split; [|done]. repeat constructor.
Qed.

(** The second pass makes calls of the second pass only and, when it ends
    normally, has gone through the modules of the sequence in their order. *)
Lemma pass2_trace (schema sd : ref) (w : world) :
  exists t,
    w_trace (snd (pass2 schema sd w)) = w_trace w ++ t
    /\ Forall (pass2_event schema sd) t
    /\ (fst (pass2 schema sd w) = Return tt
        -> visited t = module_sequence sd (w_heap w)).
Proof.
  unfold pass2, visited. unfold bind at 1. unfold ask at 1. simpl.
  match goal with
  | |- context [for_each ?l ?body w] =>
      pose proof (fun Hb => for_each_trace body (pass2_event schema sd)
                  (fun ev => match ev with
                             | EvNamespace _ m => Some m
                             | _ => None
                             end)
                  (fun mid => [mid]) Hb l w) as HF;
      destruct HF as (t & Ht & HI & Hk);
      [|exists t; rewrite concat_singletons in Hk; done]
  end.
  clear w. intros mid w.
  unfold bind, ask. rewrite call_extend.
  destruct (namespace sd mid (w_heap w)) as [[ns|e] h1]; simpl;
    [|eexists [_]; split; [reflexivity|]; split; [|done];
      repeat constructor].
  destruct (module_statement sd mid h1) as [stmt|e]; simpl;
    [|eexists [_]; split; [reflexivity|]; split; [|done];
      repeat constructor].
  rewrite call_extend. simpl.
  destruct (find_all stmt "augment" h1) as [[augs|e] h2]; simpl;
    [|eexists [_; _]; rewrite <- app_assoc; split; [reflexivity|];
      split; [|done]; repeat constructor].
  match goal with
  | |- context [for_each augs ?body ?w2] =>
      pose proof (fun Hb => for_each_trace body (pass2_event schema sd)
                  (fun ev => match ev with
                             | EvNamespace _ m => Some m
                             | _ => None
                             end)
                  (fun _ => []) Hb augs w2) as HF;
      destruct HF as (t & Ht & HI & Hk)
  end.
  { intros aug w'. rewrite call_extend. simpl.
    eexists [_]. split; [reflexivity|]. split; [|done]. repeat constructor. }
  exists (EvNamespace sd mid :: EvFindAll stmt "augment" :: t).
  split; [|split].
  - rewrite Ht. simpl. by rewrite <- !app_assoc.
  - repeat constructor. exact HI.
  - intros Hr. specialize (Hk Hr). rewrite concat_nils in Hk.
    change (EvNamespace sd mid :: EvFindAll stmt "augment" :: t)
      with ([EvNamespace sd mid; EvFindAll stmt "augment"] ++ t).
    by rewrite omap_app, Hk.
Qed.

Lemma extend_heap (w : world) (h : heap) (t : list event) :
  w_heap (extend w h t) = h.
Proof. reflexivity. Qed.

(** One round of the first loop. *)
Lemma instantiate_run (schema sd : ref) (mid : ModuleId) (w : world) :
  instantiate schema sd mid w
  = match namespace sd mid (w_heap w) with
    | (Return ns, h1) =>
        match module_statement sd mid h1 with
        | Return stmt =>
            let sctx := module_context sd ns mid in
            (fst (handle_substatements schema stmt sctx h1),
             extend w (snd (handle_substatements schema stmt sctx h1))
               [EvNamespace sd mid; EvHandleSubstatements schema stmt sctx])
        | Raise e => (Raise e, extend w h1 [EvNamespace sd mid])
        end
    | (Raise e, h1) => (Raise e, extend w h1 [EvNamespace sd mid])
    end.
Proof.
  unfold instantiate. rewrite bind_run, call_extend.
  destruct (namespace sd mid (w_heap w)) as [[ns|e] h1]; cbn [fst snd];
    [|done].
  rewrite bind_run. unfold ask at 1. rewrite extend_heap.
  destruct (module_statement sd mid h1) as [stmt|e]; [|done].
  by rewrite call_extend, extend_heap, extend_extend.
Qed.

(** Every run of the first loop: the calls it makes are calls of the
    first pass, for modules of the list in their order; a run that returns
    is a pass that has come to its end, and a run that does not has made
    a call. *)
Lemma instantiate_loop (schema sd : ref) (mids : list ModuleId) (w : world) :
  exists t h,
    snd (for_each mids (instantiate schema sd) w) = extend w h t
    /\ Forall (pass1_event schema sd) t
    /\ handled t `prefix_of` mids
    /\ (fst (for_each mids (instantiate schema sd) w) = Return tt
        -> instantiated schema sd mids (w_heap w) t h)
    /\ (fst (for_each mids (instantiate schema sd) w) <> Return tt
        -> t <> []).
Proof.
  revert w. induction mids as [|mid mids IH]; intros w.
  - exists [], (w_heap w). simpl. rewrite extend_same.
    split; [done|]. split; [constructor|]. split; [apply prefix_nil|].
    split; [constructor|done].
  - cbn [for_each]. rewrite bind_run, instantiate_run.
    destruct (namespace sd mid (w_heap w)) as [[ns|e] h1] eqn:Hns;
      [|exists [EvNamespace sd mid], h1; split; [done|];
        split; [repeat constructor|]; split; [apply prefix_nil|];
        split; done].
    destruct (module_statement sd mid h1) as [stmt|e] eqn:Hst;
      [|exists [EvNamespace sd mid], h1; split; [done|];
        split; [repeat constructor|]; split; [apply prefix_nil|];
        split; done].
    cbv zeta.
    destruct (handle_substatements schema stmt (module_context sd ns mid) h1)
      as [[[]|e] h2] eqn:Hhs; cbn [fst snd].
    + destruct (IH (extend w h2
                      [EvNamespace sd mid;
                       EvHandleSubstatements schema stmt
                         (module_context sd ns mid)]))
        as (t & h & Hrun & HI & Hpre & Hret & Hne).
      rewrite extend_heap in Hret.
      exists (EvNamespace sd mid
              :: EvHandleSubstatements schema stmt (module_context sd ns mid)
              :: t), h.
      rewrite Hrun, extend_extend. split; [done|].
      split; [repeat constructor; done|].
      split; [by apply prefix_cons|].
      split; [|done].
      intros Hr. econstructor; eauto.
    + exists [EvNamespace sd mid;
              EvHandleSubstatements schema stmt (module_context sd ns mid)],
        h2.
      split; [done|]. split; [repeat constructor|].
      split; [apply prefix_cons, prefix_nil|]. split; done.
Qed.

(** A first pass that can come to its end is the run of the loop. *)
Lemma instantiated_run (schema sd : ref) (mids : list ModuleId)
  (h h' : heap) (t : list event) :
  instantiated schema sd mids h t h' ->
  forall w : world, w_heap w = h ->
  for_each mids (instantiate schema sd) w = (Return tt, extend w h' t).
Proof.
  induction 1 as [h|mid mids h h1 h2 h3 ns stmt t Hns Hst Hhs _ IH];
    intros w Hw.
  - simpl. subst h. by rewrite extend_same.
  - cbn [for_each]. rewrite bind_run, instantiate_run, Hw, Hns, Hst.
    cbv zeta. rewrite Hhs. cbn [fst snd].
    rewrite (IH _ (extend_heap _ _ _)). by rewrite extend_extend.
Qed.

Lemma apply_loop (schema sd : ref) (ns : YangIdentifier) (mid : ModuleId)
  (augs : list ref) (w : world) :
  let sctx := module_context sd ns mid in
  exists t h,
    snd (for_each augs (apply_augment schema sctx) w) = extend w h t
    /\ Forall (pass2_event schema sd) t
    /\ visited t = []
    /\ (fst (for_each augs (apply_augment schema sctx) w) = Return tt
        -> applied schema sctx augs (w_heap w) t h).
Proof.
  intros sctx. revert w. induction augs as [|aug augs IH]; intros w.
  - exists [], (w_heap w). simpl. rewrite extend_same.
    split; [done|]. split; [constructor|]. split; [done|]. constructor.
  - cbn [for_each]. rewrite bind_run. unfold apply_augment at 1 3.
    rewrite call_extend.
    destruct (augment_stmt schema aug sctx (w_heap w)) as [[[]|e] h1] eqn:Ha;
      cbn [fst snd].
    + destruct (IH (extend w h1 [EvAugmentStmt schema aug sctx]))
        as (t & h & Hrun & HI & Hv & Hret).
      rewrite extend_heap in Hret.
      exists (EvAugmentStmt schema aug sctx :: t), h.
      rewrite Hrun, extend_extend. split; [done|].
      split; [repeat constructor; done|]. split; [done|].
      intros Hr. econstructor; eauto.
    + exists [EvAugmentStmt schema aug sctx], h1.
      split; [done|]. split; [repeat constructor|]. split; done.
Qed.

Lemma applied_run (schema : ref) (sctx : SchemaContext ref)
  (augs : list ref) (h h' : heap) (t : list event) :
  applied schema sctx augs h t h' ->
  forall w : world, w_heap w = h ->
  for_each augs (apply_augment schema sctx) w = (Return tt, extend w h' t).
Proof.
  induction 1 as [h|aug augs h h1 h2 t Ha _ IH]; intros w Hw.
  - simpl. subst h. by rewrite extend_same.
  - cbn [for_each]. rewrite bind_run. unfold apply_augment at 1.
    rewrite call_extend, Hw, Ha. cbn [fst snd].
    rewrite (IH _ (extend_heap _ _ _)). by rewrite extend_extend.
Qed.

(** One round of the second loop, up to the loop over the augment
    statements found. *)
Lemma augment_run (schema sd : ref) (mid : ModuleId) (w : world) :
  augment schema sd mid w
  = match namespace sd mid (w_heap w) with
    | (Return ns, h1) =>
        match module_statement sd mid h1 with
        | Return mod_ =>
            match find_all mod_ "augment" h1 with
            | (Return augs, h2) =>
                for_each augs
                  (apply_augment schema (module_context sd ns mid))
                  (extend w h2 [EvNamespace sd mid; EvFindAll mod_ "augment"])
            | (Raise e, h2) =>
                (Raise e,
                 extend w h2 [EvNamespace sd mid; EvFindAll mod_ "augment"])
            end
        | Raise e => (Raise e, extend w h1 [EvNamespace sd mid])
        end
    | (Raise e, h1) => (Raise e, extend w h1 [EvNamespace sd mid])
    end.
Proof.
  unfold augment. rewrite bind_run, call_extend.
  destruct (namespace sd mid (w_heap w)) as [[ns|e] h1]; cbn [fst snd];
    [|done].
  rewrite bind_run. unfold ask at 1. rewrite extend_heap.
  destruct (module_statement sd mid h1) as [mod_|e]; [|done].
  rewrite bind_run, call_extend, extend_heap, extend_extend.
  by destruct (find_all mod_ "augment" h1) as [[augs|e] h2].
Qed.

(** Every run of the second loop. *)
Lemma augment_loop (schema sd : ref) (mids : list ModuleId) (w : world) :
  exists t h,
    snd (for_each mids (augment schema sd) w) = extend w h t
    /\ Forall (pass2_event schema sd) t
    /\ visited t `prefix_of` mids
    /\ (fst (for_each mids (augment schema sd) w) = Return tt
        -> augmented schema sd mids (w_heap w) t h)
    /\ (fst (for_each mids (augment schema sd) w) <> Return tt
        -> t <> []).
Proof.
  revert w. induction mids as [|mid mids IH]; intros w.
  - exists [], (w_heap w). simpl. rewrite extend_same.
    split; [done|]. split; [constructor|]. split; [apply prefix_nil|].
    split; [constructor|done].
  - cbn [for_each]. rewrite bind_run, augment_run.
    destruct (namespace sd mid (w_heap w)) as [[ns|e] h1] eqn:Hns;
      [|exists [EvNamespace sd mid], h1; split; [done|];
        split; [repeat constructor|];
        split; [apply prefix_cons, prefix_nil|]; split; done].
    destruct (module_statement sd mid h1) as [mod_|e] eqn:Hst;
      [|exists [EvNamespace sd mid], h1; split; [done|];
        split; [repeat constructor|];
        split; [apply prefix_cons, prefix_nil|]; split; done].
    destruct (find_all mod_ "augment" h1) as [[augs|e] h2] eqn:Hfa;
      [|exists [EvNamespace sd mid; EvFindAll mod_ "augment"], h2;
        split; [done|]; split; [repeat constructor|];
        split; [apply prefix_cons, prefix_nil|]; split; done].
    destruct (apply_loop schema sd ns mid augs
                (extend w h2 [EvNamespace sd mid; EvFindAll mod_ "augment"]))
      as (ta & ha & Hrun & HIa & Hva & Hreta).
    rewrite extend_heap in Hreta.
    destruct (for_each augs _ _) as [[[]|e] wa]; cbn [fst snd] in *.
    + subst wa. rewrite extend_extend.
      destruct (IH (extend w ha ([EvNamespace sd mid;
                                  EvFindAll mod_ "augment"] ++ ta)))
        as (t & h & Hrun & HI & Hpre & Hret & Hne).
      rewrite extend_heap in Hret.
      exists (EvNamespace sd mid :: EvFindAll mod_ "augment" :: ta ++ t), h.
      rewrite Hrun, !extend_extend. split; [done|].
      split; [repeat constructor; by apply Forall_app|].
      split.
      { change (visited (EvNamespace sd mid :: EvFindAll mod_ "augment"
                         :: ta ++ t))
          with (mid :: visited (ta ++ t)).
        unfold visited in *. rewrite omap_app, Hva. by apply prefix_cons. }
      split; [|done].
      intros Hr. econstructor; eauto.
    + subst wa.
      exists (EvNamespace sd mid :: EvFindAll mod_ "augment" :: ta), ha.
      rewrite extend_extend. split; [done|].
      split; [repeat constructor; done|].
      split; [|split; done].
      change (visited (EvNamespace sd mid :: EvFindAll mod_ "augment" :: ta))
        with (mid :: visited ta).
      rewrite Hva. apply prefix_cons, prefix_nil.
Qed.

Lemma augmented_run (schema sd : ref) (mids : list ModuleId)
  (h h' : heap) (t : list event) :
  augmented schema sd mids h t h' ->
  forall w : world, w_heap w = h ->
  for_each mids (augment schema sd) w = (Return tt, extend w h' t).
Proof.
  induction 1
    as [h|mid mids h h1 h2 h3 h4 ns mod_ augs t t' Hns Hst Hfa Hap _ IH];
    intros w Hw.
  - simpl. subst h. by rewrite extend_same.
  - cbn [for_each]. rewrite bind_run, augment_run, Hw, Hns, Hst, Hfa.
    rewrite (applied_run _ _ _ _ _ _ Hap _ (extend_heap _ _ _)).
    rewrite (IH _ (extend_heap _ _ _)). by rewrite !extend_extend.
Qed.

Lemma extend_inj (w : world) (h h' : heap) (t t' : list event) :
  extend w h t = extend w h' t' -> h = h' /\ t = t'.
Proof.
  intros H. split.
  - exact (f_equal w_heap H).
  - apply (f_equal w_trace) in H. simpl in H. by apply app_inv_head in H.
Qed.

Lemma pass1_run (schema sd : ref) (w : world) :
  pass1 schema sd w
  = for_each (module_sequence sd (w_heap w)) (instantiate schema sd) w.
Proof. reflexivity. Qed.

Lemma pass2_run (schema sd : ref) (w : world) :
  pass2 schema sd w
  = for_each (module_sequence sd (w_heap w)) (augment schema sd) w.
Proof. reflexivity. Qed.

(** C5. The builder runs its phases in order, and runs each of them in
    full. The calls it makes are those of the first pass ([t1]), then
    those of the second pass ([t2]), then post-processing and the
    compilation of patterns ([t3]); within a pass the modules are taken in
    the order of the module sequence. Order: a call of the second pass or
    of a later phase is made only when the first pass has come to its end,
    with every module of the sequence instantiated, and post-processing is
    called only when the second pass has come to its end too, with every
    augment statement found in every module of the sequence applied.
    Progress: when the methods called by the first pass return, the builder
    makes all the calls of that pass and goes on; when those called by the
    second pass return as well, it makes all of them and calls
    post-processing; and when post-processing and the compilation of
    patterns return, the builder returns. *)
Theorem build_schema_phases (schema sd : ref) (w : world) :
  exists t1 t2 t3 : list event,
    w_trace (snd (_build_schema schema sd w)) = w_trace w ++ t1 ++ t2 ++ t3
    /\ Forall (pass1_event schema sd) t1
    /\ Forall (pass2_event schema sd) t2
    /\ t3 `prefix_of` [EvPostProcess schema; EvMakeSchemaPatterns schema]
    /\ handled t1 `prefix_of` module_sequence sd (w_heap w)
    /\ (t2 ++ t3 <> []
        -> exists h1,
             instantiated schema sd (module_sequence sd (w_heap w))
               (w_heap w) t1 h1
             /\ visited t2 `prefix_of` module_sequence sd h1)
    /\ (t3 <> []
        -> exists h1 h2,
             instantiated schema sd (module_sequence sd (w_heap w))
               (w_heap w) t1 h1
             /\ augmented schema sd (module_sequence sd h1) h1 t2 h2)
    /\ (forall t h1,
          instantiated schema sd (module_sequence sd (w_heap w))
            (w_heap w) t h1
          -> t1 = t /\ t2 ++ t3 <> [])
    /\ (forall h1 t h2,
          instantiated schema sd (module_sequence sd (w_heap w))
            (w_heap w) t1 h1
          -> augmented schema sd (module_sequence sd h1) h1 t h2
          -> t2 = t /\ t3 <> [])
    /\ (forall h1 h2 h3 h4,
          instantiated schema sd (module_sequence sd (w_heap w))
            (w_heap w) t1 h1
          -> augmented schema sd (module_sequence sd h1) h1 t2 h2
          -> post_process schema h2 = (Return tt, h3)
          -> make_schema_patterns schema h3 = (Return tt, h4)
          -> _build_schema schema sd w
             = (Return tt,
                extend w h4
                  (t1 ++ t2
                   ++ [EvPostProcess schema; EvMakeSchemaPatterns schema])))
    /\ (fst (_build_schema schema sd w) = Return tt
        -> t3 = [EvPostProcess schema; EvMakeSchemaPatterns schema]).
Proof.
  rewrite build_schema_passes, bind_run, pass1_run.
  destruct (instantiate_loop schema sd (module_sequence sd (w_heap w)) w)
    as (t1 & h1 & Hrun1 & HI1 & Hpre1 & Hret1 & Hne1).
  destruct (for_each _ (instantiate schema sd) w) as [[[]|e] w1] eqn:E1;
    cbn [fst snd] in *; subst w1.
  2:{ exists t1, [], []. rewrite !app_nil_r.
      split; [done|]. split; [done|]. split; [constructor|].
      split; [apply prefix_nil|]. split; [done|].
      split; [done|]. split; [done|].
      split; [|split; [|split; [|done]]].
      - intros t h1' Hi.
        rewrite (instantiated_run _ _ _ _ _ _ Hi w eq_refl) in E1. done.
      - intros h1' t h2 Hi _.
        rewrite (instantiated_run _ _ _ _ _ _ Hi w eq_refl) in E1. done.
      - intros h1' h2 h3 h4 Hi _ _ _.
        rewrite (instantiated_run _ _ _ _ _ _ Hi w eq_refl) in E1. done. }
  specialize (Hret1 eq_refl).
  assert (Hsame1 : forall t h1',
            instantiated schema sd (module_sequence sd (w_heap w))
              (w_heap w) t h1' -> h1' = h1 /\ t = t1).
  { intros t h1' Hi.
    rewrite (instantiated_run _ _ _ _ _ _ Hi w eq_refl) in E1.
    apply (f_equal snd) in E1. cbn [snd] in E1. by apply extend_inj in E1. }
  rewrite bind_run, pass2_run, extend_heap.
  destruct (augment_loop schema sd (module_sequence sd h1) (extend w h1 t1))
    as (t2 & h2 & Hrun2 & HI2 & Hpre2 & Hret2 & Hne2).
  rewrite extend_heap in Hret2.
  destruct (for_each _ (augment schema sd) _) as [[[]|e] w2] eqn:E2;
    cbn [fst snd] in *; subst w2.
  2:{ specialize (Hne2 ltac:(done)).
      exists t1, t2, []. rewrite !app_nil_r, extend_extend.
      split; [done|]. split; [done|]. split; [done|].
      split; [apply prefix_nil|]. split; [done|].
      split; [by exists h1|]. split; [done|].
      split; [|split; [|split; [|done]]].
      - intros t h1' Hi. by destruct (Hsame1 _ _ Hi) as [_ ->].
      - intros h1' t h2' Hi Ha. destruct (Hsame1 _ _ Hi) as [-> _].
        rewrite (augmented_run _ _ _ _ _ _ Ha _ (extend_heap _ _ _)) in E2.
        done.
      - intros h1' h2' h3 h4 Hi Ha _ _. destruct (Hsame1 _ _ Hi) as [-> _].
        rewrite (augmented_run _ _ _ _ _ _ Ha _ (extend_heap _ _ _)) in E2.
        done. }
  specialize (Hret2 eq_refl).
  assert (Hsame2 : forall t h2',
            augmented schema sd (module_sequence sd h1) h1 t h2'
            -> h2' = h2 /\ t = t2).
  { intros t h2' Ha.
    rewrite (augmented_run _ _ _ _ _ _ Ha _ (extend_heap _ _ _)) in E2.
    apply (f_equal snd) in E2. cbn [snd] in E2. by apply extend_inj in E2. }
  rewrite extend_extend, bind_run, call_extend, extend_heap.
  destruct (post_process schema h2) as [[[]|e] h3] eqn:Hpp; cbn [fst snd].
  2:{ exists t1, t2, [EvPostProcess schema]. rewrite extend_extend.
      split; [by rewrite <- !app_assoc|]. split; [done|]. split; [done|].
      split; [by exists [EvMakeSchemaPatterns schema]|]. split; [done|].
      split; [by exists h1|]. split; [by exists h1, h2|].
      split; [|split; [|split; [|done]]].
      - intros t h1' Hi. destruct (Hsame1 _ _ Hi) as [_ ->].
        split; [done|]. by destruct t2.
      - intros h1' t h2' Hi Ha. destruct (Hsame1 _ _ Hi) as [-> _].
        by destruct (Hsame2 _ _ Ha) as [_ ->].
      - intros h1' h2' h3' h4 Hi Ha Hpp' _.
        destruct (Hsame1 _ _ Hi) as [-> _].
        destruct (Hsame2 _ _ Ha) as [-> _]. congruence. }
  exists t1, t2, [EvPostProcess schema; EvMakeSchemaPatterns schema].
  rewrite call_extend, !extend_extend, extend_heap. cbn [fst snd].
  split; [by rewrite <- !app_assoc|]. split; [done|]. split; [done|].
  split; [done|]. split; [done|].
  split; [by exists h1|]. split; [by exists h1, h2|].
  split; [|split; [|split; [|done]]].
  - intros t h1' Hi. destruct (Hsame1 _ _ Hi) as [_ ->].
    split; [done|]. by destruct t2.
  - intros h1' t h2' Hi Ha. destruct (Hsame1 _ _ Hi) as [-> _].
    by destruct (Hsame2 _ _ Ha) as [_ ->].
  - intros h1' h2' h3' h4 Hi Ha Hpp' Hmsp.
    destruct (Hsame1 _ _ Hi) as [-> _].
    destruct (Hsame2 _ _ Ha) as [-> _].
    rewrite Hpp in Hpp'. injection Hpp' as <-. rewrite Hmsp.
    by rewrite <- !app_assoc.
Qed.

End Proofs.
End BuilderSpec.

(** ** The data model *)

Module DataModelSpec.
Import Constants Py Yangson Datamodel Observe Facts.

Section Proofs.
Context {ref heap route : Type} {env : Absent ref heap route}.

(** C10. [content_id] gives the text TODO for every data model, so any
    two data models get equal ids; the text is not made of hexadecimal
    digits. *)
Theorem content_id_is_todo (dm1 dm2 : DataModel ref) :
  content_id dm1 = "TODO"
  /\ content_id dm1 = content_id dm2
  /\ hex_digits (content_id dm1) = false.
Proof. repeat split. Qed.

(** C3. A data model that is built has two datastores and no other: the
    one named config, of content type [config], and the one named
    operational, of content type [all]; both refer to the same schema tree
    object and to the same schema data object. *)
Theorem datastores_share_schema
  (yltxt : string) (mod_path : list string) (desc : option string)
  (w w' : world ref heap) (dm : DataModel ref) :
  DataModel_init yltxt mod_path desc w = (Return dm, w') ->
  exists c o : Datastore ref,
    datastores dm !! "config" = Some c
    /\ datastores dm !! "operational" = Some o
    /\ dom (datastores dm) = {[ "config"; "operational" ]}
    /\ size (datastores dm) = 2
    /\ content_type c = config
    /\ content_type o = all
    /\ schema c = schema o
    /\ schema_data c = schema_data o.
Proof.
  unfold DataModel_init. rewrite bind_run. unfold try_except, lift.
  destruct (json_loads yltxt) as [lib|e].
  2:{ case_bool_decide; unfold raise; discriminate. }
  rewrite bind_run. destruct (py_in marker lib) as [[]|e];
    [|unfold raise; discriminate|discriminate].
  rewrite bind_run, call_extend.
  destruct (SchemaTreeNode_new (w_heap w)) as [[root|e] h1];
    [|discriminate].
  simpl. rewrite bind_run, call_extend.
  destruct (SchemaData_new lib mod_path _) as [[sdata|e] h2];
    [|discriminate].
  simpl. rewrite bind_run.
  destruct (_build_schema root sdata _) as [[[]|e] w2]; [|discriminate].
  unfold ret. intros [= <- <-]. simpl.
  eexists _, _. split; [by simplify_map_eq|]. split; [by simplify_map_eq|].
  split; [|split; [|done]].
  - rewrite !dom_insert_L. set_solver.
  - rewrite map_size_insert_None by by simplify_map_eq.
    by rewrite map_size_insert_None, map_size_empty.
Qed.

(** C2, as the code has it. A text that the decoder rejects and a text
    that decodes to a value in which the test for the member
    [ietf-yang-library:modules-state] gives false (a dictionary without
    that key) both make the constructor raise an exception of the one class
    [BadYangLibraryData]. The two differ in the message: the text of the
    decoding error in the first case, the words top-level member not
    recognized in the second, and these are never equal. In both cases no
    object is made. *)
Theorem invalid_library_one_kind
  (t1 t2 : string) (mp1 mp2 : list string) (d1 d2 : option string)
  (w1 w2 : world ref heap) (msg doc : string) (pos : nat) (v : pyjson) :
  json_loads t1 = Raise (JSONDecodeError msg doc pos) ->
  json_loads t2 = Return v ->
  py_in marker v = Return false ->
  DataModel_init t1 mp1 d1 w1
  = (Raise (Exc BadYangLibraryData (str (JSONDecodeError msg doc pos))), w1)
  /\ DataModel_init t2 mp2 d2 w2
     = (Raise (Exc BadYangLibraryData "top-level member not recognized"), w2)
  /\ str (JSONDecodeError msg doc pos) <> "top-level member not recognized".
Proof.
  intros H1 H2 Hm. split; [|split].
  - unfold DataModel_init. rewrite bind_run. unfold try_except, lift.
    by rewrite H1.
  - unfold DataModel_init. rewrite bind_run. unfold try_except, lift.
    by rewrite H2, bind_run, Hm.
  - intros Heq. pose proof (str_decode_error_last msg doc pos) as Hl.
    rewrite Heq in Hl. discriminate.
Qed.

End Proofs.
End DataModelSpec.

(** ** Token patterns *)

Module TokenSpec.
Import Re Constants Observe.

(** A repetition takes the whole run of characters of its class when what
    follows the run does not start with one and matches the rest. *)
Lemma star_greedy {R : Type} (p : ascii -> bool) (run rest : text)
  (k : text -> option R) (r : R) :
  forallb p run = true ->
  match rest with c :: _ => p c = false | [] => True end ->
  k rest = Some r ->
  star p (run ++ rest) k = Some r.
Proof.
  intros Hrun Hrest Hk. induction run as [|c run IH]; simpl in *.
  - destruct rest as [|c rest]; [done|]. simpl. by rewrite Hrest.
  - apply andb_prop in Hrun as [-> Hrun]. by rewrite IH.
Qed.

Lemma consumed_app (a b : text) :
  consumed (a ++ b) b = string_of_list_ascii a.
Proof.
  unfold consumed. f_equal. rewrite length_app.
  replace (length a + length b - length b) with (length a) by lia.
  by rewrite firstn_app, Nat.sub_diag, firstn_all, app_nil_r.
Qed.

(** A digit, a space or the closing bracket does not start a name. *)
Lemma after_bracket_no_name (c : ascii) :
  after_bracket c = true -> ident_start c = false /\ is_chr "." c = false.
Proof.
  destruct c as [[] [] [] [] [] [] [] []]; vm_compute; intuition congruence.
Qed.

Lemma digit_no_space (c : ascii) : digit c = true -> space c = false.
Proof. destruct c as [[] [] [] [] [] [] [] []]; vm_compute; congruence. Qed.

Lemma space_no_digit (c : ascii) : space c = true -> digit c = false.
Proof. destruct c as [[] [] [] [] [] [] [] []]; vm_compute; congruence. Qed.

(** The equations of the matcher. *)
Lemma bt_seq {R : Type} (r1 r2 : regex) (s : text) (g : groups)
  (k : text -> groups -> option R) :
  bt (Seq r1 r2) s g k = bt r1 s g (fun s' g' => bt r2 s' g' k).
Proof. reflexivity. Qed.

Lemma bt_alt_right {R : Type} (r1 r2 : regex) (s : text) (g : groups)
  (k : text -> groups -> option R) :
  bt r1 s g k = None -> bt (Alt r1 r2) s g k = bt r2 s g k.
Proof. intros H. simpl. by rewrite H. Qed.

Lemma bt_star {R : Type} (p : ascii -> bool) (s : text) (g : groups)
  (k : text -> groups -> option R) :
  bt (Star p) s g k = star p s (fun s' => k s' g).
Proof. reflexivity. Qed.

Lemma bt_group {R : Type} (name : string) (r : regex) (s : text)
  (g : groups) (k : text -> groups -> option R) :
  bt (Group name r) s g k
  = bt r s g (fun s' g' => k s' ((name, consumed s s') :: g')).
Proof. reflexivity. Qed.

Lemma bt_chr {R : Type} (c : ascii) (s : text) (g : groups)
  (k : text -> groups -> option R) :
  bt (Chr c) (c :: s) g k = k s g.
Proof. simpl. by rewrite Ascii.eqb_refl. Qed.

(** The alternative with a name or a dot fails on a text that starts with
    a digit, a space or the closing bracket. *)
Lemma pred_key_fails {R : Type} (c : ascii) (s : text) (g : groups)
  (k : text -> groups -> option R) :
  after_bracket c = true -> bt pred_key (c :: s) g k = None.
Proof.
  intros H. apply after_bracket_no_name in H as [Hi Hd].
  unfold is_chr in Hd. unfold pred_key, _pname, _ident. cbn [seqs bt].
  by rewrite Hi, Hd.
Qed.

(** Spaces and the closing bracket. *)
Lemma close_bracket {R : Type} (ws rest : text) (g : groups)
  (k : text -> groups -> option R) (r : R) :
  forallb space ws = true ->
  k rest g = Some r ->
  bt (Seq (Star space) (Chr "]")) (ws ++ "]"%char :: rest) g k = Some r.
Proof.
  intros Hws Hk. rewrite bt_seq, bt_star.
  apply star_greedy; [done|done|]. by rewrite bt_chr.
Qed.

(** Digits, spaces and the closing bracket: the group [pos] gets the
    digits. *)
Lemma positional_tail {R : Type} (ds ws rest : text)
  (k : text -> groups -> option R) (r : R) :
  forallb digit ds = true ->
  forallb space ws = true ->
  k rest [("pos", string_of_list_ascii ds)] = Some r ->
  bt (Seq pred_pos (Seq (Star space) (Chr "]")))
    (ds ++ ws ++ "]"%char :: rest) [] k = Some r.
Proof.
  intros Hds Hws Hk. unfold pred_pos. rewrite bt_seq, bt_group, bt_star.
  apply star_greedy; [done| |].
  - destruct ws as [|c ws]; [done|]. simpl in Hws.
    apply andb_prop in Hws as [Hc _]. by apply space_no_digit.
  - rewrite consumed_app. by apply close_bracket.
Qed.

(** The positional alternative takes any run of digits, the empty run
    included: a text that starts with an opening bracket, spaces, digits,
    spaces and a closing bracket is matched up to that bracket, and the
    group [pos] holds the digits. *)
Lemma pred_re_positional (ws1 ds ws2 rest : text) :
  forallb space ws1 = true ->
  forallb digit ds = true ->
  forallb space ws2 = true ->
  re_match pred_re
    (string_of_list_ascii ("["%char :: ws1 ++ ds ++ ws2 ++ "]"%char :: rest))
  = Some {| matched :=
              string_of_list_ascii
                ("["%char :: ws1 ++ ds ++ ws2 ++ ["]"%char]);
            named := [("pos", string_of_list_ascii ds)] |}.
Proof.
  intros H1 Hd H2. unfold re_match.
  rewrite list_ascii_of_string_of_list_ascii.
  set (whole := "["%char :: ws1 ++ ds ++ ws2 ++ "]"%char :: rest).
  set (k := fun (t' : text) (g : groups) =>
              Some {| matched := consumed whole t'; named := g |}).
  set (m := {| matched := string_of_list_ascii
                            ("["%char :: ws1 ++ ds ++ ws2 ++ ["]"%char]);
               named := [("pos", string_of_list_ascii ds)] |}).
  assert (Hk : k rest [("pos", string_of_list_ascii ds)] = Some m).
  { unfold k, m, whole. do 2 f_equal.
    rewrite <- (consumed_app ("["%char :: ws1 ++ ds ++ ws2 ++ ["]"%char]) rest).
    f_equal. simpl. f_equal. by rewrite <- !app_assoc. }
  change pred_re
    with (Seq (Chr "[")
            (Seq (Star space)
               (Seq (Alt pred_key pred_pos)
                  (Seq (Star space) (Chr "]"))))).
  unfold whole at 1. rewrite bt_seq, bt_chr, bt_seq, bt_star.
  destruct ds as [|d ds].
  - (* no digit: the first repetition takes both runs of spaces *)
    simpl app. rewrite app_assoc.
    apply star_greedy; [by rewrite forallb_app, H1, H2|done|].
    rewrite bt_seq, bt_alt_right by by apply pred_key_fails.
    rewrite <- bt_seq.
    by apply (positional_tail [] [] rest).
  - apply star_greedy; [done| |].
    + simpl in Hd. apply andb_prop in Hd as [Hd _]. by apply digit_no_space.
    + assert (Ha : after_bracket d = true).
      { simpl in Hd. apply andb_prop in Hd as [Hd _].
        unfold after_bracket. by rewrite Hd. }
      simpl app.
      rewrite bt_seq, bt_alt_right by by apply pred_key_fails.
      rewrite <- bt_seq.
      by apply (positional_tail (d :: ds) ws2 rest).
Qed.

(** C6. The pattern [pred_re] matches a pair of brackets with no digit
    between them: on the texts of an empty pair and of a pair around one
    space the match succeeds through the positional alternative, whose
    group [pos] holds the empty text. The pattern [integer_re] does not
    match the empty text. *)
Theorem pred_re_matches_empty_position :
  (exists m : match_obj,
      re_match pred_re "[]" = Some m
      /\ matched m = "[]" /\ group "pos" (named m) = Some "")
  /\ (exists m : match_obj,
        re_match pred_re "[ ]" = Some m
        /\ matched m = "[ ]" /\ group "pos" (named m) = Some "")
  /\ re_match integer_re "" = None.
Proof. split; [|split]; [eexists; by repeat split..|done]. Qed.

End TokenSpec.

(** ** The script *)

Module MainSpec.
Import Constants Py Yangson Datamodel JsonSchema Observe Facts.
Local Open Scope py_scope.

Section Proofs.
Context {ref heap route : Type} {env : Absent ref heap route}.
Variable walk : pyval (ref := ref) -> M ref heap unit.

(** What [main] does once the library file is read: it builds the model
    with the search path split at the colons; an exception of a class with
    a clause ends it with the code 2, and a model that is built takes it to
    the lookup of an attribute the model does not have. *)
Lemma main_after_read (ylib : string) (path : option string)
  (w : world ref heap) (yl : string) :
  read_file ylib (w_heap w) = Return yl ->
  main walk (Some ylib) path w
  = match DataModel_init yl (split ":" (search_path path (w_heap w))) None w
    with
    | (Return dm, w1) =>
        (Raise (Exc AttributeError
                  "'DataModel' object has no attribute 'schema'"), w1)
    | (Raise e, w1) =>
        match clause_of (class_of e) model_errors with
        | Some label =>
            (Return 2%Z, with_error_line w1 (label +:+ " " +:+ str e))
        | None => (Raise e, w1)
        end
    end.
Proof.
  intros Hread. unfold main. rewrite bind_run. unfold ret at 1.
  cbv beta iota zeta delta [fst snd].
  rewrite bind_run. unfold try_except at 1. rewrite bind_run.
  unfold ask at 1. rewrite Hread. unfold ret at 1.
  rewrite bind_run. unfold ask at 1. rewrite bind_run.
  unfold try_except. rewrite bind_run.
  destruct (DataModel_init _ _ _ w) as [[dm|e] w1].
  - unfold ret at 1. rewrite bind_run. reflexivity.
  - destruct (clause_of (class_of e) model_errors) as [label|]; [|done].
    rewrite bind_run. reflexivity.
Qed.

(** C7, as the code has it. When building the model raises an exception
    of one of the five classes that [main] catches there, [main] prints one
    line to the error stream, made of the text of the clause of that class
    and the message of the exception, and returns the exit code 2: one code
    for the five classes, which the texts of the clauses, all different,
    tell apart. *)
Theorem build_errors_exit_code_2 (ylib : string) (path : option string)
  (w w1 : world ref heap) (yl : string) (e : exn) :
  read_file ylib (w_heap w) = Return yl ->
  DataModel_init yl (split ":" (search_path path (w_heap w))) None w
  = (Raise e, w1) ->
  class_of e ∈ build_error_kinds ->
  exists label : string,
    (class_of e, label) ∈ model_errors
    /\ NoDup (map snd model_errors)
    /\ main walk (Some ylib) path w
       = (Return 2%Z, with_error_line w1 (label +:+ " " +:+ str e)).
Proof.
  intros Hread Hinit Hkind.
  assert (Hlabels : NoDup (map snd model_errors)).
  { apply (bool_decide_unpack _). by vm_compute. }
  rewrite (main_after_read _ _ _ _ Hread), Hinit.
  unfold build_error_kinds, model_errors in *. simpl in Hkind.
  rewrite !elem_of_cons in Hkind.
  destruct Hkind as [->|[->|[->|[->|[->|H]]]]];
    [| | | | |by apply elem_of_nil in H];
    eexists; (split; [|split; [exact Hlabels|reflexivity]]);
    rewrite !elem_of_cons; auto 10.
Qed.

(** C9, what the code does. Once the model is built, [main] looks up the
    attribute [schema] of the [DataModel], which has none: it raises
    [AttributeError], calls [walk] on nothing, prints nothing and returns
    no exit code. *)
Theorem main_raises_after_build (ylib : string) (path : option string)
  (w w1 : world ref heap) (yl : string) (dm : DataModel ref) :
  read_file ylib (w_heap w) = Return yl ->
  DataModel_init yl (split ":" (search_path path (w_heap w))) None w
  = (Return dm, w1) ->
  main walk (Some ylib) path w
  = (Raise (Exc AttributeError "'DataModel' object has no attribute 'schema'"),
     w1).
Proof.
  intros Hread Hinit. by rewrite (main_after_read _ _ _ _ Hread), Hinit.
Qed.

End Proofs.
End MainSpec.

(** ** Runs in the small environment *)

Module Runs.
Import Re Constants Py Yangson Datamodel JsonSchema Observe.
Import DatastoreSpec DataModelSpec MainSpec.

(** The route of the path [/interfaces/mtu/x] is left at its second step:
    the root has the child [interfaces], which has no child [mtu]. *)
Lemma get_data_node_stops_run :
  get_data_node (env := Demo.absent) (Datastore_init 0 1 None)
    "/interfaces/mtu/x" Demo.one_child
  = (Return None,
     extend Demo.one_child (w_heap Demo.one_child)
       [EvPath2Route 1 "/interfaces/mtu/x";
        EvGetDataChild 0 "interfaces" "";
        EvGetDataChild 2 "mtu" ""])
  /\ length [EvGetDataChild 0 "interfaces" ""] = 1.
Proof.
  apply (get_data_node_stops_at_missing_child (env := Demo.absent)
           (Datastore_init 0 1 None) "/interfaces/mtu/x" Demo.one_child
           [("interfaces", ""); ("mtu", ""); ("x", "")]
           [("interfaces", "")] [("x", "")] ("mtu", "")
           (w_heap Demo.one_child) (w_heap Demo.one_child)
           (w_heap Demo.one_child) 2 [EvGetDataChild 0 "interfaces" ""]);
    reflexivity.
Defined.

(** The library that lists no module gives the two datastores over the
    objects 0 and 1. *)
Lemma datastores_share_schema_run :
  exists c o : Datastore nat,
    datastores Demo.built_model !! "config" = Some c
    /\ datastores Demo.built_model !! "operational" = Some o
    /\ dom (datastores Demo.built_model) = {[ "config"; "operational" ]}
    /\ size (datastores Demo.built_model) = 2
    /\ content_type c = config
    /\ content_type o = all
    /\ schema c = schema o
    /\ schema_data c = schema_data o.
Proof.
  apply (datastores_share_schema (env := Demo.absent)
           Demo.empty_library ["."] None (Demo.start [])
           (snd (DataModel_init (env := Demo.absent)
                   Demo.empty_library ["."] None (Demo.start [])))
           Demo.built_model).
  vm_compute. reflexivity.
Defined.

(** A text that is not JSON and a dictionary without the marker, in the
    small environment. *)
Lemma invalid_library_one_kind_run :
  DataModel_init (env := Demo.absent) "{" ["."] None (Demo.start [])
  = (Raise (Exc BadYangLibraryData
              (str (JSONDecodeError
                      "Expecting property name enclosed in double quotes"
                      "{" 1))),
     Demo.start [])
  /\ DataModel_init (env := Demo.absent) "{}" ["."] None (Demo.start [])
     = (Raise (Exc BadYangLibraryData "top-level member not recognized"),
        Demo.start [])
  /\ str (JSONDecodeError
            "Expecting property name enclosed in double quotes" "{" 1)
     <> "top-level member not recognized".
Proof.
  apply (invalid_library_one_kind (env := Demo.absent)
           "{" "{}" ["."] ["."] None None (Demo.start []) (Demo.start [])
           "Expecting property name enclosed in double quotes" "{" 1
           (JDict []));
    reflexivity.
Defined.

(** C2, as stated, fails. The text of one opening brace is not JSON, the
    text of an empty pair of braces is a dictionary without the marker, and
    the constructor raises for both an exception of the class
    [BadYangLibraryData]: the two failures are not of distinct classes. *)
Lemma malformed_and_unrecognized_same_class :
  let r1 := fst (DataModel_init (env := Demo.absent)
                   "{" ["."] None (Demo.start [])) in
  let r2 := fst (DataModel_init (env := Demo.absent)
                   "{}" ["."] None (Demo.start [])) in
  Json.loads "{"
  = Raise (JSONDecodeError
             "Expecting property name enclosed in double quotes" "{" 1)
  /\ Json.loads "{}" = Return (JDict [])
  /\ r1 = Raise (Exc BadYangLibraryData
                   "Expecting property name enclosed in double quotes: line 1 column 2 (char 1)")
  /\ r2 = Raise (Exc BadYangLibraryData "top-level member not recognized")
  /\ ~ (exists x1 x2 : exn,
          r1 = Raise x1 /\ r2 = Raise x2 /\ class_of x1 <> class_of x2).
Proof.
  cbv zeta. repeat split; try reflexivity.
  intros (x1 & x2 & H1 & H2 & Hne). vm_compute in H1, H2.
  inversion H1; inversion H2; subst. by apply Hne.
Qed.

(** The library file holds one opening brace: [main] prints the message
    of [BadYangLibraryData] and returns 2. *)
Lemma build_errors_exit_code_2_run :
  exists label : string,
    (BadYangLibraryData, label) ∈ model_errors
    /\ NoDup (map snd model_errors)
    /\ main (env := Demo.absent) Demo.silent_walk (Some "lib.json") None
         (Demo.start [("lib.json", "{")])
       = (Return 2%Z,
          with_error_line (Demo.start [("lib.json", "{")])
            (label +:+ " " +:+
             "Expecting property name enclosed in double quotes: line 1 column 2 (char 1)")).
Proof.
  apply (build_errors_exit_code_2 (env := Demo.absent) Demo.silent_walk
           "lib.json" None (Demo.start [("lib.json", "{")])
           (Demo.start [("lib.json", "{")]) "{"
           (Exc BadYangLibraryData
              "Expecting property name enclosed in double quotes: line 1 column 2 (char 1)")).
  - reflexivity.
  - reflexivity.
  - vm_compute. apply list_elem_of_here.
Defined.

(** C7, as stated, fails. A library file that is not JSON makes the
    constructor raise [BadYangLibraryData], one that lists a module which
    cannot be found makes it raise [ModuleNotFound]: two different classes,
    and [main] returns the exit code 2 for both. *)
Lemma two_kinds_one_exit_code :
  let w1 := Demo.start [("lib.json", "{")] in
  let w2 := Demo.start [("lib.json", Demo.one_module_library)] in
  exists e1 e2 : exn,
    fst (DataModel_init (env := Demo.absent) "{" ["."] None w1) = Raise e1
    /\ fst (DataModel_init (env := Demo.absent)
              Demo.one_module_library ["."] None w2) = Raise e2
    /\ class_of e1 = BadYangLibraryData
    /\ class_of e2 = ModuleNotFound
    /\ class_of e1 <> class_of e2
    /\ fst (main (env := Demo.absent) Demo.silent_walk
              (Some "lib.json") None w1) = Return 2%Z
    /\ fst (main (env := Demo.absent) Demo.silent_walk
              (Some "lib.json") None w2) = Return 2%Z.
Proof.
  cbv zeta.
  exists (Exc BadYangLibraryData
            "Expecting property name enclosed in double quotes: line 1 column 2 (char 1)"),
         (Exc ModuleNotFound "example").
  repeat split; try (vm_compute; reflexivity). discriminate.
Qed.

(** The library file lists no module: the model is built and [main]
    ends with [AttributeError]. *)
Lemma main_raises_after_build_run :
  main (env := Demo.absent) Demo.silent_walk (Some "lib.json") None
    (Demo.start [("lib.json", Demo.empty_library)])
  = (Raise (Exc AttributeError "'DataModel' object has no attribute 'schema'"),
     snd (DataModel_init (env := Demo.absent) Demo.empty_library ["."] None
            (Demo.start [("lib.json", Demo.empty_library)]))).
Proof.
  apply (main_raises_after_build (env := Demo.absent) Demo.silent_walk
           "lib.json" None (Demo.start [("lib.json", Demo.empty_library)])
           _ Demo.empty_library Demo.built_model).
  - reflexivity.
  - vm_compute. reflexivity.
Defined.

(** The digest of the tree without nodes, for a datastore of either
    content type. *)
Example empty_tree_digest :
  fst (schema_digest (env := Demo.absent) (Datastore_init 0 1 (Some all))
         (Demo.start []))
  = Return (Demo.json_text
              "{'kind': 'schematree', 'children': {}, 'config': true}")
  /\ fst (schema_digest (env := Demo.absent) (Datastore_init 0 1 None)
            (Demo.start []))
     = Return (Demo.json_text
                 "{'kind': 'schematree', 'children': {}, 'config': true}").
Proof. split; reflexivity. Qed.

End Runs.

(** ** Runs of the builder over two modules *)

Module BuildRuns.
Import Constants Py Yangson Datamodel Observe.

(** Every call returns: both modules are instantiated, then the three
    augment statements are applied, then the tree is post-processed and
    its patterns are made. *)
Example build_two_modules :
  let run := _build_schema (env := BuildDemo.absent []) 0 1 (Demo.start []) in
  fst run = Return tt
  /\ w_trace (snd run)
     = [EvNamespace 1 BuildDemo.module_a;
        EvHandleSubstatements 0 10 (BuildDemo.context_a 1);
        EvNamespace 1 BuildDemo.module_b;
        EvHandleSubstatements 0 20 (BuildDemo.context_b 1);
        EvNamespace 1 BuildDemo.module_a;
        EvFindAll 10 "augment";
        EvAugmentStmt 0 11 (BuildDemo.context_a 1);
        EvNamespace 1 BuildDemo.module_b;
        EvFindAll 20 "augment";
        EvAugmentStmt 0 21 (BuildDemo.context_b 1);
        EvAugmentStmt 0 22 (BuildDemo.context_b 1);
        EvPostProcess 0;
        EvMakeSchemaPatterns 0]
  /\ Demo.children (w_heap (snd run))
     = [(0, "a", 10); (0, "b", 20); (0, "augmented", 11);
        (0, "augmented", 21); (0, "augmented", 22)].
Proof. repeat split. Qed.

(** The first augment statement of the second module cannot be applied:
    the builder ends there, with the exception, and neither the statement
    after it is applied nor the tree post-processed. *)
Example build_stops_at_augment :
  let run :=
    _build_schema (env := BuildDemo.absent [21]) 0 1 (Demo.start []) in
  fst run = Raise (Exc SchemaError "augment")
  /\ w_trace (snd run)
     = [EvNamespace 1 BuildDemo.module_a;
        EvHandleSubstatements 0 10 (BuildDemo.context_a 1);
        EvNamespace 1 BuildDemo.module_b;
        EvHandleSubstatements 0 20 (BuildDemo.context_b 1);
        EvNamespace 1 BuildDemo.module_a;
        EvFindAll 10 "augment";
        EvAugmentStmt 0 11 (BuildDemo.context_a 1);
        EvNamespace 1 BuildDemo.module_b;
        EvFindAll 20 "augment";
        EvAugmentStmt 0 21 (BuildDemo.context_b 1)].
Proof. repeat split. Qed.

End BuildRuns.

(** ** What the token patterns match *)

Module PatternSpec.
Import Re Constants Observe TokenSpec Scan.

Lemma run_after (p : ascii -> bool) (l : text) : run p l ++ after p l = l.
Proof.
  induction l as [|c l IH]; simpl; [done|].
  destruct (p c); simpl; [by rewrite IH|done].
Qed.

Lemma after_head (p : ascii -> bool) (l : text) :
  match after p l with c :: _ => p c = false | [] => True end.
Proof.
  induction l as [|c l IH]; simpl; [done|].
  destruct (p c) eqn:E; [done|]. simpl. done.
Qed.

Lemma run_all (p : ascii -> bool) (l : text) : forallb p (run p l) = true.
Proof.
  induction l as [|c l IH]; simpl; [done|].
  destruct (p c) eqn:E; simpl; [by rewrite E|done].
Qed.

(** A repetition whose continuation accepts what follows the longest run
    takes the longest run. *)
Lemma star_run {R : Type} (p : ascii -> bool) (l : text)
  (k : text -> option R) (r : R) :
  k (after p l) = Some r -> star p l k = Some r.
Proof.
  intros Hk. rewrite <- (run_after p l) at 1.
  apply star_greedy; [apply run_all|apply after_head|done].
Qed.

Lemma consumed_run (p : ascii -> bool) (pre l : text) :
  consumed (pre ++ l) (after p l) = string_of_list_ascii (pre ++ run p l).
Proof.
  rewrite <- (run_after p l) at 1. rewrite app_assoc. apply consumed_app.
Qed.

(** X1. [integer_re] matches a text exactly when the text starts with a
    digit, and the text matched is then the longest run of digits at its
    head. *)
Theorem integer_re_longest_digits (s : string) :
  re_match integer_re s
  = match run digit (list_ascii_of_string s) with
    | [] => None
    | ds => Some (plain_match ds)
    end.
Proof.
  unfold re_match, integer_re, _integer.
  destruct (list_ascii_of_string s) as [|c l]; [done|]. cbn [bt run].
  destruct (digit c); [|done].
  erewrite star_run; [|reflexivity].
  unfold plain_match. do 2 f_equal.
  apply (consumed_run digit [c] l).
Qed.

(** X2. [ws_re] matches every text: the text matched is the longest run
    of spaces, newlines, tabs and carriage returns at its head, which may be
    empty. *)
Theorem ws_re_always_matches (s : string) :
  re_match ws_re s
  = Some (plain_match (run ws_char (list_ascii_of_string s))).
Proof.
  unfold re_match, ws_re. rewrite bt_star.
  erewrite star_run; [|reflexivity].
  unfold plain_match. do 2 f_equal.
  apply (consumed_run ws_char [] _).
Qed.

(** X3. [ident_re] matches a text exactly when the text starts with a
    letter or an underscore; the text matched is that character and the
    longest run of letters, digits, underscores, dots and hyphens after
    it. *)
Theorem ident_re_longest_name (s : string) :
  re_match ident_re s
  = match list_ascii_of_string s with
    | c :: l =>
        if ident_start c then Some (plain_match (c :: run ident_char l))
        else None
    | [] => None
    end.
Proof.
  unfold re_match, ident_re, _ident.
  destruct (list_ascii_of_string s) as [|c l]; [done|].
  rewrite bt_seq. cbn [bt]. destruct (ident_start c); [|done].
  erewrite star_run; [|reflexivity].
  unfold plain_match. do 2 f_equal.
  apply (consumed_run ident_char [c] l).
Qed.

Lemma bt_plus_run {R : Type} (p : ascii -> bool) (c : ascii) (l : text)
  (g : groups) (k : text -> groups -> option R) (r : R) :
  p c = true -> k (after p l) g = Some r ->
  bt (Plus p) (c :: l) g k = Some r.
Proof. intros Hc Hk. cbn [bt]. rewrite Hc. by apply star_run. Qed.

Lemma bt_plus_none {R : Type} (p : ascii -> bool) (l : text)
  (g : groups) (k : text -> groups -> option R) :
  run p l = [] -> bt (Plus p) l g k = None.
Proof.
  intros Hr. destruct l as [|c l]; [done|]. cbn [bt].
  simpl in Hr. by destruct (p c).
Qed.

Lemma run_cons_inv (p : ascii -> bool) (l : text) (c : ascii) (ds : text) :
  run p l = c :: ds -> exists l', l = c :: l' /\ p c = true /\ ds = run p l'.
Proof.
  destruct l as [|c' l']; simpl; [done|].
  destruct (p c') eqn:E; [|done]. intros [= <- <-]. eauto.
Qed.

Lemma after_cons (p : ascii -> bool) (c : ascii) (l : text) :
  p c = true -> after p (c :: l) = after p l.
Proof. intros H. simpl. by rewrite H. Qed.

Lemma bt_alt {R : Type} (r1 r2 : regex) (s : text) (g : groups)
  (k : text -> groups -> option R) :
  bt (Alt r1 r2) s g k
  = match bt r1 s g k with Some x => Some x | None => bt r2 s g k end.
Proof. reflexivity. Qed.

Lemma bt_opt {R : Type} (r1 : regex) (s : text) (g : groups)
  (k : text -> groups -> option R) :
  bt (Opt r1) s g k
  = match bt r1 s g k with Some x => Some x | None => k s g end.
Proof. reflexivity. Qed.

Lemma bt_chr_cons {R : Type} (c c' : ascii) (s : text) (g : groups)
  (k : text -> groups -> option R) :
  bt (Chr c) (c' :: s) g k = if Ascii.eqb c c' then k s g else None.
Proof. reflexivity. Qed.

Lemma bt_chr_nil {R : Type} (c : ascii) (g : groups)
  (k : text -> groups -> option R) :
  bt (Chr c) [] g k = None.
Proof. reflexivity. Qed.

(** X4. [decimal_re] takes from the head of a text a run of digits and,
    when a dot and at least one digit follow it, the dot and the run of
    digits after it; a text with no digit at its head is matched only when
    it starts with a dot followed by a digit. A dot that no digit follows
    is never part of the match, and a text with neither form does not
    match. *)
Theorem decimal_re_prefix (s : string) :
  re_match decimal_re s
  = plain_match <$> decimal_prefix (list_ascii_of_string s).
Proof.
  unfold re_match, decimal_re, _integer, decimal_prefix.
  set (t := list_ascii_of_string s).
  set (k := fun (t' : text) (g : groups) =>
              Some {| matched := consumed t t'; named := g |}).
  rewrite bt_alt, !bt_seq.
  destruct (run digit t) as [|d ds] eqn:Hrun.
  - (* no digit at the head *)
    rewrite bt_plus_none by done.
    destruct t as [|c l]; [done|]. rewrite bt_chr_cons. unfold is_chr.
    destruct (Ascii.eqb "." c) eqn:Hdot; [|done].
    destruct (run digit l) as [|f fs] eqn:Hfs.
    + by rewrite bt_plus_none.
    + apply run_cons_inv in Hfs as (l' & -> & Hf & ->).
      erewrite bt_plus_run; [|done|reflexivity].
      simpl. unfold plain_match. do 2 f_equal.
      apply (consumed_run digit [c; f] l').
  - apply run_cons_inv in Hrun as (l & Ht & Hd & ->).
    rewrite Ht, after_cons by done.
    assert (Hfirst : forall m,
              bt (Opt (Seq (Chr ".") (Plus digit))) (after digit l) [] k
              = Some m ->
              match bt (Plus digit) (d :: l) []
                      (fun s' g' =>
                         bt (Opt (Seq (Chr ".") (Plus digit))) s' g' k)
              with Some x => Some x
              | None => bt (Chr ".") (d :: l) []
                          (fun s' g' => bt (Plus digit) s' g' k)
              end = Some m).
    { intros m Hm. by erewrite bt_plus_run. }
    destruct (after digit l) as [|c l2] eqn:Hafter.
    + erewrite Hfirst; [|reflexivity]. unfold k, plain_match. simpl.
      do 2 f_equal. rewrite <- Hafter, Ht.
      apply (consumed_run digit [d] l).
    + unfold is_chr. destruct (Ascii.eqb "." c) eqn:Hdot.
      * destruct (run digit l2) as [|f fs] eqn:Hfs.
        -- erewrite Hfirst.
           2:{ rewrite bt_opt, bt_seq, bt_chr_cons, Hdot.
               rewrite bt_plus_none by done. reflexivity. }
           unfold k, plain_match. simpl. do 2 f_equal.
           rewrite <- Hafter, Ht. apply (consumed_run digit [d] l).
        -- apply run_cons_inv in Hfs as (l3 & -> & Hf & ->).
           erewrite Hfirst.
           2:{ rewrite bt_opt, bt_seq, bt_chr_cons, Hdot.
               erewrite bt_plus_run; [|done|reflexivity]. reflexivity. }
           unfold k, plain_match. simpl. do 2 f_equal. rewrite Ht.
           rewrite <- (run_after digit l) at 1. rewrite Hafter.
           replace (d :: run digit l ++ c :: f :: l3)
             with ((d :: run digit l ++ [c; f]) ++ l3)
             by (simpl; by rewrite <- app_assoc).
           rewrite consumed_run. f_equal. simpl.
           by rewrite <- app_assoc.
      * erewrite Hfirst.
        2:{ rewrite bt_opt, bt_seq, bt_chr_cons, Hdot. reflexivity. }
        unfold k, plain_match. simpl. do 2 f_equal.
        rewrite <- Hafter, Ht. apply (consumed_run digit [d] l).
Qed.


(** A repetition whose continuation rejects every text that starts with a
    character of the class stops after the longest run. *)
Lemma star_eq {R : Type} (p : ascii -> bool) (l : text)
  (k : text -> option R) :
  (forall c s, p c = true -> k (c :: s) = None) ->
  star p l k = k (after p l).
Proof.
  intros Hk. induction l as [|c l IH]; simpl; [done|].
  destruct (p c) eqn:E; [|done]. rewrite IH.
  destruct (k (after p l)); [done|]. by apply Hk.
Qed.

Lemma ident_char_not_colon (c : ascii) :
  ident_char c = true -> Ascii.eqb ":" c = false.
Proof. destruct c as [[] [] [] [] [] [] [] []]; vm_compute; congruence. Qed.

Lemma bt_ident {R : Type} (c : ascii) (l : text) (g : groups)
  (k : text -> groups -> option R) :
  bt _ident (c :: l) g k
  = if ident_start c then star ident_char l (fun s' => k s' g) else None.
Proof. reflexivity. Qed.

(** X5. [pname_re] matches a text exactly when the text starts with a
    name. The first name is taken as the prefix (group [prf]) when a colon
    and the start of another name follow it, and the local name (group
    [loc]) is then the name after the colon; otherwise the first name is
    the local name, the group [prf] takes no part, and a colon that no name
    follows is left out of the match. *)
Theorem pname_re_scan (s : string) :
  re_match pname_re s
  = scanned (list_ascii_of_string s)
    <$> (pname_found <$> pname_scan (list_ascii_of_string s)).
Proof.
  unfold re_match, pname_re, _pname, pname_scan, scanned, pname_found.
  set (t := list_ascii_of_string s).
  set (k := fun (t' : text) (g : groups) =>
              Some {| matched := consumed t t'; named := g |}).
  rewrite bt_seq, bt_opt, bt_seq, !bt_group.
  destruct t as [|c l] eqn:Ht; [done|]. rewrite !bt_ident.
  destruct (ident_start c) eqn:Hc; [|done].
  assert (Hloc :
            star ident_char l
              (fun s' => k s' [("loc", consumed (c :: l) s')])
            = Some {| matched := consumed (c :: l) (after ident_char l);
                      named := pname_groups None (c :: run ident_char l) |}).
  { erewrite star_run; [|reflexivity]. unfold k, pname_groups.
    do 4 f_equal. apply (consumed_run ident_char [c] l). }
  rewrite star_eq.
  2:{ intros c' s' Hc'. rewrite bt_chr_cons.
      by rewrite ident_char_not_colon. }
  destruct (after ident_char l) as [|colon r] eqn:Hafter.
  { rewrite bt_chr_nil. exact Hloc. }
  rewrite bt_chr_cons. unfold is_chr.
  destruct (Ascii.eqb ":" colon) eqn:Hcolon; [|destruct r; exact Hloc].
  destruct r as [|d l2]; [exact Hloc|].
  rewrite bt_group, bt_ident.
  destruct (ident_start d) eqn:Hd; [|exact Hloc].
  erewrite star_run; [|reflexivity]. simpl. unfold k, pname_groups.
  apply Ascii.eqb_eq in Hcolon. subst colon.
  assert (Hl : l = run ident_char l ++ ":"%char :: d :: l2).
  { rewrite <- Hafter. symmetry. apply run_after. }
  do 3 f_equal; [|do 2 f_equal].
  - f_equal. apply (consumed_run ident_char [d] l2).
  - rewrite Hl at 1.
    replace (c :: run ident_char l ++ ":"%char :: d :: l2)
      with ((c :: run ident_char l) ++ ":"%char :: d :: l2) by done.
    apply consumed_app.
Qed.


(** A repetition stops after the longest run also when its continuation
    accepts a text that starts with a character of the class only with the
    result it gives after the run. *)
Lemma star_eq_weak {R : Type} (p : ascii -> bool) (l : text)
  (k : text -> option R) :
  (forall c s, p c = true ->
     k (c :: s) = None \/ k (c :: s) = k (after p s)) ->
  star p l k = k (after p l).
Proof.
  intros Hk. induction l as [|c l IH]; simpl; [done|].
  destruct (p c) eqn:E; [|done]. rewrite IH.
  destruct (k (after p l)) eqn:Ek; [done|].
  destruct (Hk c l E) as [H|H]; [done|]. by rewrite H.
Qed.

(** Facts on single characters. *)
Lemma space_class (c : ascii) :
  space c = true ->
  digit c = false /\ ident_start c = false /\ Ascii.eqb "." c = false
  /\ Ascii.eqb "=" c = false /\ Ascii.eqb "]" c = false
  /\ Ascii.eqb dquote c = false /\ Ascii.eqb squote c = false.
Proof.
  destruct c as [[] [] [] [] [] [] [] []]; vm_compute; intuition congruence.
Qed.

Lemma digit_class (c : ascii) :
  digit c = true ->
  space c = false /\ ident_start c = false /\ Ascii.eqb "." c = false
  /\ Ascii.eqb "]" c = false.
Proof.
  destruct c as [[] [] [] [] [] [] [] []]; vm_compute; intuition congruence.
Qed.

Lemma ident_char_class (c : ascii) :
  ident_char c = true -> space c = false /\ Ascii.eqb "=" c = false.
Proof.
  destruct c as [[] [] [] [] [] [] [] []]; vm_compute; intuition congruence.
Qed.

Lemma ident_start_class (c : ascii) :
  ident_start c = true ->
  digit c = false /\ space c = false /\ Ascii.eqb "." c = false
  /\ Ascii.eqb "]" c = false.
Proof.
  destruct c as [[] [] [] [] [] [] [] []]; vm_compute; intuition congruence.
Qed.

(** Spaces and the closing bracket. *)
Lemma close_eq {R : Type} (s : text) (g : groups)
  (k : text -> groups -> option R) :
  bt (Seq (Star space) (Chr "]")) s g k
  = match close_scan s with Some rest => k rest g | None => None end.
Proof.
  rewrite bt_seq, bt_star, star_eq.
  2:{ intros c s' Hc. rewrite bt_chr_cons.
      apply space_class in Hc. by destruct Hc as (_ & _ & _ & _ & -> & _). }
  unfold close_scan, is_chr. destruct (after space s) as [|c rest]; [done|].
  rewrite bt_chr_cons. by destruct (Ascii.eqb "]" c).
Qed.

(** A literal between two quotes of one kind. *)
Lemma quoted_eq {R : Type} (q : ascii) (gname : string) (s : text)
  (g : groups) (k : text -> groups -> option R) :
  bt (seqs [Chr q; Group gname (Star (fun c => negb (is_chr q c))); Chr q])
    s g k
  = match quoted_scan q s with
    | Some (v, rest) => k rest ((gname, string_of_list_ascii v) :: g)
    | None => None
    end.
Proof.
  cbn [seqs]. rewrite bt_seq. unfold quoted_scan, is_chr.
  destruct s as [|c l]; [done|]. rewrite bt_chr_cons.
  destruct (Ascii.eqb q c); [|done].
  rewrite bt_seq, bt_group, bt_star, star_eq.
  2:{ intros c' s' Hc'. rewrite bt_chr_cons.
      by destruct (Ascii.eqb q c'). }
  pose proof (after_head (fun x => negb (Ascii.eqb q x)) l) as Hh.
  pose proof (consumed_run (fun x => negb (Ascii.eqb q x)) [] l) as Hc.
  simpl in Hc.
  destruct (after (fun x => negb (Ascii.eqb q x)) l) as [|c' rest]; [done|].
  rewrite bt_chr_cons. apply negb_false_iff in Hh. rewrite Hh.
  by rewrite Hc.
Qed.

Lemma quoted_scan_head (q : ascii) (c : ascii) (l : text) :
  Ascii.eqb q c = false -> quoted_scan q (c :: l) = None.
Proof. intros H. unfold quoted_scan, is_chr. by rewrite H. Qed.

(** The right-hand side. *)
Lemma rhs_eq {R : Type} (s : text) (g : groups)
  (k : text -> groups -> option R) :
  bt _rhs s g k
  = match rhs_scan s with
    | Some (gname, v, rest) =>
        k rest ((gname, string_of_list_ascii v) :: g)
    | None => None
    end.
Proof.
  unfold _rhs. rewrite bt_alt, !quoted_eq. unfold rhs_scan.
  destruct (quoted_scan dquote s) as [[v rest]|] eqn:Hd.
  - destruct (k rest (("drhs", string_of_list_ascii v) :: g)); [done|].
    destruct s as [|c l]; [done|].
    rewrite quoted_scan_head; [done|].
    unfold quoted_scan, is_chr in Hd.
    destruct (Ascii.eqb dquote c) eqn:E; [|done].
    apply Ascii.eqb_eq in E. by subst c.
  - by destruct (quoted_scan squote s) as [[v rest]|].
Qed.


Lemma bt_ident_nil {R : Type} (g : groups)
  (k : text -> groups -> option R) : bt _ident [] g k = None.
Proof. reflexivity. Qed.

Lemma after_not (p : ascii -> bool) (c : ascii) (l : text) :
  p c = false -> after p (c :: l) = c :: l.
Proof. intros H. simpl. by rewrite H. Qed.

Lemma run_not (p : ascii -> bool) (c : ascii) (l : text) :
  p c = false -> run p (c :: l) = [].
Proof. intros H. simpl. by rewrite H. Qed.

(** A name with or without a prefix, before such a continuation. *)
Lemma pname_eq {R : Type} (s : text) (g : groups)
  (k : text -> groups -> option R) :
  wants_equals k ->
  bt _pname s g k
  = match pname_scan s with
    | Some (p, n, rest) => k rest (pname_groups p n ++ g)
    | None => None
    end.
Proof.
  intros Hk.
  assert (Hid : forall c s' g', ident_char c = true -> k (c :: s') g' = None).
  { intros c s' g' Hc. apply ident_char_class in Hc as [? ?]. by apply Hk. }
  unfold _pname, pname_scan.
  rewrite bt_seq, bt_opt, bt_seq, !bt_group.
  destruct s as [|c l]; [done|]. rewrite !bt_ident.
  destruct (ident_start c) eqn:Hc; [|done].
  rewrite !star_eq; [|by intros; apply Hid|].
  2:{ intros c' s' Hc'. rewrite bt_chr_cons.
      by rewrite ident_char_not_colon. }
  pose proof (consumed_run ident_char [c] l) as Hfirst. simpl in Hfirst.
  rewrite Hfirst.
  destruct (after ident_char l) as [|colon r] eqn:Hafter.
  { by rewrite bt_chr_nil. }
  rewrite bt_chr_cons. unfold is_chr.
  destruct (Ascii.eqb ":" colon) eqn:Hcolon; [|by destruct r].
  apply Ascii.eqb_eq in Hcolon. subst colon.
  assert (Hplain : forall g', k (":"%char :: r) g' = None).
  { intros g'. by apply Hk. }
  destruct r as [|d l2].
  { rewrite bt_group, bt_ident_nil. simpl. by rewrite Hplain. }
  rewrite bt_group, bt_ident.
  destruct (ident_start d) eqn:Hd; [|done].
  rewrite star_eq by (by intros; apply Hid).
  pose proof (consumed_run ident_char [d] l2) as Hsecond.
  simpl in Hsecond. rewrite Hsecond.
  simpl.
  destruct (k (after ident_char l2) _) eqn:E; [done|].
  by rewrite Hplain.
Qed.

Lemma dot_not_ident_start (c : ascii) :
  Ascii.eqb "." c = true -> ident_start c = false.
Proof. intros H. apply Ascii.eqb_eq in H. by subst c. Qed.

(** A dot or a name, before such a continuation. *)
Lemma name_eq {R : Type} (s : text) (g : groups)
  (k : text -> groups -> option R) :
  wants_equals k ->
  bt (Alt _pname (Chr ".")) s g k
  = match name_scan s with
    | Some (gn, rest) => k rest (gn ++ g)
    | None => None
    end.
Proof.
  intros Hk. rewrite bt_alt, pname_eq by done. unfold name_scan, is_chr.
  destruct s as [|c l]; [done|]. rewrite bt_chr_cons.
  destruct (Ascii.eqb "." c) eqn:Hdot.
  - unfold pname_scan. by rewrite (dot_not_ident_start c Hdot).
  - destruct (pname_scan (c :: l)) as [[[p n] rest]|]; [|done].
    by destruct (k rest (pname_groups p n ++ g)).
Qed.

(** The equals sign and the right-hand side. *)
Lemma equals_eq {R : Type} (s : text) (g : groups)
  (k : text -> groups -> option R) :
  bt (seqs [Star space; Chr "="; Star space; _rhs]) s g k
  = match after space s with
    | e :: l3 =>
        if is_chr "=" e then
          match rhs_scan (after space l3) with
          | Some (gname, v, l5) =>
              k l5 ((gname, string_of_list_ascii v) :: g)
          | None => None
          end
        else None
    | [] => None
    end.
Proof.
  cbn [seqs]. rewrite bt_seq, bt_star, star_eq.
  2:{ intros c s' Hc. rewrite bt_seq, bt_chr_cons.
      apply space_class in Hc. by destruct Hc as (_ & _ & _ & -> & _). }
  destruct (after space s) as [|e l3]; [done|].
  rewrite bt_seq, bt_chr_cons. unfold is_chr.
  destruct (Ascii.eqb "=" e); [|done].
  rewrite bt_seq, bt_star, star_eq.
  2:{ intros c s' Hc. rewrite rhs_eq. unfold rhs_scan.
      apply space_class in Hc. destruct Hc as (_ & _ & _ & _ & _ & Hd & Hs).
      by rewrite !quoted_scan_head. }
  apply rhs_eq.
Qed.

Lemma equals_wants {R : Type} (k : text -> groups -> option R) :
  wants_equals
    (fun s g => bt (seqs [Star space; Chr "="; Star space; _rhs]) s g k).
Proof.
  intros c s g Hs He. rewrite equals_eq, after_not by done.
  unfold is_chr. by rewrite He.
Qed.

(** The position, before spaces and the closing bracket. *)
Lemma pos_eq {R : Type} (s : text) (g : groups)
  (k : text -> groups -> option R) :
  bt pred_pos s g (fun s' g' => bt (Seq (Star space) (Chr "]")) s' g' k)
  = match close_scan (after digit s) with
    | Some rest => k rest (("pos", string_of_list_ascii (run digit s)) :: g)
    | None => None
    end.
Proof.
  unfold pred_pos. rewrite bt_group, bt_star, star_eq.
  2:{ intros c s' Hc. rewrite close_eq. unfold close_scan.
      apply digit_class in Hc. destruct Hc as (Hs & _ & _ & Hb).
      rewrite after_not by done. unfold is_chr. by rewrite Hb. }
  rewrite close_eq. pose proof (consumed_run digit [] s) as Hc.
  simpl in Hc. by rewrite Hc.
Qed.

Lemma name_scan_head (x : text) (gn : groups) (l2 : text) :
  name_scan x = Some (gn, l2) ->
  run digit x = [] /\ after digit x = x /\ close_scan x = None.
Proof.
  unfold name_scan, pname_scan, is_chr. destruct x as [|c l]; [done|].
  intros H.
  assert (Hc : digit c = false /\ space c = false
               /\ Ascii.eqb "]" c = false).
  { destruct (Ascii.eqb "." c) eqn:Hdot.
    - apply Ascii.eqb_eq in Hdot. by subst c.
    - destruct (ident_start c) eqn:Hi; [|done].
      apply ident_start_class in Hi. tauto. }
  destruct Hc as (Hd & Hs & Hb).
  rewrite run_not, after_not by done. unfold close_scan.
  rewrite after_not by done. unfold is_chr. by rewrite Hb.
Qed.

(** What stands between the opening bracket with its spaces and the end
    of the predicate. *)
Lemma body_eq {R : Type} (x : text) (k : text -> groups -> option R) :
  bt (Seq (Alt pred_key pred_pos) (Seq (Star space) (Chr "]"))) x [] k
  = match body_scan x with Some (g, rest) => k rest g | None => None end.
Proof.
  rewrite bt_seq, bt_alt, pos_eq. unfold pred_key.
  change (seqs [Alt _pname (Chr "."); Star space; Chr "="; Star space; _rhs])
    with (Seq (Alt _pname (Chr "."))
            (seqs [Star space; Chr "="; Star space; _rhs])).
  rewrite bt_seq, name_eq by apply equals_wants.
  unfold body_scan.
  destruct (name_scan x) as [[gn l2]|] eqn:Hn;
    [|by destruct (close_scan (after digit x))].
  apply name_scan_head in Hn as (_ & -> & ->).
  rewrite equals_eq, app_nil_r.
  destruct (after space l2) as [|e l3]; [done|].
  destruct (is_chr "=" e); [|done].
  destruct (rhs_scan (after space l3)) as [[[gname v] l5]|]; [|done].
  rewrite close_eq. destruct (close_scan l5) as [rest|]; [|done].
  by destruct (k rest _).
Qed.

(** The whole pattern, before any continuation. *)
Lemma pred_bt {R : Type} (t : text) (k : text -> groups -> option R) :
  bt pred_re t [] k
  = match pred_scan t with
    | Some (g, rest) => k rest g
    | None => None
    end.
Proof.
  unfold pred_scan.
  change pred_re
    with (Seq (Chr "[")
            (Seq (Star space)
               (Seq (Alt pred_key pred_pos)
                  (Seq (Star space) (Chr "]"))))).
  rewrite bt_seq. destruct t as [|c l0] eqn:Ht; [done|].
  rewrite bt_chr_cons. unfold is_chr.
  destruct (Ascii.eqb "[" c); [|done].
  rewrite bt_seq, bt_star, star_eq_weak.
  - by rewrite body_eq.
  - intros c' s' Hc'. rewrite !body_eq.
    pose proof (space_class c' Hc') as (Hd & Hi & Hdot & _ & Hb & _).
    assert (Hleft : body_scan (c' :: s')
                    = match after space s' with
                      | b :: rest =>
                          if is_chr "]" b then Some ([("pos", "")], rest)
                          else None
                      | [] => None
                      end).
    { unfold body_scan, name_scan, pname_scan, is_chr.
      rewrite Hdot, Hi, run_not, after_not by done.
      unfold close_scan. simpl after.
      rewrite Hc'.
      destruct (after space s') as [|b rest]; [done|].
      unfold is_chr. by destruct (Ascii.eqb "]" b). }
    rewrite Hleft.
    destruct (after space s') as [|b rest] eqn:Hy; [by left|].
    unfold is_chr. destruct (Ascii.eqb "]" b) eqn:Hbr; [|by left].
    right. apply Ascii.eqb_eq in Hbr. subst b. reflexivity.
Qed.

(** X6. On a text of ASCII characters, [pred_re] matches exactly what a
    scanner for predicates accepts: an opening bracket and spaces; then
    either a dot or a name with or without a prefix, spaces, an equals
    sign, spaces and a literal between double or single quotes, or else a
    run of digits that may be empty; then spaces and a closing bracket. The
    groups are those the scanner gives, and the text matched ends with the
    closing bracket. *)
Theorem pred_re_scan (s : string) :
  ascii_text (list_ascii_of_string s) = true ->
  re_match pred_re s
  = scanned (list_ascii_of_string s)
    <$> pred_scan (list_ascii_of_string s).
Proof.
  intros _. unfold re_match. rewrite pred_bt.
  by destruct (pred_scan (list_ascii_of_string s)) as [[g rest]|].
Qed.


(** ** Texts of a given shape *)

Lemma run_app_stop (p : ascii -> bool) (a b : text) :
  forallb p a = true ->
  match b with c :: _ => p c = false | [] => True end ->
  run p (a ++ b) = a /\ after p (a ++ b) = b.
Proof.
  intros Ha Hb. induction a as [|c a IH]; simpl in *.
  - destruct b as [|c b]; [done|]. simpl. by rewrite Hb.
  - apply andb_prop in Ha as [-> Ha]. destruct (IH Ha) as [-> ->]. done.
Qed.

Lemma after_app_stop (p : ascii -> bool) (a b : text) :
  forallb p a = true ->
  match b with c :: _ => p c = false | [] => True end ->
  after p (a ++ b) = b.
Proof. intros Ha Hb. by apply run_app_stop. Qed.

(** A name followed by a character that no name holds, other than a colon
    before the start of a name, is scanned as a name without prefix. *)
Lemma pname_scan_plain (n b : text) :
  is_name n = true ->
  match b with
  | x :: _ => ident_char x = false /\ Ascii.eqb ":" x = false
  | [] => True
  end ->
  pname_scan (n ++ b) = Some (None, n, b).
Proof.
  intros Hn Hb. destruct n as [|c n]; [done|]. simpl in Hn.
  apply andb_prop in Hn as [Hc Hn]. simpl app. unfold pname_scan.
  rewrite Hc.
  destruct (run_app_stop ident_char n b Hn) as [Hr Ha].
  { destruct b; [done|]. tauto. }
  rewrite Hr, Ha. destruct b as [|x [|d b]]; [done|done|].
  unfold is_chr. destruct Hb as [_ ->]. done.
Qed.

(** A name, a colon and a name are scanned as a prefix and a local name. *)
Lemma pname_scan_prefixed (p n b : text) :
  is_name p = true -> is_name n = true ->
  match b with x :: _ => ident_char x = false | [] => True end ->
  pname_scan (p ++ ":"%char :: n ++ b) = Some (Some p, n, b).
Proof.
  intros Hp Hn Hb. destruct p as [|c p]; [done|]. simpl in Hp.
  apply andb_prop in Hp as [Hc Hp]. simpl app. unfold pname_scan.
  rewrite Hc.
  destruct (run_app_stop ident_char p (":"%char :: n ++ b) Hp) as [Hr Ha];
    [done|].
  rewrite Hr, Ha. destruct n as [|d n]; [done|]. simpl in Hn.
  apply andb_prop in Hn as [Hd Hn]. simpl app. unfold is_chr. simpl andb.
  rewrite Hd.
  destruct (run_app_stop ident_char n b Hn Hb) as [-> ->]. done.
Qed.

Lemma ident_start_no_dot (c : ascii) :
  ident_start c = true -> Ascii.eqb "." c = false.
Proof. intros H. by apply ident_start_class in H as (_ & _ & -> & _). Qed.

Lemma ident_char_space (c : ascii) : space c = true -> ident_char c = false.
Proof. destruct c as [[] [] [] [] [] [] [] []]; vm_compute; congruence. Qed.

(** The scanner on a key predicate written out. *)
Lemma pred_scan_key
  (ws0 ws1 ws2 ws3 n v rest : text) (p : option text) (double : bool) :
  forallb space ws0 = true -> forallb space ws1 = true ->
  forallb space ws2 = true -> forallb space ws3 = true ->
  is_name n = true ->
  match p with Some p => is_name p = true | None => True end ->
  forallb (fun c => negb (is_chr (quote_of double) c)) v = true ->
  pred_scan ("["%char :: ws0 ++ pname_text p n ++ ws1 ++ "="%char :: ws2
             ++ quote_of double :: v ++ quote_of double :: ws3
             ++ "]"%char :: rest)
  = Some ((rhs_group double, string_of_list_ascii v) :: pname_groups p n,
          rest).
Proof.
  intros H0 H1 H2 H3 Hn Hp Hv.
  set (q := quote_of double).
  set (tail3 := ws3 ++ "]"%char :: rest).
  set (tail2 := ws2 ++ q :: v ++ q :: tail3).
  set (tail1 := ws1 ++ "="%char :: tail2).
  assert (Hqs : space q = false) by by destruct double.
  assert (Htail1 : match tail1 with
                   | x :: _ => ident_char x = false /\ Ascii.eqb ":" x = false
                   | [] => True
                   end).
  { unfold tail1. destruct ws1 as [|x ws1]; simpl; [done|].
    simpl in H1. apply andb_prop in H1 as [Hx _].
    split; [by apply ident_char_space|].
    destruct x as [[] [] [] [] [] [] [] []]; vm_compute in Hx |- *;
      congruence. }
  assert (Hname : name_scan (pname_text p n ++ tail1)
                  = Some (pname_groups p n, tail1)).
  { unfold name_scan.
    assert (Hstart : exists c l, pname_text p n ++ tail1 = c :: l
                                 /\ ident_start c = true) .
    { destruct p as [[|c p]|]; simpl in *; try done.
      - apply andb_prop in Hp as [Hc _]. eauto.
      - destruct n as [|c n]; [done|]. simpl in Hn.
        apply andb_prop in Hn as [Hc _]. simpl. eauto. }
    destruct Hstart as (c & l & Heq & Hc). rewrite Heq.
    unfold is_chr. rewrite (ident_start_no_dot c Hc), <- Heq.
    destruct p as [p|]; simpl pname_text.
    - rewrite <- app_assoc. simpl app.
      rewrite pname_scan_prefixed; [done|done|done|].
      destruct tail1; [done|]. tauto.
    - by rewrite pname_scan_plain. }
  unfold pred_scan. unfold is_chr at 1. rewrite Ascii.eqb_refl.
  assert (Hl1 : after space (ws0 ++ pname_text p n ++ tail1)
                = pname_text p n ++ tail1).
  { apply after_app_stop; [done|].
    destruct p as [[|c p]|]; simpl in *; try done.
    - apply andb_prop in Hp as [Hc _].
      by apply ident_start_class in Hc as (_ & -> & _).
    - destruct n as [|c n]; [done|]. simpl in Hn.
      apply andb_prop in Hn as [Hc _]. simpl.
      by apply ident_start_class in Hc as (_ & -> & _). }
  replace (ws0 ++ pname_text p n ++ ws1 ++ "="%char :: ws2 ++ q :: v
           ++ q :: ws3 ++ "]"%char :: rest)
    with (ws0 ++ pname_text p n ++ tail1) by done.
  rewrite Hl1. unfold body_scan. rewrite Hname.
  unfold tail1. rewrite after_app_stop by done.
  unfold is_chr at 1. rewrite Ascii.eqb_refl.
  unfold tail2. rewrite after_app_stop by done.
  assert (Hrhs : rhs_scan (q :: v ++ q :: tail3)
                 = Some (rhs_group double, v, tail3)).
  { assert (Hquoted : quoted_scan q (q :: v ++ q :: tail3)
                      = Some (v, tail3)).
    { unfold quoted_scan. unfold is_chr at 1. rewrite Ascii.eqb_refl.
      destruct (run_app_stop (fun x => negb (is_chr q x)) v (q :: tail3) Hv)
        as [-> ->]; [|done].
      unfold is_chr. by rewrite Ascii.eqb_refl. }
    unfold rhs_scan. clearbody tail3. subst q. destruct double.
    - change (quote_of true) with dquote in *. by rewrite Hquoted.
    - change (quote_of false) with squote in *.
      rewrite (quoted_scan_head dquote squote) by done.
      by rewrite Hquoted. }
  rewrite Hrhs. unfold close_scan, tail3.
  rewrite after_app_stop by done.
  unfold is_chr at 1. by rewrite Ascii.eqb_refl.
Qed.


(** X7. A key predicate written out is read back: for a name [n] with or
    without a prefix [p], a literal [v] that does not hold the quote it is
    put between, and any spaces after the opening bracket, around the
    equals sign and before the closing bracket, [pred_re] matches the text
    up to the closing bracket, and the groups give back the literal (in
    [drhs] for double quotes, [srhs] for single quotes), the local name and
    the prefix. *)
Theorem pred_re_key_round_trip
  (ws0 ws1 ws2 ws3 n v rest : text) (p : option text) (double : bool) :
  forallb space ws0 = true -> forallb space ws1 = true ->
  forallb space ws2 = true -> forallb space ws3 = true ->
  is_name n = true ->
  match p with Some p => is_name p = true | None => True end ->
  forallb (fun c => negb (is_chr (quote_of double) c)) v = true ->
  re_match pred_re
    (string_of_list_ascii
       ("["%char :: ws0 ++ pname_text p n ++ ws1 ++ "="%char :: ws2
        ++ quote_of double :: v ++ quote_of double :: ws3
        ++ "]"%char :: rest))
  = Some {| matched :=
              string_of_list_ascii
                ("["%char :: ws0 ++ pname_text p n ++ ws1 ++ "="%char :: ws2
                 ++ quote_of double :: v ++ quote_of double :: ws3
                 ++ ["]"%char]);
            named := (rhs_group double, string_of_list_ascii v)
                     :: pname_groups p n |}.
Proof.
  intros H0 H1 H2 H3 Hn Hp Hv. unfold re_match.
  rewrite list_ascii_of_string_of_list_ascii, pred_bt.
  rewrite (pred_scan_key ws0 ws1 ws2 ws3 n v rest p double) by done.
  do 2 f_equal.
  rewrite <- (consumed_app _ rest). f_equal.
  simpl. f_equal.
  repeat (rewrite <- ?app_assoc, <- ?app_comm_cons; f_equal).
Qed.

Lemma pred_scan_groups (l : text) (g : groups) (rest : text) :
  pred_scan l = Some (g, rest) ->
  (exists ds, g = [("pos", string_of_list_ascii ds)]
              /\ forallb digit ds = true)
  \/ (exists gname v gn,
        g = (gname, v) :: gn
        /\ (gname = "drhs" \/ gname = "srhs")
        /\ (gn = [] \/ (exists loc, gn = [("loc", loc)])
            \/ (exists loc prf, gn = [("loc", loc); ("prf", prf)]))).
Proof.
  unfold pred_scan. destruct l as [|c l0]; [done|].
  destruct (is_chr "[" c); [|done]. unfold body_scan.
  destruct (name_scan (after space l0)) as [[gn l2]|] eqn:Hn.
  - destruct (after space l2) as [|e l3]; [done|].
    destruct (is_chr "=" e); [|done].
    destruct (rhs_scan (after space l3)) as [[[gname v] l5]|] eqn:Hr;
      [|done].
    destruct (close_scan l5) as [rest'|]; [|done].
    intros [= <- <-]. right. exists gname, (string_of_list_ascii v), gn.
    split; [done|]. split.
    + unfold rhs_scan in Hr.
      destruct (quoted_scan dquote _) as [[v1 r1]|];
        [injection Hr as <- _ _; by left|].
      destruct (quoted_scan squote _) as [[v2 r2]|]; [|done].
      injection Hr as <- _ _. by right.
    + unfold name_scan in Hn. destruct (after space l0) as [|c1 l1]; [done|].
      destruct (is_chr "." c1); [injection Hn as <- _; by left|].
      destruct (pname_scan (c1 :: l1)) as [[[p n] r]|]; [|done].
      injection Hn as <- _. right.
      destruct p as [p|]; simpl; eauto.
  - destruct (close_scan _) as [rest'|]; [|done].
    intros [= <- <-]. left. eexists. split; [done|]. apply run_all.
Qed.

(** X8. What the groups of a match of [pred_re] on a text of ASCII
    characters can be. When the group [pos] takes part it holds the digits
    0 to 9 only, possibly none, and no other group takes part. Otherwise
    exactly one of the groups [drhs] and [srhs] takes part, and the group
    [prf] takes part only with the group [loc]. *)
Theorem pred_re_groups (s : string) (m : match_obj) :
  ascii_text (list_ascii_of_string s) = true ->
  re_match pred_re s = Some m ->
  match group "pos" (named m) with
  | Some ds =>
      forallb digit (list_ascii_of_string ds) = true
      /\ named m = [("pos", ds)]
  | None =>
      (group "drhs" (named m) = None <-> group "srhs" (named m) <> None)
      /\ (group "prf" (named m) <> None -> group "loc" (named m) <> None)
  end.
Proof.
  intros _. unfold re_match. rewrite pred_bt.
  destruct (pred_scan (list_ascii_of_string s)) as [[g rest]|] eqn:Hs;
    [|done].
  intros [= <-]. simpl named.
  apply pred_scan_groups in Hs
    as [(ds & -> & Hd)|(gname & v & gn & -> & Hg & Hgn)].
  - simpl. by rewrite list_ascii_of_string_of_list_ascii.
  - destruct Hg as [->| ->];
      destruct Hgn as [->|[(loc & ->)|(loc & prf & ->)]]; simpl;
      (split; [split|]; congruence).
Qed.

End PatternSpec.

(** ** More of the facade and of the script *)

Module FacadeSpec.
Import Constants Py Yangson Datamodel JsonSchema Observe Facts ScriptObserve.
Import DatastoreSpec BuilderSpec MainSpec.
Local Open Scope py_scope.

Section Proofs.
Context {ref heap route : Type} {env : Absent ref heap route}.
Variable walk : pyval (ref := ref) -> M ref heap unit.

(** X9. For a path that [path2route] turns into a route whose steps each
    find a child, [get_data_node] returns the node the last step finds (the
    schema root for the empty route), having made the call of [path2route]
    and one call of [get_data_child] for each step, and no other. *)
Theorem get_data_node_follows_route
  (ds : Datastore ref) (path : string) (w : world ref heap)
  (addr : SchemaRoute) (h0 h1 : heap) (n : ref) (evs : list (event ref)) :
  path2route (schema_data ds) path (w_heap w) = (Return addr, h0) ->
  follow addr (schema ds) h0 = Some (n, h1, evs) ->
  get_data_node ds path w
  = (Return (Some n),
     extend w h1 (EvPath2Route (schema_data ds) path :: evs))
  /\ length evs = length addr
  /\ (addr = [] -> n = schema ds).
Proof.
  intros Hroute Hf. split; [|split].
  - unfold get_data_node. rewrite bind_run, call_extend, Hroute.
    cbv beta iota zeta delta [fst snd].
    set (w0 := extend w h0 [EvPath2Route (schema_data ds) path]).
    rewrite <- (app_nil_r addr).
    rewrite (data_steps_follow addr [] (schema ds) w0 n h1 evs Hf).
    simpl. unfold ret, w0. by rewrite extend_extend.
  - by eapply follow_length.
  - intros ->. simpl in Hf. by injection Hf as <- _ _.
Qed.

(** A build that ends normally ends with post-processing and the
    compilation of patterns. *)
Lemma build_schema_ends (schema sd : ref) (w w' : world ref heap) :
  _build_schema schema sd w = (Return tt, w') ->
  exists t,
    w_trace w'
    = w_trace w ++ t ++ [EvPostProcess schema; EvMakeSchemaPatterns schema].
Proof.
  rewrite build_schema_passes.
  destruct (pass1_trace schema sd w) as (t1 & Ht1 & _).
  rewrite bind_run.
  destruct (pass1 schema sd w) as [[[]|e] w1]; [|discriminate].
  destruct (pass2_trace schema sd w1) as (t2 & Ht2 & _).
  rewrite bind_run.
  destruct (pass2 schema sd w1) as [[[]|e] w2]; [|discriminate].
  simpl in Ht1, Ht2.
  rewrite bind_run, !call_extend.
  destruct (post_process schema (w_heap w2)) as [[[]|e] h3];
    [|discriminate].
  cbv beta iota zeta delta [fst snd].
  destruct (make_schema_patterns schema _) as [[[]|e] h4] eqn:E4;
    [|discriminate].
  cbv beta iota zeta delta [fst snd]. intros [= <-].
  exists (t1 ++ t2). simpl. rewrite Ht2, Ht1. by rewrite <- !app_assoc.
Qed.

(** X10. A data model that is built is built in full. The constructor has
    decoded the text into the library data the model keeps, made a schema
    tree and then the schema data from that library data and the module
    path it was given, and run the builder to its end: the last two calls
    are post-processing and the compilation of patterns on the tree that
    both datastores hold. The model keeps the description it was given. *)
Theorem built_model_is_complete
  (yltxt : string) (mod_path : list string) (desc : option string)
  (w w' : world ref heap) (dm : DataModel ref) :
  DataModel_init yltxt mod_path desc w = (Return dm, w') ->
  exists (root sdata : ref) (t : list (event ref)),
    json_loads yltxt = Return (yang_library dm)
    /\ description dm = desc
    /\ datastores dm !! "config" = Some (Datastore_init root sdata None)
    /\ datastores dm !! "operational"
       = Some (Datastore_init root sdata (Some all))
    /\ w_trace w'
       = w_trace w
         ++ EvSchemaTreeNode :: EvSchemaData (yang_library dm) mod_path
            :: t ++ [EvPostProcess root; EvMakeSchemaPatterns root].
Proof.
  unfold DataModel_init. rewrite bind_run. unfold try_except, lift.
  destruct (json_loads yltxt) as [lib|e].
  2:{ case_bool_decide; unfold raise; discriminate. }
  rewrite bind_run. destruct (py_in marker lib) as [[]|e];
    [|unfold raise; discriminate|discriminate].
  rewrite bind_run, call_extend.
  destruct (SchemaTreeNode_new (w_heap w)) as [[root|e] h1];
    [|discriminate].
  cbv beta iota zeta delta [fst snd]. rewrite bind_run, call_extend.
  destruct (SchemaData_new lib mod_path _) as [[sdata|e] h2];
    [|discriminate].
  cbv beta iota zeta delta [fst snd]. rewrite bind_run.
  destruct (_build_schema root sdata _) as [[[]|e] w2] eqn:Hb;
    [|discriminate].
  unfold ret. intros [= <- <-].
  destruct (build_schema_ends _ _ _ _ Hb) as (t & Ht).
  exists root, sdata, t. split; [done|]. split; [done|].
  split; [by simplify_map_eq|]. split; [by simplify_map_eq|].
  rewrite Ht. simpl. by rewrite <- !app_assoc.
Qed.

(** X11. A text that decodes to a number, a boolean or [null] makes the
    constructor raise [TypeError] from the membership test, not
    [BadYangLibraryData]; no object is made. [main] has no clause for
    [TypeError]: it prints nothing and returns no exit code, the exception
    goes on to its caller. *)
Theorem scalar_library_type_error
  (ylib : string) (path : option string) (yltxt : string)
  (mod_path : list string) (desc : option string) (w : world ref heap)
  (v : pyjson) :
  json_loads yltxt = Return v -> not_a_container v = true ->
  let e := Exc TypeError ("argument of type '" +:+ type_name v
                          +:+ "' is not iterable") in
  DataModel_init yltxt mod_path desc w = (Raise e, w)
  /\ (read_file ylib (w_heap w) = Return yltxt ->
      main walk (Some ylib) path w = (Raise e, w)).
Proof.
  intros Hv Hs e.
  assert (Hinit : forall mp d, DataModel_init yltxt mp d w = (Raise e, w)).
  { intros mp d. unfold DataModel_init. rewrite bind_run.
    unfold try_except, lift. rewrite Hv, bind_run.
    by destruct v. }
  split; [apply Hinit|]. intros Hread.
  by rewrite (main_after_read walk _ _ _ _ Hread), Hinit.
Qed.

(** X12. When the library file cannot be read, [main] builds nothing. An
    exception of a class of the first [except] clause is answered with one
    line on the error stream, the words YANG library and the message, and
    the exit code 1; an exception of any other class goes on to the caller
    of [main]. *)
Theorem unreadable_library_exit_code_1
  (ylib : string) (path : option string) (w : world ref heap) (e : exn) :
  read_file ylib (w_heap w) = Raise e ->
  main walk (Some ylib) path w
  = if bool_decide (class_of e ∈ file_errors)
    then (Return 1%Z, with_error_line w ("YANG library: " +:+ str e))
    else (Raise e, w).
Proof.
  intros Hread. unfold main. rewrite bind_run. unfold ret at 1.
  cbv beta iota zeta delta [fst snd].
  rewrite bind_run. unfold try_except at 1. rewrite bind_run.
  unfold ask at 1. rewrite Hread.
  case_bool_decide; [|done]. reflexivity.
Qed.

(** Without a file name, [main] takes the name and the path from the
    command line and goes on as with them. *)
Lemma main_from_command_line (path : option string) (w : world ref heap) :
  main walk None path w
  = match parse_args (w_heap w) with
    | (Return (y, p), h) => main walk (Some y) p (extend w h [EvParseArgs])
    | (Raise e, h) => (Raise e, extend w h [EvParseArgs])
    end.
Proof.
  unfold main. rewrite bind_run, call_extend.
  destruct (parse_args (w_heap w)) as [[[y p]|e] h]; [|done].
  cbv beta iota zeta delta [fst snd]. by rewrite bind_run.
Qed.

Lemma main_with_file_codes (ylib : string) (path : option string)
  (w : world ref heap) (code : Z) :
  fst (main walk (Some ylib) path w) = Return code ->
  code = 1%Z \/ code = 2%Z.
Proof.
  destruct (read_file ylib (w_heap w)) as [yl|e] eqn:Hread.
  - rewrite (main_after_read walk _ _ _ _ Hread).
    destruct (DataModel_init _ _ _ w) as [[dm|e] w1]; [done|].
    destruct (clause_of _ _); [|done]. intros [= <-]. by right.
  - unfold main. rewrite bind_run. unfold ret at 1.
    cbv beta iota zeta delta [fst snd].
    rewrite bind_run. unfold try_except at 1. rewrite bind_run.
    unfold ask at 1. rewrite Hread.
    case_bool_decide; [|done]. intros [= <-]. by left.
Qed.

(** X13. Whatever the arguments, the files and the modules, a value
    [main] returns is 1 or 2: it never returns 0, the code of a run
    without error. *)
Theorem main_never_returns_0 (ylib path : option string)
  (w : world ref heap) (code : Z) :
  fst (main walk ylib path w) = Return code -> code = 1%Z \/ code = 2%Z.
Proof.
  destruct ylib as [y|]; [apply main_with_file_codes|].
  rewrite main_from_command_line.
  destruct (parse_args (w_heap w)) as [[[y p]|e] h]; [|done].
  apply main_with_file_codes.
Qed.

End Proofs.

Lemma split_chars_part (d : string) (rest acc : list ascii) :
  no_colon d = true ->
  split_chars ":" (list_ascii_of_string d ++ ":"%char :: rest) acc
  = string_of_list_ascii (rev acc ++ list_ascii_of_string d)
    :: split_chars ":" rest [].
Proof.
  revert acc. induction d as [|c d IH]; intros acc Hd; simpl in *.
  - by rewrite app_nil_r.
  - apply andb_prop in Hd as [Hc Hd]. apply negb_true_iff in Hc. rewrite Hc.
    rewrite IH by done. simpl. by rewrite <- app_assoc.
Qed.

Lemma split_chars_last (d : string) (acc : list ascii) :
  no_colon d = true ->
  split_chars ":" (list_ascii_of_string d) acc
  = [string_of_list_ascii (rev acc ++ list_ascii_of_string d)].
Proof.
  revert acc. induction d as [|c d IH]; intros acc Hd; simpl in *.
  - by rewrite app_nil_r.
  - apply andb_prop in Hd as [Hc Hd]. apply negb_true_iff in Hc. rewrite Hc.
    rewrite IH by done. simpl. by rewrite <- app_assoc.
Qed.

End FacadeSpec.

Module PathSpec.
Import Constants Py Yangson Datamodel JsonSchema Observe Facts ScriptObserve.
Import MainSpec FacadeSpec.

Lemma list_ascii_app (a b : string) :
  list_ascii_of_string (a +:+ b)
  = list_ascii_of_string a ++ list_ascii_of_string b.
Proof.
  induction a as [|c a IH]; [done|].
  change (c :: list_ascii_of_string (a +:+ b)
          = c :: (list_ascii_of_string a ++ list_ascii_of_string b)).
  by f_equal.
Qed.

Lemma split_join (d : string) (ds : list string) :
  forallb no_colon (d :: ds) = true ->
  split ":" (Json.join ":" (d :: ds)) = d :: ds.
Proof.
  revert d. induction ds as [|d' ds IH]; intros d Hd.
  - simpl in Hd. apply andb_prop in Hd as [Hd _]. unfold split.
    simpl Json.join. rewrite split_chars_last by done. simpl.
    by rewrite string_of_list_ascii_of_string.
  - simpl in Hd. apply andb_prop in Hd as [Hd Hds]. unfold split.
    change (Json.join ":" (d :: d' :: ds))
      with (d +:+ ":" +:+ Json.join ":" (d' :: ds)).
    rewrite !list_ascii_app.
    change (list_ascii_of_string ":") with [":"%char]. simpl app.
    rewrite split_chars_part by done. simpl rev. simpl app.
    rewrite string_of_list_ascii_of_string. f_equal.
    apply (IH d'). exact Hds.
Qed.

Section Proofs.
Context {ref heap route : Type} {env : Absent ref heap route}.
Variable walk : pyval (ref := ref) -> M ref heap unit.

(** X14. The module path of the data model that [main] builds. Given a
    path that joins directory names with colons, and a library file that
    can be read, [main] constructs the [DataModel] from the text of the
    file with exactly these names, in their order, as its module path; the
    environment variable is not asked. What [main] does next is what it
    does after any construction: the exit code 2 and a line for an
    exception it has a clause for, and the lookup of the attribute
    [schema] for a model that is built. *)
Theorem search_path_directories (ylib : string) (ds : list string)
  (w : world ref heap) (yl : string) :
  forallb no_colon ds = true -> Json.join ":" ds <> "" ->
  read_file ylib (w_heap w) = Return yl ->
  main walk (Some ylib) (Some (Json.join ":" ds)) w
  = match DataModel_init yl ds None w with
    | (Return dm, w1) =>
        (Raise (Exc AttributeError
                  "'DataModel' object has no attribute 'schema'"), w1)
    | (Raise e, w1) =>
        match clause_of (class_of e) model_errors with
        | Some label =>
            (Return 2%Z, with_error_line w1 (label +:+ " " +:+ str e))
        | None => (Raise e, w1)
        end
    end.
Proof.
  intros Hds Hj Hread. rewrite (main_after_read walk _ _ _ _ Hread).
  assert (Hs : search_path (Some (Json.join ":" ds)) (w_heap w)
               = Json.join ":" ds).
  { unfold search_path. by destruct (Json.join ":" ds). }
  rewrite Hs. destruct ds as [|d ds]; [done|].
  by rewrite split_join.
Qed.

End Proofs.
End PathSpec.

(** ** The schema walkers *)

Module WalkSpec.
Import Py Schemanode JsonSchemaWalk WalkObserve.
Local Open Scope walk_scope.

Lemma bind_st_run {A B : Type} (c : St A) (k : A -> St B) (st : store) :
  st_bind c k st = match c st with
                | (Return a, st') => k a st'
                | (Raise e, st') => (Raise e, st')
                end.
Proof. reflexivity. Qed.

Lemma assoc_get_set_eq (k : string) (v : value) (d : list (string * value)) :
  assoc_get k (assoc_set k v d) = Some v.
Proof.
  induction d as [|[k' v'] d IH]; simpl.
  - by rewrite String.eqb_refl.
  - destruct (String.eqb k' k) eqn:E; simpl.
    + by rewrite String.eqb_refl.
    + by rewrite E.
Qed.

Lemma getitem_dict (r : nat) (k : string) (st : store)
  (d : list (string * value)) (x : value) :
  st !! r = Some (ODict d) -> assoc_get k d = Some x ->
  getitem (VRef r) k st = (Return x, st).
Proof. intros H1 H2. unfold getitem. by rewrite H1, H2. Qed.

Lemma setitem_dict (r : nat) (k : string) (x : value) (st : store)
  (d : list (string * value)) :
  st !! r = Some (ODict d) ->
  setitem (VRef r) k x st = (Return tt, <[r := ODict (assoc_set k x d)]> st).
Proof. intros H1. unfold setitem. by rewrite H1. Qed.

Lemma append_list (r : nat) (x : value) (st : store) (l : list value) :
  st !! r = Some (OList l) ->
  append (VRef r) x st = (Return tt, <[r := OList (l ++ [x])]> st).
Proof. intros H1. unfold append. by rewrite H1. Qed.

Lemma alloc_run (o : object) (st : store) :
  alloc o st = (Return (VRef (length st)), st ++ [o]).
Proof. reflexivity. Qed.

Lemma keeps_refl (st : store) (ex : list nat) : keeps st st ex.
Proof. split; [lia|done]. Qed.

Lemma keeps_trans (st1 st2 st3 : store) (ex : list nat) :
  keeps st1 st2 ex -> keeps st2 st3 ex -> keeps st1 st3 ex.
Proof.
  intros [L1 K1] [L2 K2]. split; [lia|].
  intros i Hi Hex. rewrite K2 by (done || lia). by apply K1.
Qed.

Lemma keeps_step (st1 st2 st3 : store) (ex ex' : list nat) :
  keeps st1 st2 ex -> keeps st2 st3 ex' ->
  (forall i, i < length st1 -> In i ex' -> In i ex) ->
  keeps st1 st3 ex.
Proof.
  intros [L1 K1] [L2 K2] Hsub. split; [lia|].
  intros i Hi Hex. rewrite K2; [by apply K1|lia|].
  intros Hin. by apply Hex, Hsub.
Qed.

Lemma keeps_alloc (st : store) (o : object) (ex : list nat) :
  keeps st (st ++ [o]) ex.
Proof.
  split; [rewrite length_app; lia|]. intros i Hi _. by apply lookup_app_l.
Qed.

Lemma keeps_insert (st : store) (r : nat) (o : object) (ex : list nat) :
  (r < length st -> In r ex) -> keeps st (<[r := o]> st) ex.
Proof.
  intros Hr. split; [by rewrite length_insert|].
  intros i Hi Hex. apply list_lookup_insert_ne. intros ->. by apply Hex, Hr.
Qed.

Lemma keeps_weaken (st st' : store) (ex ex' : list nat) :
  (forall i, i < length st -> In i ex -> In i ex') ->
  keeps st st' ex -> keeps st st' ex'.
Proof.
  intros Hsub [L K]. split; [done|]. intros i Hi Hex. apply K; [done|].
  intros Hin. by apply Hex, Hsub.
Qed.

Lemma keeps_nil (st st' : store) (ex : list nat) :
  keeps st st' [] -> keeps st st' ex.
Proof. apply keeps_weaken. simpl. tauto. Qed.

Lemma lookup_lt (st : store) (r : nat) (o : object) :
  st !! r = Some o -> r < length st.
Proof. apply lookup_lt_Some. Qed.

Ltac lens :=
  repeat first [rewrite length_insert | rewrite length_app]; simpl length.

Ltac sl :=
  repeat first
    [ rewrite list_lookup_insert_eq by (lens; lia)
    | rewrite list_lookup_insert_ne by (lens; lia)
    | rewrite lookup_app_l by (lens; lia)
    | rewrite list_lookup_middle by (lens; lia) ].

(** A terminal node below a level in place: the entry made for it, the
    properties and the required names of the level afterwards. *)
Lemma terminal_run (a : attrs) (ch : option (list node)) (r P Q : nat)
  (st : store) (d dp : list (string * value)) (lq : list value) :
  is_terminal a = true ->
  st !! r = Some (ODict d) ->
  assoc_get "properties" d = Some (VRef P) ->
  assoc_get "required" d = Some (VRef Q) ->
  st !! P = Some (ODict dp) -> st !! Q = Some (OList lq) -> r <> P ->
  exists st',
    walk_json_schema (Node a ch) (VRef r) st = (Return (VRef r), st')
    /\ keeps st st' [P; Q]
    /\ length st' = length st + 1
    /\ st' !! P = Some (ODict (assoc_set (iname a) (VRef (length st)) dp))
    /\ st' !! Q = Some (OList (lq ++ if mandatory a
                                     then [VStr (iname a)] else []))
    /\ st' !! length st = Some (ODict (entry_items a)).
Proof.
  intros Ht Hr Hp Hq HP HQ Hne.
  pose proof (lookup_lt _ _ _ Hr) as Lr.
  pose proof (lookup_lt _ _ _ HP) as LP.
  pose proof (lookup_lt _ _ _ HQ) as LQ.
  assert (HPQ : P <> Q) by (intros ->; congruence).
  assert (HrQ : r <> Q) by (intros ->; congruence).
  cbn [walk_json_schema]. rewrite Ht.
  rewrite bind_st_run, alloc_run.
  rewrite bind_st_run, (getitem_dict r _ _ d (VRef P)) by (sl; done).
  rewrite bind_st_run, (setitem_dict P _ _ _ dp) by (sl; done).
  set (st1 := <[P:=_]> _).
  assert (K1 : keeps st st1 [P; Q]).
  { eapply keeps_trans; [apply keeps_alloc|].
    apply keeps_insert. intros _. simpl. lia. }
  assert (H1r : st1 !! r = Some (ODict d)) by (unfold st1; sl; done).
  assert (H1Q : st1 !! Q = Some (OList lq)) by (unfold st1; sl; done).
  assert (H1P : st1 !! P
                = Some (ODict (assoc_set (iname a) (VRef (length st)) dp)))
    by (unfold st1; sl; done).
  assert (H1E : st1 !! length st
                = Some (ODict [("description", of_option (description a))]))
    by (unfold st1; sl; done).
  assert (L1 : length st1 = S (length st)) by (unfold st1; lens; lia).
  clearbody st1.
  rewrite bind_st_run.
  assert (exists st2,
    (if mandatory a
     then req <- getitem (VRef r) "required";; append req (VStr (iname a))
     else st_ret ()) st1 = (Return tt, st2)
    /\ keeps st1 st2 [Q]
    /\ st2 !! Q = Some (OList (lq ++ if mandatory a
                                     then [VStr (iname a)] else []))
    /\ length st2 = length st1) as (st2 & -> & K2 & H2Q & L2).
  { destruct (mandatory a).
    - rewrite bind_st_run, (getitem_dict r _ _ d (VRef Q)) by done.
      rewrite (append_list Q _ _ lq) by done.
      eexists. split; [done|]. split; [|split].
      + apply keeps_insert. intros _. simpl. lia.
      + sl. done.
      + by lens.
    - exists st1. rewrite app_nil_r. split; [done|].
      by split; [apply keeps_refl|]. }
  assert (H2r : st2 !! r = Some (ODict d)).
  { destruct K2 as [_ K2]. rewrite K2; [done|lia|simpl; lia]. }
  assert (H2P : st2 !! P
                = Some (ODict (assoc_set (iname a) (VRef (length st)) dp))).
  { destruct K2 as [_ K2]. rewrite K2; [done|lia|simpl; lia]. }
  assert (H2E : st2 !! length st
                = Some (ODict [("description", of_option (description a))])).
  { destruct K2 as [_ K2]. rewrite K2; [done|lia|simpl; lia]. }
  rewrite bind_st_run.
  assert (exists st3,
    (if is_leaf a
     then
       props <- getitem (VRef r) "properties";;
       entry <- getitem props (iname a);;
       setitem entry "type" (VStr (jsonschema_type_from_class (type a)))
     else st_ret ()) st2 = (Return tt, st3)
    /\ keeps st2 st3 [length st] /\ length st3 = length st2
    /\ st3 !! length st = Some (ODict (entry_items a)))
    as (st3 & -> & K3 & L3 & H3E).
  { unfold entry_items. destruct (is_leaf a).
    - rewrite bind_st_run, (getitem_dict r _ _ d (VRef P)) by done.
      rewrite bind_st_run,
        (getitem_dict P _ _ _ (VRef (length st)) H2P (assoc_get_set_eq _ _ _)).
      rewrite (setitem_dict _ _ _ _ _ H2E).
      eexists. split; [done|]. split; [|split; [by lens|]].
      + apply keeps_insert. simpl. tauto.
      + sl. done.
    - exists st2. split; [done|]. by split; [apply keeps_refl|]. }
  exists st3. split; [done|].
  assert (K : keeps st st3 [P; Q]).
  { eapply keeps_step; [|exact K3|simpl; lia].
    eapply keeps_step; [exact K1|exact K2|simpl; lia]. }
  split; [exact K|]. split; [lia|]. destruct K3 as [_ K3].
  split; [|split; [|done]].
  - rewrite K3; [exact H2P|lia|simpl; lia].
  - rewrite K3; [exact H2Q|lia|simpl; lia].
Qed.

(** A terminal node below a given level. *)
Lemma terminal_ok (a : attrs) (ch : option (list node)) (r P Q : nat)
  (st : store) :
  is_terminal a = true -> level st r P Q ->
  exists st',
    walk_json_schema (Node a ch) (VRef r) st = (Return (VRef r), st')
    /\ keeps st st' [P; Q] /\ is_dict st' P /\ is_list st' Q.
Proof.
  intros Ht (d & Hr & Hp & Hq & (dp & HP) & (lq & HQ) & Hne).
  destruct (terminal_run a ch r P Q st d dp lq Ht Hr Hp Hq HP HQ Hne)
    as (st' & Hrun & K & _ & HP' & HQ' & _).
  exists st'. split; [done|]. split; [done|]. split; by eexists.
Qed.

Lemma update_method_dict (r : nat) (st : store) (d : list (string * value)) :
  st !! r = Some (ODict d) -> update_method (VRef r) st = (Return tt, st).
Proof. intros H. unfold update_method. by rewrite H. Qed.

Lemma update_dict (r r' : nat) (st : store) (d d' : list (string * value)) :
  st !! r = Some (ODict d) -> st !! r' = Some (ODict d') ->
  update (VRef r) (VRef r') st = (Return tt, <[r := ODict (merge d d')]> st).
Proof. intros H H'. unfold update. by rewrite H, H'. Qed.

Lemma iadd_list (r r' : nat) (st : store) (l more : list value) :
  st !! r = Some (OList l) -> st !! r' = Some (OList more) ->
  iadd (VRef r) (VRef r') st
  = (Return (VRef r), <[r := OList (l ++ more)]> st).
Proof. intros H H'. unfold iadd. by rewrite H', H. Qed.

Lemma copy_object (r : nat) (st : store) (o : object) :
  st !! r = Some o -> copy (VRef r) st = (Return (VRef (length st)), st ++ [o]).
Proof. intros H. unfold copy. by rewrite H. Qed.

Lemma assoc_set_same (k : string) (v : value) (d : list (string * value)) :
  assoc_get k d = Some v -> assoc_set k v d = d.
Proof.
  induction d as [|[k' v'] d IH]; simpl; [done|].
  destruct (String.eqb k' k) eqn:E.
  - apply String.eqb_eq in E. by intros [= ->]; subst.
  - intros H. by rewrite IH.
Qed.

Lemma level_keeps (st st' : store) (r P Q : nat) :
  level st r P Q -> keeps st st' [P; Q] -> is_dict st' P -> is_list st' Q ->
  level st' r P Q.
Proof.
  intros (d & Hr & Hp & Hq & _ & (lq & HQ) & Hne) [_ K] HP' HQ'.
  exists d. repeat split; try done.
  rewrite K; [done|by eapply lookup_lt|].
  simpl. intros [->|[->|[]]]; congruence.
Qed.

Lemma children_loop_ok (a : attrs) (cs : list node) :
  Forall (visited_ok a) cs ->
  forall cd CP CR st, level st cd CP CR ->
  exists st',
    fold_st (child_round a) cs (VRef cd) st = (Return (VRef cd), st')
    /\ keeps st st' [CP; CR] /\ is_dict st' CP /\ is_list st' CR.
Proof.
  induction 1 as [|c cs Hc _ IH]; intros cd CP CR st Hl.
  - exists st. split; [done|]. split; [apply keeps_refl|].
    destruct Hl as (_ & _ & _ & _ & ? & ? & _). done.
  - cbn [fold_st]. rewrite bind_st_run. unfold child_round at 1.
    destruct (passed_over a c) eqn:E.
    + apply IH, Hl.
    + destruct (Hc E _ _ _ _ Hl) as (st1 & -> & K1 & HP1 & HQ1).
      destruct (IH cd CP CR st1) as (st2 & -> & K2 & HP2 & HQ2).
      { by eapply level_keeps. }
      exists st2. split; [done|]. split; [|done].
      by eapply keeps_trans.
Qed.

Lemma children_objects_level (a : attrs) (st : store) :
  level (children_objects a st) (length st + 2) (length st)
    (length st + 1).
Proof.
  unfold children_objects. eexists. split; [|split; [|split; [|split; [|split]]]].
  - apply list_lookup_middle. lens. lia.
  - reflexivity.
  - reflexivity.
  - eexists. sl. done.
  - eexists. sl. done.
  - lia.
Qed.

(** A node with children that is no choice, below a level that is in
    place: nothing but the properties of the level changes. *)
Lemma internal_ok (a : attrs) (cs : list node) :
  is_terminal a = false -> is_choice a = false ->
  Forall (visited_ok a) cs ->
  forall r P Q st, level st r P Q ->
  exists st' dp dcp,
    walk_json_schema (Node a (Some cs)) (VRef r) st = (Return (VRef r), st')
    /\ keeps st st' [P] /\ is_dict st' P
    /\ st !! P = Some (ODict dp)
    /\ st' !! length st = Some (ODict dcp)
    /\ st' !! (length st + 2) = Some (ODict (children_items a (length st)))
    /\ st' !! P
       = Some (ODict (if is_group a || is_case a then merge dp dcp
                      else assoc_set (iname a) (VRef (length st + 2)) dp)).
Proof.
  intros Ht Hc Hcs r P Q st (d & Hr & Hp & Hq & (dp & HP) & (lq & HQ) & Hne).
  pose proof (lookup_lt _ _ _ Hr) as Lr.
  pose proof (lookup_lt _ _ _ HP) as LP.
  pose proof (lookup_lt _ _ _ HQ) as LQ.
  assert (HPQ : P <> Q) by (intros ->; congruence).
  assert (HrQ : r <> Q) by (intros ->; congruence).
  cbn [walk_json_schema]. rewrite Ht, Hc.
  rewrite bind_st_run. unfold st_ret at 1. cbv beta iota.
  rewrite bind_st_run, alloc_run, bind_st_run, alloc_run, bind_st_run, alloc_run.
  change (fold_st _ cs) with (fold_st (child_round a) cs).
  rewrite bind_st_run.
  rewrite !length_app. simpl length. rewrite <- !Nat.add_assoc.
  simpl Nat.add. fold (children_objects a st).
  pose proof (children_objects_level a st) as Hl.
  destruct (children_loop_ok a cs Hcs _ _ _ _ Hl)
    as (st2 & -> & K2 & (dcp & H2CP) & (lcr & H2CR)).
  assert (Lc : length (children_objects a st) = length st + 3).
  { unfold children_objects. lens. lia. }
  assert (K1 : keeps st (children_objects a st) []).
  { unfold children_objects. repeat (eapply keeps_trans; [|apply keeps_alloc]).
    apply keeps_refl. }
  assert (K : keeps st st2 []).
  { eapply keeps_step; [exact K1|exact K2|]. simpl. lia. }
  assert (H2r : st2 !! r = Some (ODict d)).
  { destruct K as [_ K]. by rewrite K; [|lia|simpl; lia]. }
  assert (H2P : st2 !! P = Some (ODict dp)).
  { destruct K as [_ K]. by rewrite K; [|lia|simpl; lia]. }
  assert (H2Q : st2 !! Q = Some (OList lq)).
  { destruct K as [_ K]. by rewrite K; [|lia|simpl; lia]. }
  assert (H2CD : st2 !! (length st + 2)
                 = Some (ODict [("properties", VRef (length st));
                                ("type", VStr "object");
                                ("description", of_option (description a));
                                ("required", VRef (length st + 1))])).
  { destruct K2 as [_ K2]. rewrite K2; [|lia|simpl; lia].
    unfold children_objects. apply list_lookup_middle. lens. lia. }
  pose proof (proj1 K) as L2.
  assert (L2' : length st + 3 <= length st2).
  { destruct K2 as [K2 _]. lia. }
  rewrite bind_st_run. rewrite orb_false_r.
  destruct (is_group a || is_case a).
  - rewrite bind_st_run, (getitem_dict r _ _ d (VRef P)) by done.
    rewrite bind_st_run, (update_method_dict P _ dp) by done.
    rewrite bind_st_run, (getitem_dict _ _ _ _ (VRef (length st)) H2CD) by done.
    rewrite bind_st_run, (update_dict P _ _ dp dcp) by done.
    rewrite bind_st_run, (getitem_dict r _ _ d (VRef Q)) by (sl; done).
    unfold hasattr_required. rewrite bind_st_run, alloc_run.
    rewrite bind_st_run, (iadd_list Q _ _ lq []) by (sl; done).
    rewrite (setitem_dict r _ _ _ d) by (sl; done).
    rewrite (assoc_set_same _ _ _ Hq), app_nil_r.
    rewrite (list_insert_id _ Q) by (sl; done).
    rewrite (list_insert_id _ r) by (sl; done).
    eexists _, dp, dcp. split; [done|]. split; [|split; [eexists; sl; done|]].
    + eapply (keeps_step _ _ _ _ [P]); [exact (keeps_nil _ _ _ K)| |simpl; tauto].
      eapply keeps_trans; [|apply keeps_alloc].
      apply keeps_insert. simpl. tauto.
    + split; [done|]. split; [sl; exact H2CP|].
      split; [sl; exact H2CD|]. by sl.
  - rewrite bind_st_run, (getitem_dict r _ _ d (VRef P)) by done.
    rewrite (setitem_dict P _ _ _ dp) by done.
    eexists _, dp, dcp. split; [done|]. split; [|split; [eexists; sl; done|]].
    + eapply (keeps_step _ _ _ _ [P]); [exact (keeps_nil _ _ _ K)| |simpl; tauto].
      apply keeps_insert. simpl. tauto.
    + split; [done|]. split; [sl; exact H2CP|].
      split; [sl; exact H2CD|]. by sl.
Qed.

Lemma case_at_keeps (a : attrs) (k : nat) (st st' : store) (c : node)
  (b : nat) :
  keeps st st' [k; k + 1; k + 3] -> case_at a k st c b -> case_at a k st' c b.
Proof.
  intros [_ K] (Hb & n & Hn & H1 & H2). split; [done|]. exists n.
  split; [done|]. split.
  - rewrite K; [done|by eapply lookup_lt|simpl; lia].
  - rewrite K; [done|by eapply lookup_lt|simpl; lia].
Qed.

Lemma case_round_ok (a : attrs) (k : nat) (c : node) (st : store)
  (cs : list node) (bs : list nat) :
  walk_ok c -> has_children c -> cases_inv a k st cs bs ->
  exists st',
    case_round (VRef (k + 2)) (VRef (k + 3)) c st = (Return tt, st')
    /\ keeps st st' [k; k + 1; k + 3]
    /\ cases_inv a k st' (cs ++ [c]) (bs ++ [length st]).
Proof.
  intros Hc [xs Hxs] (Lk & HCD & HCP & HCR & HL & HF).
  unfold case_round.
  rewrite bind_st_run, (copy_object _ _ _ HCD).
  assert (Hl : level (st ++ [ODict (children_items a k)]) (length st) k
                 (k + 1)).
  { exists (children_items a k). split; [by apply list_lookup_middle|].
    split; [done|]. split; [done|].
    destruct HCP as [dcp HCP], HCR as [lcr HCR].
    split; [|split]; [eexists; sl; done..|lia]. }
  destruct (Hc _ _ _ _ Hl) as (st2 & Hrun & K2 & (dcp & H2CP) & (lcr & H2CR)).
  rewrite bind_st_run, Hrun.
  assert (L2 : length st + 1 <= length st2).
  { destruct K2 as [K2 _]. rewrite length_app in K2. simpl in K2. lia. }
  assert (K02 : keeps st st2 [k; k + 1]).
  { eapply keeps_step; [apply keeps_alloc|exact K2|]. simpl. lia. }
  assert (H2B : st2 !! length st = Some (ODict (children_items a k))).
  { destruct K2 as [_ K2]. rewrite K2; [|lens; lia|simpl; lia].
    by apply list_lookup_middle. }
  rewrite bind_st_run, (setitem_dict _ _ _ _ _ H2B).
  rewrite bind_st_run, (setitem_dict (length st) _ _ _
                      (assoc_set "title" (VStr (iname (attrs_of c)))
                         (children_items a k))) by (sl; done).
  unfold get_children. rewrite Hxs. rewrite bind_st_run. unfold st_ret at 1.
  cbv beta iota. rewrite bind_st_run, alloc_run.
  rewrite bind_st_run.
  erewrite (setitem_dict (length st)) by (sl; done).
  assert (H2L : st2 !! (k + 3) = Some (OList (map VRef bs))).
  { destruct K02 as [_ K]. rewrite K; [done|lia|simpl; lia]. }
  erewrite (append_list (k + 3)) by (sl; exact H2L).
  eexists. split; [done|].
  set (st7 := <[k + 3 := _]> _).
  assert (K07 : keeps st st7 [k; k + 1; k + 3]).
  { eapply (keeps_step _ _ _ _ [k + 3; length st]);
      [eapply keeps_weaken; [|exact K02]; simpl; tauto| |simpl; lia].
    unfold st7. eapply keeps_trans; [|apply keeps_insert; simpl; tauto].
    eapply keeps_trans; [|apply keeps_insert; simpl; tauto].
    eapply keeps_trans; [|apply keeps_alloc].
    eapply keeps_trans; [|apply keeps_insert; simpl; tauto].
    apply keeps_insert. simpl. tauto. }
  split; [exact K07|].
  assert (L7 : length st7 = length st2 + 1) by (unfold st7; lens; lia).
  split; [lia|]. split; [|split; [|split; [|split]]].
  - destruct K07 as [_ K]. rewrite K; [done|lia|simpl; lia].
  - exists dcp. unfold st7. sl. done.
  - exists lcr. unfold st7. sl. done.
  - unfold st7. sl. by rewrite map_app.
  - apply Forall2_app.
    + clearbody st7. clear -HF K07. induction HF; constructor; [|done].
      by eapply case_at_keeps.
    + constructor; [|constructor]. split; [lia|].
      exists (length st2). split; [lia|]. split.
      * unfold st7. sl. rewrite !length_insert. reflexivity.
      * unfold st7. sl. unfold names_of. by rewrite Hxs.
Qed.

Lemma cases_loop_ok (a : attrs) (k : nat) (cs : list node) :
  Forall walk_ok cs -> Forall has_children cs ->
  forall st cs0 bs0, cases_inv a k st cs0 bs0 ->
  exists st' bs,
    st_for_each cs (case_round (VRef (k + 2)) (VRef (k + 3))) st
    = (Return tt, st')
    /\ keeps st st' [k; k + 1; k + 3]
    /\ cases_inv a k st' (cs0 ++ cs) (bs0 ++ bs).
Proof.
  intros Hok Hch. revert Hch.
  induction Hok as [|c cs Hc _ IH]; intros Hch st cs0 bs0 Hinv.
  - exists st, []. split; [done|]. split; [apply keeps_refl|].
    by rewrite !app_nil_r.
  - apply Forall_cons in Hch as [Hch1 Hch].
    destruct (case_round_ok a k c st cs0 bs0 Hc Hch1 Hinv)
      as (st1 & Hrun & K1 & Hinv1).
    destruct (IH Hch st1 _ _ Hinv1) as (st2 & bs & Hrun2 & K2 & Hinv2).
    exists st2, (length st :: bs). unfold st_for_each in *. cbn [fold_st].
    rewrite bind_st_run, Hrun. split; [exact Hrun2|]. split.
    + by eapply keeps_trans.
    + by rewrite <- !app_assoc in Hinv2.
Qed.

(** A choice node below a level that is in place. *)
Lemma choice_ok (a : attrs) (cs : list node) :
  is_terminal a = false -> is_choice a = true ->
  Forall walk_ok cs -> Forall has_children cs ->
  forall r P Q st dp lq,
  level st r P Q -> st !! P = Some (ODict dp) -> st !! Q = Some (OList lq) ->
  exists st' bs E,
    walk_json_schema (Node a (Some cs)) (VRef r) st = (Return (VRef r), st')
    /\ keeps st st' [P; Q]
    /\ st' !! P = Some (ODict (assoc_set (choice_name a) (VRef E) dp))
    /\ st' !! Q = Some (OList (lq ++ if mandatory a
                                     then [VStr (choice_name a)] else []))
    /\ st' !! E = Some (ODict (choice_items a (length st + 3)))
    /\ st' !! (length st + 3) = Some (OList (map VRef bs))
    /\ Forall2 (case_at a (length st) st') cs bs.
Proof.
  intros Ht Hc Hcs Hch r P Q st dp lq
    (d & Hr & Hp & Hq & _ & _ & Hne) HP HQ.
  pose proof (lookup_lt _ _ _ Hr) as Lr.
  pose proof (lookup_lt _ _ _ HP) as LP.
  pose proof (lookup_lt _ _ _ HQ) as LQ.
  assert (HPQ : P <> Q) by (intros ->; congruence).
  assert (HrQ : r <> Q) by (intros ->; congruence).
  cbn [walk_json_schema]. rewrite Ht, Hc.
  rewrite bind_st_run. unfold st_ret at 1. cbv beta iota.
  rewrite bind_st_run, alloc_run, bind_st_run, alloc_run, bind_st_run, alloc_run.
  rewrite bind_st_run, alloc_run.
  rewrite !length_app. simpl length. rewrite <- !Nat.add_assoc.
  simpl Nat.add. fold (children_objects a st).
  change (st_for_each cs _)
    with (st_for_each cs (case_round (VRef (length st + 2))
                         (VRef (length st + 3)))).
  assert (Lc : length (children_objects a st) = length st + 3).
  { unfold children_objects. lens. lia. }
  assert (Hinv : cases_inv a (length st) (children_objects a st ++ [OList []])
                   [] []).
  { split; [lens; lia|]. split; [|split; [|split; [|split]]].
    - unfold children_objects. sl. done.
    - eexists. unfold children_objects. sl. done.
    - eexists. unfold children_objects. sl. done.
    - apply list_lookup_middle. lia.
    - constructor. }
  destruct (cases_loop_ok a (length st) cs Hcs Hch _ _ _ Hinv)
    as (st2 & bs & Hrun & K2 & Hinv2).
  rewrite bind_st_run, Hrun. simpl app in Hinv2.
  destruct Hinv2 as (L2 & H2CD & H2CP & H2CR & H2L & H2F).
  assert (K : keeps st st2 []).
  { eapply keeps_step; [|exact K2|simpl; lia].
    eapply keeps_trans; [|apply keeps_alloc].
    unfold children_objects.
    repeat (eapply keeps_trans; [|apply keeps_alloc]). apply keeps_refl. }
  assert (H2r : st2 !! r = Some (ODict d)).
  { destruct K as [_ K]. by rewrite K; [|lia|simpl; lia]. }
  assert (H2P : st2 !! P = Some (ODict dp)).
  { destruct K as [_ K]. by rewrite K; [|lia|simpl; lia]. }
  assert (H2Q : st2 !! Q = Some (OList lq)).
  { destruct K as [_ K]. by rewrite K; [|lia|simpl; lia]. }
  rewrite bind_st_run, alloc_run.
  rewrite bind_st_run, (getitem_dict r _ _ d (VRef P)) by (sl; done).
  rewrite bind_st_run, (setitem_dict P _ _ _ dp) by (sl; done).
  fold (choice_name a). fold (choice_items a (length st + 3)).
  set (st3 := <[P := _]> _).
  assert (K23 : keeps st2 st3 [P]).
  { unfold st3. eapply keeps_trans; [apply keeps_alloc|].
    apply keeps_insert. simpl. tauto. }
  assert (H3F : Forall2 (case_at a (length st) st3) cs bs).
  { clear -H2F K23 LP. induction H2F as [|c b cs bs Hcb _ IH];
      constructor; [|done].
    destruct Hcb as (Hb & n & Hn & H1 & H2). split; [done|]. exists n.
    split; [done|]. destruct K23 as [_ K]. split.
    - rewrite K; [done|by eapply lookup_lt|simpl; lia].
    - rewrite K; [done|by eapply lookup_lt|simpl; lia]. }
  assert (H3E : st3 !! length st2
                = Some (ODict (choice_items a (length st + 3))))
    by (unfold st3; sl; done).
  assert (H3P : st3 !! P
                = Some (ODict (assoc_set (choice_name a)
                                 (VRef (length st2)) dp)))
    by (unfold st3; sl; done).
  assert (H3Q : st3 !! Q = Some (OList lq)) by (unfold st3; sl; done).
  assert (H3r : st3 !! r = Some (ODict d)) by (unfold st3; sl; done).
  assert (H3L : st3 !! (length st + 3) = Some (OList (map VRef bs)))
    by (unfold st3; sl; done).
  assert (L3 : length st3 = length st2 + 1) by (unfold st3; lens; lia).
  assert (K03 : keeps st st3 [P; Q]).
  { eapply (keeps_step _ _ _ _ [P]);
      [exact (keeps_nil _ _ _ K)|exact K23|simpl; tauto]. }
  clearbody st3. rewrite bind_st_run.
  destruct (mandatory a).
  - rewrite bind_st_run, (getitem_dict r _ _ d (VRef Q)) by done.
    rewrite (append_list Q _ _ lq) by done.
    exists (<[Q := OList (lq ++ [VStr (choice_name a)])]> st3), bs,
      (length st2).
    split; [done|]. split.
    { eapply keeps_trans; [exact K03|]. apply keeps_insert. simpl. tauto. }
    split; [by sl|]. split; [by sl|]. split; [by sl|]. split; [by sl|].
    clear -H3F LQ K03. induction H3F as [|c b cs bs Hcb _ IH];
      constructor; [|done].
    destruct Hcb as (Hb & n & Hn & H1 & H2). split; [done|]. exists n.
    split; [done|]. destruct K03 as [L _].
    split; rewrite list_lookup_insert_ne by lia; done.
  - exists st3, bs, (length st2). rewrite app_nil_r. done.
Qed.

Lemma node_induction (P : node -> Prop) :
  (forall a, P (Node a None)) ->
  (forall a cs, Forall P cs -> P (Node a (Some cs))) ->
  forall n, P n.
Proof.
  intros H1 H2.
  exact (fix IH (n : node) : P n :=
           match n with
           | Node a None => H1 a
           | Node a (Some cs) =>
               H2 a cs ((fix go (cs : list node) : Forall P cs :=
                           match cs with
                           | [] => Forall_nil_2 P
                           | c :: cs' => Forall_cons_2 P c cs' (IH c) (go cs')
                           end) cs)
           end).
Qed.

Lemma level_of_level (st : store) (r P Q : nat) :
  level_of st r = Some (P, Q) -> level st r P Q.
Proof.
  unfold level_of, level. intros H.
  destruct (st !! r) as [[d|]|] eqn:Hr; try done. exists d.
  destruct (assoc_get "properties" d) as [[| | |P']|]; try done.
  destruct (assoc_get "required" d) as [[| | |Q']|]; try done.
  destruct (st !! P') as [[dp|]|] eqn:HP; try done.
  destruct (st !! Q') as [[|lq]|] eqn:HQ; try done.
  destruct (Nat.eqb r P') eqn:E; [done|]. apply Nat.eqb_neq in E.
  injection H as -> ->. repeat split; eauto; by eexists.
Qed.

(** On a tree it goes through, the walk from a level in place comes
    back with the level. *)
Lemma walkable_ok (n : node) : walkable n = true -> walk_ok n.
Proof.
  induction n as [a|a cs IH] using node_induction; intros Hn.
  - simpl in Hn. rewrite orb_false_r in Hn.
    intros r P Q st Hl. by apply terminal_ok.
  - simpl in Hn. intros r P Q st Hl.
    destruct (is_terminal a) eqn:Ht; [by apply terminal_ok|].
    simpl in Hn. destruct (is_choice a) eqn:Hc.
    + assert (Hok : Forall walk_ok cs /\ Forall has_children cs).
      { clear -IH Hn. induction IH as [|c cs Hc _ IH']; [by split|].
        simpl in Hn. apply andb_prop in Hn as [H1 H2].
        apply andb_prop in H1 as [H1 H1']. destruct (IH' H2) as [? ?].
        split; constructor; auto.
        unfold has_children_attr in H1'. unfold has_children.
        by destruct (children_of c). }
      destruct Hok as [Hok Hch].
      pose proof Hl as (d & _ & _ & _ & (dp & HP) & (lq & HQ) & _).
      destruct (choice_ok a cs Ht Hc Hok Hch r P Q st dp lq Hl HP HQ)
        as (st' & bs & E & Hrun & K & HP' & HQ' & _).
      exists st'. split; [done|]. split; [done|]. split; by eexists.
    + assert (Hok : Forall (visited_ok a) cs).
      { clear -IH Hn. induction IH as [|c cs Hc _ IH']; [constructor|].
        simpl in Hn. apply andb_prop in Hn as [H1 H2].
        constructor; [|by apply IH'].
        intros E. rewrite E in H1. by apply Hc. }
      destruct (internal_ok a cs Ht Hc Hok r P Q st Hl)
        as (st' & dp' & dcp & Hrun & K & HP' & _).
      exists st'. split; [done|]. split.
      * eapply keeps_weaken; [|exact K]. simpl. tauto.
      * split; [done|].
        destruct Hl as (d & Hr & _ & _ & (dp & HP) & (lq & HQ) & _).
        exists lq. destruct K as [_ K]. rewrite K; [done|by eapply lookup_lt|].
        simpl. intros [->|[]]. congruence.
Qed.

Lemma children_visited_ok (a : attrs) (cs : list node) :
  forallb (fun c => passed_over a c || walkable c) cs = true ->
  Forall (visited_ok a) cs.
Proof.
  induction cs as [|c cs IH]; [constructor|]. simpl. intros H.
  apply andb_prop in H as [H1 H2]. constructor; [|by apply IH].
  intros E. rewrite E in H1. by apply walkable_ok.
Qed.

Lemma cases_walk_ok (cs : list node) :
  forallb (fun c => walkable c && has_children_attr c) cs = true ->
  Forall walk_ok cs /\ Forall has_children cs.
Proof.
  induction cs as [|c cs IH]; [by split|]. simpl. intros H.
  apply andb_prop in H as [H1 H2]. apply andb_prop in H1 as [H1 H1'].
  destruct (IH H2) as [? ?]. split; constructor; auto.
  - by apply walkable_ok.
  - unfold has_children_attr in H1'. unfold has_children.
    by destruct (children_of c).
Qed.

Lemma no_attribute_children {A : Type} (cls : string) (st : store) :
  no_attribute (A := A) cls "children" st = (Raise (no_children cls), st).
Proof. reflexivity. Qed.

(** The loop over the children of a node that is no choice, when it comes
    to a child the walk does not go through. *)
Lemma children_loop_fails (a : attrs) (cs : list node) :
  Forall (fun c => walkable c = false -> walk_fails c) cs ->
  forallb (fun c => passed_over a c || walkable c) cs = false ->
  forall cd CP CR st, level st cd CP CR ->
  exists e st',
    fold_st (child_round a) cs (VRef cd) st = (Raise e, st')
    /\ lacks_children e /\ keeps st st' [CP; CR].
Proof.
  induction 1 as [|c cs Hc _ IH]; intros Hcs cd CP CR st Hl; [done|].
  simpl in Hcs. cbn [fold_st]. rewrite bind_st_run. unfold child_round at 1.
  destruct (passed_over a c) eqn:E; simpl in Hcs.
  - by apply IH.
  - destruct (walkable c) eqn:Hw; simpl in Hcs.
    + destruct (walkable_ok c Hw _ _ _ _ Hl) as (st1 & -> & K1 & HP1 & HQ1).
      destruct (IH Hcs cd CP CR st1) as (e & st2 & -> & He & K2).
      { by eapply level_keeps. }
      exists e, st2. split; [done|]. split; [done|]. by eapply keeps_trans.
    + destruct (Hc eq_refl _ _ _ _ Hl) as (e & st1 & -> & He & K1).
      by exists e, st1.
Qed.

(** A round of the loop over the children of a choice node, for a child
    the walk does not go through or that has no children. *)
Lemma case_round_fails (a : attrs) (k : nat) (c : node) (st : store)
  (cs : list node) (bs : list nat) :
  (walkable c = false -> walk_fails c) ->
  walkable c && has_children_attr c = false ->
  cases_inv a k st cs bs ->
  exists e st',
    case_round (VRef (k + 2)) (VRef (k + 3)) c st = (Raise e, st')
    /\ lacks_children e /\ keeps st st' [k; k + 1; k + 3].
Proof.
  intros Hc Hno (Lk & HCD & HCP & HCR & HL & HF).
  unfold case_round.
  rewrite bind_st_run, (copy_object _ _ _ HCD).
  assert (Hl : level (st ++ [ODict (children_items a k)]) (length st) k
                 (k + 1)).
  { exists (children_items a k). split; [by apply list_lookup_middle|].
    split; [done|]. split; [done|].
    destruct HCP as [dcp HCP], HCR as [lcr HCR].
    split; [|split]; [eexists; sl; done..|lia]. }
  rewrite bind_st_run.
  destruct (walkable c) eqn:Hw.
  - simpl in Hno.
    destruct (walkable_ok c Hw _ _ _ _ Hl)
      as (st2 & -> & K2 & (dcp & H2CP) & (lcr & H2CR)).
    assert (L2 : length st + 1 <= length st2).
    { destruct K2 as [K2 _]. rewrite length_app in K2. simpl in K2. lia. }
    assert (H2B : st2 !! length st = Some (ODict (children_items a k))).
    { destruct K2 as [_ K2]. rewrite K2; [|lens; lia|simpl; lia].
      by apply list_lookup_middle. }
    rewrite bind_st_run, (setitem_dict _ _ _ _ _ H2B).
    rewrite bind_st_run, (setitem_dict (length st) _ _ _
                        (assoc_set "title" (VStr (iname (attrs_of c)))
                           (children_items a k))) by (sl; done).
    unfold get_children, has_children_attr in *.
    destruct (children_of c); [done|].
    rewrite bind_st_run, no_attribute_children.
    eexists _, _. split; [done|]. split; [by eexists|].
    eapply (keeps_step _ _ _ _ [length st]);
      [eapply keeps_step; [apply keeps_alloc|exact K2|simpl; lia]| |simpl; lia].
    eapply keeps_trans; apply keeps_insert; simpl; tauto.
  - destruct (Hc eq_refl _ _ _ _ Hl) as (e & st2 & -> & He & K2).
    exists e, st2. split; [done|]. split; [done|].
    eapply keeps_step; [apply keeps_alloc|exact K2|]. simpl. lia.
Qed.

Lemma cases_loop_fails (a : attrs) (k : nat) (cs : list node) :
  Forall (fun c => walkable c = false -> walk_fails c) cs ->
  forallb (fun c => walkable c && has_children_attr c) cs = false ->
  forall st cs0 bs0, cases_inv a k st cs0 bs0 ->
  exists e st',
    st_for_each cs (case_round (VRef (k + 2)) (VRef (k + 3))) st
    = (Raise e, st')
    /\ lacks_children e /\ keeps st st' [k; k + 1; k + 3].
Proof.
  induction 1 as [|c cs Hc _ IH]; intros Hcs st cs0 bs0 Hinv; [done|].
  simpl in Hcs. unfold st_for_each in *. cbn [fold_st]. rewrite bind_st_run.
  destruct (walkable c && has_children_attr c) eqn:E.
  - apply andb_prop in E as [Hw Hch].
    assert (Hch' : has_children c).
    { unfold has_children_attr in Hch. unfold has_children.
      by destruct (children_of c). }
    destruct (case_round_ok a k c st cs0 bs0 (walkable_ok c Hw) Hch' Hinv)
      as (st1 & -> & K1 & Hinv1).
    destruct (IH Hcs st1 _ _ Hinv1) as (e & st2 & -> & He & K2).
    exists e, st2. split; [done|]. split; [done|]. by eapply keeps_trans.
  - destruct (case_round_fails a k c st cs0 bs0 Hc E Hinv)
      as (e & st1 & -> & He & K1).
    by exists e, st1.
Qed.

(** On a tree it does not go through, the walk from a level in place
    ends with the exception for a node without children, before it
    changes an object that was there. *)
Lemma unwalkable_fails (n : node) : walkable n = false -> walk_fails n.
Proof.
  induction n as [a|a cs IH] using node_induction; intros Hn r P Q st Hl.
  - simpl in Hn. rewrite orb_false_r in Hn.
    cbn [walk_json_schema]. rewrite Hn.
    rewrite bind_st_run. unfold st_ret at 1. cbv beta iota.
    rewrite bind_st_run, alloc_run, bind_st_run, alloc_run, bind_st_run, alloc_run.
    destruct (is_choice a).
    + rewrite bind_st_run, alloc_run, bind_st_run, no_attribute_children.
      eexists _, _. split; [done|]. split; [by eexists|].
      repeat (eapply keeps_trans; [|apply keeps_alloc]). apply keeps_refl.
    + rewrite bind_st_run, no_attribute_children.
      eexists _, _. split; [done|]. split; [by eexists|].
      repeat (eapply keeps_trans; [|apply keeps_alloc]). apply keeps_refl.
  - simpl in Hn. destruct (is_terminal a) eqn:Ht; [done|]. simpl in Hn.
    cbn [walk_json_schema]. rewrite Ht.
    destruct (is_choice a) eqn:Hc.
    + rewrite bind_st_run. unfold st_ret at 1. cbv beta iota.
      rewrite bind_st_run, alloc_run, bind_st_run, alloc_run, bind_st_run, alloc_run.
      rewrite bind_st_run, alloc_run.
      rewrite !length_app. simpl length. rewrite <- !Nat.add_assoc.
      simpl Nat.add. fold (children_objects a st).
      change (st_for_each cs _)
        with (st_for_each cs (case_round (VRef (length st + 2))
                             (VRef (length st + 3)))).
      assert (Lc : length (children_objects a st) = length st + 3).
      { unfold children_objects. lens. lia. }
      assert (Hinv : cases_inv a (length st)
                       (children_objects a st ++ [OList []]) [] []).
      { split; [lens; lia|]. split; [|split; [|split; [|split]]].
        - unfold children_objects. sl. done.
        - eexists. unfold children_objects. sl. done.
        - eexists. unfold children_objects. sl. done.
        - apply list_lookup_middle. lia.
        - constructor. }
      destruct (cases_loop_fails a (length st) cs IH Hn _ _ _ Hinv)
        as (e & st2 & Hrun & He & K2).
      rewrite bind_st_run, Hrun. exists e, st2. split; [done|]. split; [done|].
      destruct Hl as (d & Hr & _).
      pose proof (lookup_lt_Some _ _ _ Hr) as Lr.
      eapply keeps_step; [|exact K2|simpl; lia].
      eapply keeps_trans; [|apply keeps_alloc].
      unfold children_objects.
      repeat (eapply keeps_trans; [|apply keeps_alloc]).
      apply keeps_refl.
    + rewrite bind_st_run. unfold st_ret at 1. cbv beta iota.
      rewrite bind_st_run, alloc_run, bind_st_run, alloc_run, bind_st_run, alloc_run.
      change (fold_st _ cs) with (fold_st (child_round a) cs).
      rewrite bind_st_run.
      rewrite !length_app. simpl length. rewrite <- !Nat.add_assoc.
      simpl Nat.add. fold (children_objects a st).
      destruct (children_loop_fails a cs IH Hn _ _ _ _
                  (children_objects_level a st))
        as (e & st2 & -> & He & K2).
      exists e, st2. split; [done|]. split; [done|].
      eapply keeps_step; [|exact K2|simpl; lia].
      unfold children_objects.
      repeat (eapply keeps_trans; [|apply keeps_alloc]).
      apply keeps_refl.
Qed.

Lemma level_level_of (st : store) (r P Q : nat) :
  level st r P Q -> level_of st r = Some (P, Q).
Proof.
  intros (d & Hr & Hp & Hq & (dp & HP) & (lq & HQ) & Hne).
  unfold level_of. rewrite Hr, Hp, Hq, HP, HQ.
  apply Nat.eqb_neq in Hne. by rewrite Hne.
Qed.

Lemma top_objects_level (st : store) :
  level (top_objects st) (length st + 2) (length st) (length st + 1).
Proof.
  unfold top_objects. eexists.
  split; [|split; [|split; [|split; [|split]]]].
  - apply list_lookup_middle. lens. lia.
  - reflexivity.
  - reflexivity.
  - eexists. sl. done.
  - eexists. sl. done.
  - lia.
Qed.

(** A walk without a level from a node that is not terminal is the walk
    from the level it makes first. *)
Lemma walk_none (a : attrs) (ch : option (list node)) (st : store) :
  is_terminal a = false ->
  walk_json_schema (Node a ch) VNone st
  = walk_json_schema (Node a ch) (VRef (length st + 2)) (top_objects st).
Proof.
  intros Ht. cbn [walk_json_schema]. rewrite Ht.
  rewrite (bind_st_run (_ <- alloc _ ;; _)).
  rewrite bind_st_run, alloc_run, bind_st_run, alloc_run, alloc_run.
  rewrite (bind_st_run (st_ret _)). unfold st_ret at 2. cbv beta iota.
  rewrite !length_app. simpl length. rewrite <- !Nat.add_assoc.
  simpl Nat.add. reflexivity.
Qed.

(** X15. From a level in place, [walk_json_schema] raises nothing on a
    tree it can go through and returns the very [dict] it was given; of
    the objects that were there it changes no other than the [dict] of
    properties and the list of required names of that level, and the level
    is in place afterwards. *)
Theorem walk_json_schema_returns_level (n : node) (r P Q : nat)
  (st : store) :
  walkable n = true -> level_of st r = Some (P, Q) ->
  exists st',
    walk_json_schema n (VRef r) st = (Return (VRef r), st')
    /\ keeps st st' [P; Q]
    /\ level_of st' r = Some (P, Q).
Proof.
  intros Hn Hl. apply level_of_level in Hl.
  destruct (walkable_ok n Hn r P Q st Hl) as (st' & Hrun & K & HP & HQ).
  exists st'. split; [done|]. split; [done|].
  apply level_level_of. by eapply level_keeps.
Qed.

(** X16. The outcome of a walk without a level, for every tree: for a
    terminal node the subscript of [None] raises [TypeError]; for any
    other node the walk either returns the schema object it has made, the
    third object it makes, or, when it comes to a node without children,
    raises [AttributeError] for the attribute [children]. In every case no
    object that was there has changed. *)
Theorem walk_without_level (n : node) (st : store) :
  (if is_terminal (attrs_of n)
   then fst (walk_json_schema n VNone st)
        = Raise (Exc TypeError "'NoneType' object is not subscriptable")
   else if walkable n
   then fst (walk_json_schema n VNone st) = Return (VRef (length st + 2))
   else exists e,
          fst (walk_json_schema n VNone st) = Raise e /\ lacks_children e)
  /\ keeps st (snd (walk_json_schema n VNone st)) [].
Proof.
  destruct n as [a ch]. simpl attrs_of.
  assert (K0 : keeps st (top_objects st) []).
  { unfold top_objects. repeat (eapply keeps_trans; [|apply keeps_alloc]).
    apply keeps_refl. }
  destruct (is_terminal a) eqn:Ht.
  - cbn [walk_json_schema]. rewrite Ht. split; [done|]. apply keeps_alloc.
  - rewrite (walk_none a ch st Ht).
    destruct (walkable (Node a ch)) eqn:Hn.
    + destruct (walkable_ok _ Hn _ _ _ _ (top_objects_level st))
        as (st' & -> & K & _). split; [done|]. simpl snd.
      eapply keeps_step; [exact K0|exact K|]. simpl. lia.
    + destruct (unwalkable_fails _ Hn _ _ _ _ (top_objects_level st))
        as (e & st' & -> & He & K). split; [by exists e|]. simpl snd.
      eapply keeps_step; [exact K0|exact K|]. simpl. lia.
Qed.

(** X17. Without a level, the walk from a node that is not terminal makes
    the schema object (type, properties, required, schema version) and
    returns it; no object that was there changes, and if the node is no
    choice the list of required names of the schema stays empty. *)
Theorem walk_json_schema_makes_schema (n : node) (st : store) :
  walkable n = true -> is_terminal (attrs_of n) = false ->
  exists st',
    walk_json_schema n VNone st = (Return (VRef (length st + 2)), st')
    /\ keeps st st' []
    /\ st' !! (length st + 2) = Some (ODict (top_items (length st)))
    /\ is_dict st' (length st)
    /\ (is_choice (attrs_of n) = false
        -> st' !! (length st + 1) = Some (OList [])).
Proof.
  intros Hn Ht. destruct n as [a ch]. simpl in Ht.
  rewrite (walk_none a ch st Ht).
  pose proof (top_objects_level st) as Hl.
  assert (K0 : keeps st (top_objects st) []).
  { unfold top_objects. repeat (eapply keeps_trans; [|apply keeps_alloc]).
    apply keeps_refl. }
  assert (L0 : length (top_objects st) = length st + 3).
  { unfold top_objects. lens. lia. }
  assert (HT : top_objects st !! (length st + 2)
               = Some (ODict (top_items (length st)))).
  { unfold top_objects. apply list_lookup_middle. lens. lia. }
  assert (HR : top_objects st !! (length st + 1) = Some (OList [])).
  { unfold top_objects. sl. done. }
  destruct (walkable_ok _ Hn _ _ _ _ Hl) as (st' & Hrun & K & HP & HQ).
  exists st'. split; [done|]. split.
  { eapply keeps_step; [exact K0|exact K|]. simpl. lia. }
  split. { destruct K as [_ K]. rewrite K; [done|lia|simpl; lia]. }
  split; [done|]. simpl. intros Hc.
  destruct ch as [cs|]; [|simpl in Hn; by rewrite Ht in Hn].
  simpl in Hn. rewrite Ht, Hc in Hn. simpl in Hn.
  apply children_visited_ok in Hn as Hok.
  destruct (internal_ok a cs Ht Hc Hok _ _ _ _ Hl)
    as (st2 & dp2 & dcp2 & Hrun2 & K2 & _).
  rewrite Hrun in Hrun2. injection Hrun2 as <-.
  destruct K2 as [_ K2]. rewrite K2; [done|lia|simpl; lia].
Qed.

(** X18. The walk from a node that is neither terminal nor a choice
    leaves the list of required names of the level it is given as it was,
    and the level itself: what is mandatory inside a group or a case is not
    required of the level the group or the case is merged into. *)
Theorem required_names_stay (n : node) (r P Q : nat) (st : store) :
  walkable n = true ->
  is_terminal (attrs_of n) = false -> is_choice (attrs_of n) = false ->
  level_of st r = Some (P, Q) ->
  exists st',
    walk_json_schema n (VRef r) st = (Return (VRef r), st')
    /\ st' !! Q = st !! Q /\ st' !! r = st !! r.
Proof.
  intros Hn Ht Hc Hl. apply level_of_level in Hl.
  destruct n as [a [cs|]]; simpl in *; [|by rewrite Ht in Hn].
  rewrite Ht, Hc in Hn. simpl in Hn.
  apply children_visited_ok in Hn as Hok.
  destruct (internal_ok a cs Ht Hc Hok _ _ _ _ Hl)
    as (st' & dp' & dcp & Hrun & K & _).
  exists st'. split; [done|].
  destruct Hl as (d & Hr & _ & _ & (dp & HP) & (lq & HQ) & Hne).
  destruct K as [_ K].
  split; (rewrite K; [done|by eapply lookup_lt|]);
    simpl; intros [->|[]]; congruence.
Qed.

(** X19. The alternatives of a choice node. The walk stores under the
    name of the choice, in the properties of the level, an object whose
    member [oneOf] lists one alternative for each child, in their order.
    Each alternative has the title of its child, the description of the
    choice node, the names of the children of its child as required names,
    and as properties one and the same [dict] for all alternatives, the
    one made for the children of the choice node. *)
Theorem choice_alternatives_share_properties (a : attrs) (cs : list node)
  (r P Q : nat) (st : store) :
  walkable (Node a (Some cs)) = true ->
  is_terminal a = false -> is_choice a = true ->
  level_of st r = Some (P, Q) ->
  exists st' bs E dp,
    walk_json_schema (Node a (Some cs)) (VRef r) st = (Return (VRef r), st')
    /\ st' !! P = Some (ODict dp)
    /\ assoc_get (choice_name a) dp = Some (VRef E)
    /\ st' !! E = Some (ODict (choice_items a (length st + 3)))
    /\ st' !! (length st + 3) = Some (OList (map VRef bs))
    /\ Forall2 (case_at a (length st) st') cs bs.
Proof.
  intros Hn Ht Hc Hl. apply level_of_level in Hl.
  simpl in Hn. rewrite Ht, Hc in Hn. simpl in Hn.
  apply cases_walk_ok in Hn as [Hok Hch].
  pose proof Hl as (d & _ & _ & _ & (dp & HP) & (lq & HQ) & _).
  destruct (choice_ok a cs Ht Hc Hok Hch r P Q st dp lq Hl HP HQ)
    as (st' & bs & E & Hrun & K & HP' & HQ' & HE & HL & HF).
  exists st', bs, E, (assoc_set (choice_name a) (VRef E) dp).
  split; [done|]. split; [done|]. split; [apply assoc_get_set_eq|].
  done.
Qed.

(** X22. A terminal node below a level in place. The walk makes one
    object, the entry of the node: its description and, for a leaf, the
    JSON Schema type of its type; a terminal node that is no leaf gets no
    type. The entry is stored under the name of the node in the properties
    of the level, and the name is added to the required names of the level
    exactly when the node is mandatory. *)
Theorem terminal_node_entry (a : attrs) (ch : option (list node))
  (r P Q : nat) (st : store) (dp : list (string * value))
  (lq : list value) :
  is_terminal a = true -> level_of st r = Some (P, Q) ->
  st !! P = Some (ODict dp) -> st !! Q = Some (OList lq) ->
  exists st',
    walk_json_schema (Node a ch) (VRef r) st = (Return (VRef r), st')
    /\ length st' = length st + 1
    /\ st' !! length st = Some (ODict (entry_items a))
    /\ st' !! P = Some (ODict (assoc_set (iname a) (VRef (length st)) dp))
    /\ st' !! Q = Some (OList (lq ++ if mandatory a
                                     then [VStr (iname a)] else [])).
Proof.
  intros Ht Hl HP HQ. apply level_of_level in Hl.
  destruct Hl as (d & Hr & Hp & Hq & _ & _ & Hne).
  destruct (terminal_run a ch r P Q st d dp lq Ht Hr Hp Hq HP HQ Hne)
    as (st' & Hrun & _ & L & HP' & HQ' & HE).
  by exists st'.
Qed.

(** X23. A node with children that is no choice, below a level in place.
    The walk makes an object for the children of the node, with properties
    and required names of its own. For a group or a case the properties of
    that object are put among the properties of the level; for any other
    node the object itself becomes one property of the level, under the
    name of the node. *)
Theorem internal_node_entry (a : attrs) (cs : list node) (r P Q : nat)
  (st : store) (dp : list (string * value)) :
  walkable (Node a (Some cs)) = true ->
  is_terminal a = false -> is_choice a = false ->
  level_of st r = Some (P, Q) -> st !! P = Some (ODict dp) ->
  exists st' dcp,
    walk_json_schema (Node a (Some cs)) (VRef r) st = (Return (VRef r), st')
    /\ st' !! length st = Some (ODict dcp)
    /\ st' !! (length st + 2) = Some (ODict (children_items a (length st)))
    /\ st' !! P
       = Some (ODict (if is_group a || is_case a then merge dp dcp
                      else assoc_set (iname a) (VRef (length st + 2)) dp)).
Proof.
  intros Hn Ht Hc Hl HP. apply level_of_level in Hl.
  simpl in Hn. rewrite Ht, Hc in Hn. simpl in Hn.
  apply children_visited_ok in Hn as Hok.
  destruct (internal_ok a cs Ht Hc Hok _ _ _ _ Hl)
    as (st' & dp' & dcp & Hrun & _ & _ & HP0 & HCP & HCD & HP').
  rewrite HP in HP0. injection HP0 as <-.
  by exists st', dcp.
Qed.

Lemma returns_ret {A : Type} (v0 : A) : returns_only (st_ret v0) v0.
Proof. intros st v st' [= <- _]. done. Qed.

Lemma returns_bind {A B : Type} (c : St A) (k : A -> St B) (v0 : B) :
  (forall a, returns_only (k a) v0) -> returns_only (st_bind c k) v0.
Proof.
  intros Hk st v st'. rewrite bind_st_run.
  destruct (c st) as [[a|e] st1]; [apply Hk|done].
Qed.

Lemma bind_ext_l {A B : Type} (c c' : St A) (k : A -> St B) (st : store) :
  (forall st, c st = c' st) -> st_bind c k st = st_bind c' k st.
Proof. intros H. by rewrite !bind_st_run, H. Qed.

Lemma bind_ext_r {A B : Type} (c : St A) (k k' : A -> St B) (st : store) :
  (forall a st, k a st = k' a st) -> st_bind c k st = st_bind c k' st.
Proof. intros H. rewrite !bind_st_run. by destruct (c st) as [[v|e] st1]. Qed.

Lemma fold_st_passed_over (a : attrs) (cs : list node) (cd : value)
  (st : store) :
  fold_st (child_round a) cs cd st
  = fold_st (child_round a)
      (List.filter (fun c => negb (passed_over a c)) cs) cd st.
Proof.
  revert cd st. induction cs as [|c cs IH]; intros cd st; [done|].
  cbn [fold_st List.filter]. destruct (passed_over a c) eqn:E; simpl negb.
  - rewrite bind_st_run. unfold child_round at 1. rewrite E.
    unfold st_ret. apply IH.
  - cbn [fold_st]. rewrite !bind_st_run.
    destruct (child_round a cd c st) as [[v|e] st1]; [apply IH|done].
Qed.

(** X24. Every [return] of [walk_json_schema] gives back
    [parent_level_data]: when the function is given a level, whatever it
    is, and returns, it returns what it was given, whatever the tree and
    the objects are. *)
Theorem walk_returns_parent (n : node) (parent_level_data : value)
  (st : store) :
  parent_level_data <> VNone ->
  match fst (walk_json_schema n parent_level_data st) with
  | Return v => v = parent_level_data
  | Raise _ => True
  end.
Proof.
  intros Hp.
  assert (H : returns_only (walk_json_schema n parent_level_data)
                parent_level_data);
    [|specialize (H st);
      destruct (walk_json_schema n parent_level_data st) as [[v|e] st'];
      [by eapply H|done]].
  destruct n as [a ch]. cbn [walk_json_schema].
  destruct (is_terminal a).
  - repeat (apply returns_bind; intros ?). apply returns_ret.
  - assert (Hsame : forall (k : value -> St value),
              returns_only (k parent_level_data) parent_level_data ->
              returns_only
                (st_bind (match parent_level_data with
                       | VNone =>
                           props <- alloc (ODict []) ;;
                           req <- alloc (OList []) ;;
                           alloc (ODict
                                    [("type", VStr "object");
                                     ("properties", props);
                                     ("required", req);
                                     ("$schema",
                                      VStr "http://json-schema.org/draft-04/schema#")])
                       | _ => st_ret parent_level_data
                       end) k) parent_level_data).
    { intros k Hk. by destruct parent_level_data. }
    apply Hsame.
    do 3 (apply returns_bind; intros ?).
    destruct (is_choice a);
      repeat (apply returns_bind; intros ?); apply returns_ret.
Qed.

(** X20. Below a node that is neither terminal nor a choice, the children
    the loop passes over count for nothing: the walk is the walk of the
    node without them. Below a node without a name, the root of a schema,
    these are all the children outside the namespace
    [tip-photonic-equipment]. *)
Theorem passed_over_children_count_for_nothing (a : attrs) (cs : list node)
  (parent_level_data : value) (st : store) :
  is_terminal a = false -> is_choice a = false ->
  walk_json_schema (Node a (Some cs)) parent_level_data st
  = walk_json_schema
      (Node a (Some (List.filter (fun c => negb (passed_over a c)) cs)))
      parent_level_data st.
Proof.
  intros Ht Hc. cbn [walk_json_schema]. rewrite Ht, Hc.
  do 4 (apply bind_ext_r; intros ? ?).
  apply bind_ext_l. intros st'. apply fold_st_passed_over.
Qed.

Lemma snapshot_ref (fuel : nat) (st : store) (r : nat) :
  snapshot (S fuel) st (VRef r)
  = match st !! r with
    | Some (ODict d) =>
        JDict <$> mapM (fun kv => pair (fst kv)
                                   <$> snapshot fuel st (snd kv)) d
    | Some (OList l) => JList <$> mapM (snapshot fuel st) l
    | None => None
    end.
Proof. reflexivity. Qed.

Lemma snapshot_str (fuel : nat) (st : store) (s : string) :
  snapshot (S fuel) st (VStr s) = Some (JStr s).
Proof. reflexivity. Qed.

Lemma all_passed_over (a : attrs) (cs : list node) :
  forallb (passed_over a) cs = true ->
  List.filter (fun c => negb (passed_over a c)) cs = [].
Proof.
  induction cs as [|c cs IH]; [done|]. simpl. intros H.
  apply andb_prop in H as [-> H]. simpl. by apply IH.
Qed.

(** X25. The schema of a tree that does not use the namespace
    [tip-photonic-equipment] is empty: for a root (a group node without a
    name) all of whose children are outside that namespace, whatever they
    are, the walk without a level returns a schema object with no property
    and no required name. *)
Theorem schema_without_equipment_is_empty (a : attrs) (cs : list node)
  (st : store) :
  is_terminal a = false -> is_choice a = false -> is_group a = true ->
  forallb (passed_over a) cs = true ->
  exists st',
    walk_json_schema (Node a (Some cs)) VNone st
    = (Return (VRef (length st + 2)), st')
    /\ snapshot 3 st' (VRef (length st + 2))
       = Some (JDict [("type", JStr "object");
                      ("properties", JDict []);
                      ("required", JList []);
                      ("$schema",
                       JStr "http://json-schema.org/draft-04/schema#")]).
Proof.
  intros Ht Hc Hg Hcs.
  assert (Hsame : walk_json_schema (Node a (Some cs)) VNone st
                  = walk_json_schema (Node a (Some [])) VNone st).
  { rewrite <- (all_passed_over a cs Hcs).
    cbn [walk_json_schema]. rewrite Ht, Hc.
    do 4 (apply bind_ext_r; intros ? ?).
    apply bind_ext_l. intros st'. apply fold_st_passed_over. }
  rewrite Hsame, (walk_none a _ st Ht).
  cbn [walk_json_schema fold_st]. rewrite Ht, Hc, Hg.
  rewrite bind_st_run. unfold st_ret at 1. cbv beta iota.
  rewrite bind_st_run, alloc_run, bind_st_run, alloc_run, bind_st_run, alloc_run.
  rewrite bind_st_run. unfold st_ret at 1. cbv beta iota.
  assert (L0 : length (top_objects st) = length st + 3).
  { unfold top_objects. lens. lia. }
  rewrite !length_app, L0. simpl length. rewrite <- !Nat.add_assoc.
  simpl Nat.add. simpl orb.
  set (s1 := (_ ++ [ODict [("properties", _); _; _; _]])).
  assert (HT : s1 !! (length st + 2) = Some (ODict (top_items (length st)))).
  { unfold s1, top_objects. sl. done. }
  assert (HP : s1 !! length st = Some (ODict [])).
  { unfold s1, top_objects. sl. done. }
  assert (HQ : s1 !! (length st + 1) = Some (OList [])).
  { unfold s1, top_objects. sl. done. }
  assert (HCP : s1 !! (length st + 3) = Some (ODict [])).
  { unfold s1. rewrite <- L0. sl. done. }
  assert (HCD : s1 !! (length st + 5)
                = Some (ODict [("properties", VRef (length st + 3));
                               ("type", VStr "object");
                               ("description", of_option (description a));
                               ("required", VRef (length st + 4))])).
  { unfold s1. apply list_lookup_middle. lens. lia. }
  assert (L1 : length s1 = length st + 6) by (unfold s1; lens; lia).
  clearbody s1.
  rewrite bind_st_run.
  rewrite bind_st_run, (getitem_dict _ _ _ _ (VRef (length st)) HT) by done.
  rewrite bind_st_run, (update_method_dict _ _ _ HP).
  rewrite bind_st_run, (getitem_dict _ _ _ _ (VRef (length st + 3)) HCD) by done.
  rewrite bind_st_run, (update_dict _ _ _ _ _ HP HCP).
  rewrite bind_st_run,
    (getitem_dict _ _ _ (top_items (length st)) (VRef (length st + 1)))
    by (sl; done).
  unfold hasattr_required. rewrite bind_st_run, alloc_run.
  rewrite bind_st_run, (iadd_list (length st + 1) _ _ [] []) by (sl; done).
  rewrite (setitem_dict _ _ _ _ (top_items (length st))) by (sl; done).
  eexists. split; [reflexivity|].
  rewrite (assoc_set_same _ _ _ (eq_refl : assoc_get "required"
             (top_items (length st)) = Some (VRef (length st + 1)))).
  set (st' := <[length st + 2 := _]> _).
  assert (HT' : st' !! (length st + 2)
                = Some (ODict (top_items (length st))))
    by (unfold st'; sl; done).
  assert (HP' : st' !! length st = Some (ODict []))
    by (unfold st'; sl; done).
  assert (HQ' : st' !! (length st + 1) = Some (OList []))
    by (unfold st'; sl; done).
  clearbody st'.
  rewrite snapshot_ref, HT'. unfold top_items.
  cbn -[snapshot]. rewrite !snapshot_str, !snapshot_ref, HP', HQ'.
  reflexivity.
Qed.

(** X26. From a level in place, on a tree it cannot go through,
    [walk_json_schema] ends with [AttributeError] for the attribute
    [children]: it has come to a node that is not terminal and has no
    children, or to a child of a choice node that has none. Of the objects
    that were there it has changed no other than the [dict] of properties
    and the list of required names of that level. *)
Theorem walk_stops_at_node_without_children (n : node) (r P Q : nat)
  (st : store) :
  walkable n = false -> level_of st r = Some (P, Q) ->
  exists e st',
    walk_json_schema n (VRef r) st = (Raise e, st')
    /\ lacks_children e
    /\ keeps st st' [P; Q].
Proof.
  intros Hn Hl. apply level_of_level in Hl.
  exact (unwalkable_fails n Hn r P Q st Hl).
Qed.


Lemma print_each_map {A : Type} (f : string -> string)
  (body body' : A -> list string * option exn) (l : list A) :
  Forall (fun x => body x = (map f (fst (body' x)), snd (body' x))) l ->
  print_each body l
  = (map f (fst (print_each body' l)), snd (print_each body' l)).
Proof.
  induction 1 as [|x l Hx _ IH]; [done|].
  cbn [print_each]. rewrite Hx, IH.
  destruct (body' x) as [ls [e|]]; [done|]. simpl.
  destruct (print_each body' l) as [ls' e']. simpl. by rewrite map_app.
Qed.

Lemma append_assoc (s1 s2 s3 : string) :
  (s1 +:+ s2) +:+ s3 = s1 +:+ (s2 +:+ s3).
Proof.
  induction s1 as [|c s1 IH]; [done|].
  change (String c ((s1 +:+ s2) +:+ s3) = String c (s1 +:+ s2 +:+ s3)).
  by f_equal.
Qed.

(** X21. Indentation only goes before the lines: what
    [debug_walk_string] prints at an indentation is what it prints at
    none, each line after the indentation, and the exception that ends
    it, if any, is the same. *)
Theorem debug_walk_string_indent (n : node) (indent : string) :
  debug_walk_string n indent
  = (map (String.append indent) (fst (debug_walk_string n "")),
     snd (debug_walk_string n "")).
Proof.
  revert indent. induction n as [a|a cs IH] using node_induction;
    intros indent; [done|].
  cbn [debug_walk_string]. apply print_each_map.
  induction IH as [|c cs Hc _ IH]; constructor; [|done].
  destruct (is_terminal (attrs_of c)).
  - simpl. by destruct (is_group (attrs_of c)).
  - rewrite (Hc (indent +:+ "  ")), (Hc ("" +:+ "  ")).
    destruct (debug_walk_string c "") as [ls e]. simpl. f_equal.
    f_equal; [by destruct (is_group (attrs_of c))|].
    rewrite map_map. apply map_ext. intros l. apply append_assoc.
Qed.
End WalkSpec.

(** ** More runs in the small environment *)

Module PatternRuns.
Import Re Constants Scan PatternSpec.

(** The predicate that selects the entry of a list whose key [if:name] is
    [eth0], written with spaces around the equals sign. *)
Lemma pred_re_key_round_trip_run :
  re_match pred_re "[if:name = 'eth0']/mtu"
  = Some {| matched := "[if:name = 'eth0']";
            named := [("srhs", "eth0"); ("loc", "name"); ("prf", "if")] |}.
Proof.
  apply (pred_re_key_round_trip [] [" "%char] [" "%char] []
           (list_ascii_of_string "name") (list_ascii_of_string "eth0")
           (list_ascii_of_string "/mtu")
           (Some (list_ascii_of_string "if")) false);
    reflexivity.
Defined.

(** A key predicate with spaces inside the brackets, and what follows
    it. *)
Lemma pred_re_scan_run :
  re_match pred_re "[ name = 'eth0' ]/mtu"
  = Some {| matched := "[ name = 'eth0' ]";
            named := [("srhs", "eth0"); ("loc", "name")] |}.
Proof.
  exact (pred_re_scan "[ name = 'eth0' ]/mtu" eq_refl).
Defined.

(** The predicate for the twelfth entry. *)
Lemma pred_re_groups_run :
  forallb digit (list_ascii_of_string "12") = true
  /\ [("pos", "12")] = [("pos", "12")].
Proof.
  exact (pred_re_groups "[12]"
           {| matched := "[12]"; named := [("pos", "12")] |}
           eq_refl eq_refl).
Defined.

End PatternRuns.

Module MoreRuns.
Import Re Constants Py Yangson Datamodel JsonSchema Observe ScriptObserve.
Import FacadeSpec PathSpec.

(** The path of the child [interfaces] of the root, in the state in which
    the root has this child and no other. *)
Lemma get_data_node_follows_route_run :
  get_data_node (env := Demo.absent) (Datastore_init 0 1 None)
    "/interfaces" Demo.one_child
  = (Return (Some 2),
     extend Demo.one_child (w_heap Demo.one_child)
       [EvPath2Route 1 "/interfaces"; EvGetDataChild 0 "interfaces" ""])
  /\ length [EvGetDataChild (ref := nat) 0 "interfaces" ""] = 1
  /\ ([("interfaces", "")] = [] -> 2 = 0).
Proof.
  apply (get_data_node_follows_route (env := Demo.absent)
           (Datastore_init 0 1 None) "/interfaces" Demo.one_child
           [("interfaces", "")]
           (w_heap Demo.one_child) (w_heap Demo.one_child) 2
           [EvGetDataChild 0 "interfaces" ""]);
    reflexivity.
Defined.

(** The library that lists no module: the tree is the object 0, the schema
    data the object 1, and the builder makes no call between the two
    constructors and post-processing. *)
Lemma built_model_is_complete_run :
  exists (root sdata : nat) (t : list (event nat)),
    Json.loads Demo.empty_library = Return (yang_library Demo.built_model)
    /\ description Demo.built_model = None
    /\ datastores Demo.built_model !! "config"
       = Some (Datastore_init root sdata None)
    /\ datastores Demo.built_model !! "operational"
       = Some (Datastore_init root sdata (Some all))
    /\ w_trace (snd (DataModel_init (env := Demo.absent) Demo.empty_library
                       ["."] None (Demo.start [])))
       = w_trace (Demo.start [])
         ++ EvSchemaTreeNode
            :: EvSchemaData (yang_library Demo.built_model) ["."]
            :: t ++ [EvPostProcess root; EvMakeSchemaPatterns root].
Proof.
  apply (built_model_is_complete (env := Demo.absent)
           Demo.empty_library ["."] None (Demo.start [])
           (snd (DataModel_init (env := Demo.absent)
                   Demo.empty_library ["."] None (Demo.start [])))
           Demo.built_model).
  vm_compute. reflexivity.
Defined.

(** A library file that holds the number 3. *)
Lemma scalar_library_type_error_run :
  DataModel_init (env := Demo.absent) "3" ["."] None
    (Demo.start [("lib.json", "3")])
  = (Raise (Exc TypeError "argument of type 'int' is not iterable"),
     Demo.start [("lib.json", "3")])
  /\ main (env := Demo.absent) Demo.silent_walk (Some "lib.json") None
       (Demo.start [("lib.json", "3")])
     = (Raise (Exc TypeError "argument of type 'int' is not iterable"),
        Demo.start [("lib.json", "3")]).
Proof.
  pose proof (scalar_library_type_error (env := Demo.absent)
                Demo.silent_walk "lib.json" None "3" ["."] None
                (Demo.start [("lib.json", "3")]) (JInt 3)
                eq_refl eq_refl) as [H1 H2].
  split; [exact H1|exact (H2 eq_refl)].
Defined.

(** No file of the name given. *)
Lemma unreadable_library_exit_code_1_run :
  main (env := Demo.absent) Demo.silent_walk (Some "lib.json") None
    (Demo.start [])
  = (Return 1%Z,
     with_error_line (Demo.start [])
       "YANG library: [Errno 2] No such file or directory: 'lib.json'").
Proof.
  apply (unreadable_library_exit_code_1 (env := Demo.absent)
           Demo.silent_walk "lib.json" None (Demo.start [])
           (Exc FileNotFoundError
              "[Errno 2] No such file or directory: 'lib.json'")).
  reflexivity.
Defined.

(** The library file holds one opening brace: the value returned is 2. *)
Lemma main_never_returns_0_run : 2%Z = 1%Z \/ 2%Z = 2%Z.
Proof.
  apply (main_never_returns_0 (env := Demo.absent) Demo.silent_walk
           (Some "lib.json") None (Demo.start [("lib.json", "{")]) 2%Z).
  reflexivity.
Defined.

(** Two directories, and a library that lists no module: the model is
    built with the two, and [main] ends at the attribute it looks up. *)
Lemma search_path_directories_run :
  main (env := Demo.absent) Demo.silent_walk (Some "lib.json")
    (Some "/usr/share/yang:modules")
    (Demo.start [("lib.json", Demo.empty_library)])
  = match DataModel_init (env := Demo.absent) Demo.empty_library
            ["/usr/share/yang"; "modules"] None
            (Demo.start [("lib.json", Demo.empty_library)])
    with
    | (Return dm, w1) =>
        (Raise (Exc AttributeError
                  "'DataModel' object has no attribute 'schema'"), w1)
    | (Raise e, w1) =>
        match clause_of (class_of e) model_errors with
        | Some label =>
            (Return 2%Z, with_error_line w1 (label +:+ " " +:+ str e))
        | None => (Raise e, w1)
        end
    end.
Proof.
  apply (search_path_directories (env := Demo.absent) Demo.silent_walk
           "lib.json" ["/usr/share/yang"; "modules"]
           (Demo.start [("lib.json", Demo.empty_library)])
           Demo.empty_library);
    [reflexivity|discriminate|reflexivity].
Defined.

End MoreRuns.

Module WalkRuns.
Import Py Schemanode JsonSchemaWalk WalkObserve WalkDemo WalkSpec.

(** The choice between two leaves, walked from the level at 2. *)
Lemma walk_json_schema_returns_level_run :
  exists st',
    walk_json_schema x_or_y (VRef 2) one_level = (Return (VRef 2), st')
    /\ keeps one_level st' [0; 1]
    /\ level_of st' 2 = Some (0, 1).
Proof.
  apply (walk_json_schema_returns_level x_or_y 2 0 1 one_level);
    reflexivity.
Defined.

(** A choice whose one child is a leaf. *)
Lemma walk_stops_at_node_without_children_run :
  exists e st',
    walk_json_schema (choice_node "pick" false [leaf "x" true Int8Type])
      (VRef 2) one_level = (Raise e, st')
    /\ lacks_children e
    /\ keeps one_level st' [0; 1].
Proof.
  apply (walk_stops_at_node_without_children
           (choice_node "pick" false [leaf "x" true Int8Type]) 2 0 1
           one_level); reflexivity.
Defined.

(** A schema whose one container in the namespace the walk looks for holds
    the choice and a mandatory leaf. *)
Lemma walk_json_schema_makes_schema_run :
  let n := tree_root [equipment "box" [x_or_y; leaf "z" true Uint8Type];
                      container "other" []] in
  exists st',
    walk_json_schema n VNone [] = (Return (VRef 2), st')
    /\ keeps [] st' []
    /\ st' !! 2 = Some (ODict (top_items 0))
    /\ is_dict st' 0
    /\ (is_choice (attrs_of n) = false -> st' !! 1 = Some (OList [])).
Proof.
  intros n. apply (walk_json_schema_makes_schema n []); reflexivity.
Defined.

(** A case with a mandatory leaf: the name of the leaf is not required of
    the level. *)
Lemma required_names_stay_run :
  exists st',
    walk_json_schema (case_node "a" [leaf "x" true Int8Type]) (VRef 2)
      one_level
    = (Return (VRef 2), st')
    /\ st' !! 1 = Some (OList [])
    /\ st' !! 2 = one_level !! 2.
Proof.
  apply (required_names_stay (case_node "a" [leaf "x" true Int8Type])
           2 0 1 one_level); reflexivity.
Defined.

Lemma choice_alternatives_share_properties_run :
  let a := attrs_of x_or_y in
  let cs := [case_node "a" [leaf "x" true Int8Type];
             case_node "b" [leaf "y" false BooleanType]] in
  exists st' bs E dp,
    walk_json_schema (Node a (Some cs)) (VRef 2) one_level
    = (Return (VRef 2), st')
    /\ st' !! 0 = Some (ODict dp)
    /\ assoc_get (choice_name a) dp = Some (VRef E)
    /\ st' !! E = Some (ODict (choice_items a 6))
    /\ st' !! 6 = Some (OList (map VRef bs))
    /\ Forall2 (case_at a 3 st') cs bs.
Proof.
  intros a cs.
  apply (choice_alternatives_share_properties a cs 2 0 1 one_level);
    reflexivity.
Defined.

(** Below the root, the container outside the namespace is passed over. *)
Lemma passed_over_children_count_for_nothing_run :
  let a := attrs_of (tree_root []) in
  walk_json_schema
    (Node a (Some [equipment "box" []; container "other" []])) VNone []
  = walk_json_schema (Node a (Some [equipment "box" []])) VNone [].
Proof.
  intros a.
  apply (passed_over_children_count_for_nothing a
           [equipment "box" []; container "other" []] VNone []);
    reflexivity.
Defined.

(** The schema of the tree above, as [json.dumps] reads it: both
    alternatives of the choice show the leaves of both cases. *)
Example x_or_y_alternatives :
  let run := walk_json_schema x_or_y (VRef 2) one_level in
  snapshot 6 (snd run) (VRef 6)
  = Some (JList
            [JDict [("properties",
                     JDict [("x", JDict [("description", JNull);
                                         ("type", JStr "number")]);
                            ("y", JDict [("description", JNull);
                                         ("type", JStr "boolean")])]);
                    ("type", JStr "object");
                    ("description", JStr "one of");
                    ("required", JList [JStr "x"]);
                    ("title", JStr "a");
                    ("additionalProperties", JBool false)];
             JDict [("properties",
                     JDict [("x", JDict [("description", JNull);
                                         ("type", JStr "number")]);
                            ("y", JDict [("description", JNull);
                                         ("type", JStr "boolean")])]);
                    ("type", JStr "object");
                    ("description", JStr "one of");
                    ("required", JList [JStr "y"]);
                    ("title", JStr "b");
                    ("additionalProperties", JBool false)]]).
Proof. reflexivity. Qed.

(** A mandatory leaf of a numeric type below the level at 2. *)
Lemma terminal_node_entry_run :
  exists st',
    walk_json_schema (leaf "mtu" true Uint16Type) (VRef 2) one_level
    = (Return (VRef 2), st')
    /\ length st' = 4
    /\ st' !! 3 = Some (ODict [("description", VNone);
                               ("type", VStr "number")])
    /\ st' !! 0 = Some (ODict [("mtu", VRef 3)])
    /\ st' !! 1 = Some (OList [VStr "mtu"]).
Proof.
  apply (terminal_node_entry (attrs_of (leaf "mtu" true Uint16Type)) None
           2 0 1 one_level [] []); reflexivity.
Defined.

(** A container with a mandatory leaf below the level at 2. *)
Lemma internal_node_entry_run :
  let n := container "box" [leaf "mtu" true Uint16Type] in
  exists st' dcp,
    walk_json_schema n (VRef 2) one_level = (Return (VRef 2), st')
    /\ st' !! 3 = Some (ODict dcp)
    /\ st' !! 5 = Some (ODict (children_items (attrs_of n) 3))
    /\ st' !! 0 = Some (ODict [("box", VRef 5)]).
Proof.
  intros n.
  apply (internal_node_entry (attrs_of n) [leaf "mtu" true Uint16Type]
           2 0 1 one_level []); reflexivity.
Defined.

(** The choice between two leaves, given the level at 2. *)
Lemma walk_returns_parent_run :
  match fst (walk_json_schema x_or_y (VRef 2) one_level) with
  | Return v => v = VRef 2
  | Raise _ => True
  end.
Proof.
  apply (walk_returns_parent x_or_y (VRef 2) one_level). discriminate.
Defined.

(** A root whose one child, a container with a mandatory leaf, is in
    another namespace. *)
Lemma schema_without_equipment_is_empty_run :
  exists st',
    walk_json_schema
      (Node (attrs_of (tree_root []))
         (Some [container "other" [leaf "mtu" true Uint16Type]])) VNone []
    = (Return (VRef 2), st')
    /\ snapshot 3 st' (VRef 2)
       = Some (JDict [("type", JStr "object");
                      ("properties", JDict []);
                      ("required", JList []);
                      ("$schema",
                       JStr "http://json-schema.org/draft-04/schema#")]).
Proof.
  apply (schema_without_equipment_is_empty (attrs_of (tree_root []))
           [container "other" [leaf "mtu" true Uint16Type]] []);
    reflexivity.
Defined.

End WalkRuns.
